(** * audio-probe-go-ffmpeg: a model of [cmd/audio-probe-ffmpeg/main.go]

  The development embeds the Go program shallowly:
  - Go's machine integers are [Z] with their wrap-around written out,
    [float64] is the IEEE-754 binary64 format of [SpecFloat];
  - Go strings are byte strings ([string]), Go maps are [gmap]s;
  - [analyzeFileWithFFProbe] is a function of what the operating system and
    ffprobe answered (a [World]) and of the file path;
  - [processFiles] is a transition system over the goroutines it starts, the
    buffered channel used as a semaphore, the wait groups and the atomic
    counter; every interleaving of the goroutines is a run of that system;
  - [outputText] and [outputJSON] build the text handed to the writer. *)

From Stdlib Require Import ZArith String Ascii List Bool Lia DecimalString.
From Stdlib Require Import Floats.SpecFloat Sorting.Sorted.
From stdpp Require Import gmap strings list.

Local Open Scope Z_scope.

(** ** Machine integers and floats *)

Module GoInt.

(** Two's complement wrap-around to [bits] bits. *)
Definition wrap (bits z : Z) : Z :=
  (z + 2 ^ (bits - 1)) mod 2 ^ bits - 2 ^ (bits - 1).

Definition int32 (z : Z) : Z := wrap 32 z.
Definition int64 (z : Z) : Z := wrap 64 z.

Definition maxInt32 : Z := 2 ^ 31 - 1.
Definition maxInt64 : Z := 2 ^ 63 - 1.
Definition minInt64 : Z := - 2 ^ 63.
Definition maxUint64 : Z := 2 ^ 64 - 1.

Definition inInt32 (z : Z) : Prop := - 2 ^ 31 <= z <= maxInt32.
Definition inInt64 (z : Z) : Prop := minInt64 <= z <= maxInt64.

End GoInt.

Module GoFloat.

(** [float64]: IEEE-754 binary64, precision 53 and maximal exponent 1024. *)
Definition float64 : Type := spec_float.

Definition zero : float64 := S754_zero false.
Definition add (a b : float64) : float64 := SFadd 53 1024 a b.
Definition div (a b : float64) : float64 := SFdiv 53 1024 a b.

(** The conversion [float64(n)] of an integer. *)
Definition ofInt (n : Z) : float64 := binary_normalize 53 1024 n 0 false.

End GoFloat.

Abbreviation float64 := GoFloat.float64.

(** ** The parts of Go's standard library the program calls *)

Module GoStrings.

(** [len(s)] as the [int] Go returns. *)
Definition len (s : string) : Z := Z.of_nat (String.length s).

Definition byteOf (c : ascii) : Z := Z.of_N (N_of_ascii c).

(** [utf8.RuneSelf] is [0x80]: bytes below it are ASCII. *)
Definition isASCII (s : string) : bool :=
  forallb (fun c => byteOf c <? 128) (list_ascii_of_string s).

Definition lowerByte (c : ascii) : ascii :=
  let b := byteOf c in
  if (65 <=? b) && (b <=? 90) then ascii_of_N (Z.to_N (b + 32)) else c.

Fixpoint mapBytes (f : ascii -> ascii) (s : string) : string :=
  match s with
  | EmptyString => EmptyString
  | String c s' => String (f c) (mapBytes f s')
  end.

(** [strings.ToLower]: the ASCII fast path is byte-wise; any other string goes
    through [strings.Map(unicode.ToLower, s)], which is given by the Unicode
    tables of the library ([unicodeToLower]). *)
Definition ToLower (unicodeToLower : string -> string) (s : string) : string :=
  if isASCII s then mapBytes lowerByte s else unicodeToLower s.

Fixpoint stripPrefix (p s : string) : option string :=
  match p, s with
  | EmptyString, _ => Some s
  | String a p', String b s' => if Ascii.eqb a b then stripPrefix p' s' else None
  | String _ _, EmptyString => None
  end.

(** [strings.TrimSuffix(s, suffix)]: [s] without the trailing [suffix], or [s]
    itself when it does not end with [suffix]. *)
Definition TrimSuffix (s suffix : string) : string :=
  match stripPrefix (String.rev suffix) (String.rev s) with
  | Some r => String.rev r
  | None => s
  end.

(** [strings.Contains(s, sub)]. *)
Fixpoint Contains (s sub : string) : bool :=
  match stripPrefix sub s with
  | Some _ => true
  | None => match s with
            | EmptyString => false
            | String _ s' => Contains s' sub
            end
  end.

(** The [%d] verb of package [fmt]. *)
Definition fmtInt (z : Z) : string := NilZero.string_of_int (Z.to_int z).

End GoStrings.

Module GoFilepath.

(** [os.IsPathSeparator] on Unix (the program is built for Linux). *)
Definition isPathSeparator (c : ascii) : bool := Ascii.eqb c "/"%char.

(** The loop of [filepath.Ext], which walks from the last byte backwards:
    [rpath] is what is left to visit (reversed), [suffix] what was visited. *)
Fixpoint extScan (rpath suffix : string) : string :=
  match rpath with
  | EmptyString => EmptyString
  | String c r =>
      if isPathSeparator c then EmptyString
      else if Ascii.eqb c "."%char then String c suffix
      else extScan r (String c suffix)
  end.

(** [filepath.Ext(path)]: the suffix beginning at the final dot in the final
    element of [path]; empty if there is no dot. *)
Definition Ext (path : string) : string := extScan (String.rev path) EmptyString.

Fixpoint stripSeparators (rpath : string) : string :=
  match rpath with
  | EmptyString => EmptyString
  | String c r => if isPathSeparator c then stripSeparators r else rpath
  end.

Fixpoint lastElement (rpath acc : string) : string :=
  match rpath with
  | EmptyString => acc
  | String c r => if isPathSeparator c then acc else lastElement r (String c acc)
  end.

(** [filepath.Base(path)] on Unix (no volume names). *)
Definition Base (path : string) : string :=
  match path with
  | EmptyString => "."
  | _ =>
      match lastElement (stripSeparators (String.rev path)) EmptyString with
      | EmptyString => "/"
      | e => e
      end
  end.

End GoFilepath.

Module GoStrconv.

Inductive NumError : Type := ErrSyntax | ErrRange.

Definition digitVal (c : ascii) : option Z :=
  let b := GoStrings.byteOf c in
  if (48 <=? b) && (b <=? 57) then Some (b - 48) else None.

(** The digit loop of [strconv.ParseUint(s, 10, 64)]; [n] is the value read
    so far. A letter or any other byte is a syntax error; the first digit that
    overflows [uint64] ends the loop with a range error and the largest value. *)
Fixpoint parseUintLoop (s : string) (n : Z) : Z * option NumError :=
  match s with
  | EmptyString => (n, None)
  | String c s' =>
      match digitVal c with
      | None => (0, Some ErrSyntax)
      | Some d =>
          if n >=? GoInt.maxUint64 / 10 + 1 then (GoInt.maxUint64, Some ErrRange)
          else
            let n1 := n * 10 + d in
            if n1 >? GoInt.maxUint64 then (GoInt.maxUint64, Some ErrRange)
            else parseUintLoop s' n1
      end
  end.

Definition ParseUint (s : string) : Z * option NumError :=
  match s with
  | EmptyString => (0, Some ErrSyntax)
  | _ => parseUintLoop s 0
  end.

(** [strconv.ParseInt(s, 10, 64)]: the value and the error. *)
Definition ParseInt (s : string) : Z * option NumError :=
  match s with
  | EmptyString => (0, Some ErrSyntax)
  | String c rest =>
      let neg := Ascii.eqb c "-"%char in
      let digits := if Ascii.eqb c "+"%char || neg then rest else s in
      match ParseUint digits with
      | (_, Some ErrSyntax) => (0, Some ErrSyntax)
      | (un, _) =>
          if negb neg && (un >=? 2 ^ 63) then (GoInt.maxInt64, Some ErrRange)
          else if neg && (un >? 2 ^ 63) then (GoInt.minInt64, Some ErrRange)
          else (GoInt.int64 (if neg then - un else un), None)
      end
  end.

(** [strconv.Atoi(s)] is [ParseInt(s, 10, 0)] converted to [int] (64 bits);
    its fast path for short strings computes the same value. *)
Definition Atoi (s : string) : Z * option NumError := ParseInt s.

End GoStrconv.

(** ** Data model *)

(** [AudioInfo]: the metadata of one audio file. *)
Module AudioInfo.
Record t : Type := mk {
  FilePath : string;
  FileSize : Z;
  DurationSeconds : float64;
  BitRate : Z;
  SampleRate : Z;
  Channels : Z;
  CodecName : string;
  CodecLongName : string;
  FormatName : string;
  FormatLongName : string;
  HasVideo : bool;
  Metadata : gmap string string;
  ProcessingTimeMs : Z
}.
End AudioInfo.

(** [FFProbeFormat]: the format object of ffprobe's JSON output. *)
Module FFProbeFormat.
Record t : Type := mk {
  Filename : string;
  FormatName : string;
  FormatLongName : string;
  Duration : string;
  Size : string;
  BitRate : string;
  Tags : gmap string string
}.
End FFProbeFormat.

(** [FFProbeStream]: one stream of ffprobe's JSON output. *)
Module FFProbeStream.
Record t : Type := mk {
  CodecName : string;
  CodecLongName : string;
  CodecType : string;
  SampleRate : string;
  Channels : Z;
  BitRate : string
}.
End FFProbeStream.

Record FFProbeOutput : Type := mkFFProbeOutput {
  Format : FFProbeFormat.t;
  Streams : list FFProbeStream.t
}.

(** [Result]: the processing result for a file. [Info] is a pointer that may be
    nil, [Error] an error value that may be nil; an error is modelled by the
    text its [Error()] method returns. *)
Record Result : Type := mkResult {
  Info : option AudioInfo.t;
  Error : option string
}.

Definition isNil {A : Type} (p : option A) : bool :=
  match p with None => true | Some _ => false end.

(** The zero value of [Result], which [make([]Result, n)] fills the slice with. *)
Definition zeroResult : Result := mkResult None None.

(** ** What the program takes from its environment *)

(** The library functions whose tables or algorithms are not reproduced here,
    and the order in which a [range] statement visits a map, which the Go
    runtime leaves unspecified. *)
Class GoRuntime : Type := {
  (** [strings.Map(unicode.ToLower, s)] *)
  unicodeToLower : string -> string;
  (** the value [strconv.ParseFloat(s, 64)] returns (its error is dropped) *)
  ParseFloat : string -> float64;
  (** the verb [%.Nf] of package [fmt] *)
  fmtFloat : nat -> float64 -> string;
  (** the conversion [int(f)] *)
  truncFloat : float64 -> Z;
  (** the entries of a map in the order a [range] statement visits them *)
  rangeOrder : gmap string string -> list (string * string);
  rangeOrder_perm : forall m, rangeOrder m ≡ₚ map_to_list m
}.

(** How ffprobe ran on a file. *)
Inductive ProbeRun : Type :=
| ExecFailed (err : string)          (* [cmd.Output()] returned an error *)
| BadJSON (err : string)             (* [json.Unmarshal] returned an error *)
| Parsed (probeData : FFProbeOutput). (* the decoded output *)

(** What one call of [analyzeFileWithFFProbe] observes. *)
Record World : Type := mkWorld {
  (** [os.Stat(filePath)]: the error text or the file's size *)
  statResult : string + Z;
  probeRun : ProbeRun;
  (** [time.Since(startTime).Milliseconds()] at the end of the call *)
  elapsedMs : Z
}.

(** ** [analyzeFileWithFFProbe] *)

Section Analyze.
Context `{GoRuntime}.

Definition ToLower (s : string) : string := GoStrings.ToLower unicodeToLower s.

Definition failure (msg : string) : Result := mkResult None (Some msg).
Definition success (info : AudioInfo.t) : Result := mkResult (Some info) None.

(** The loop over [probeData.Streams]: the first stream whose type is
    ["audio"] is kept (Go 1.22 and later give each iteration its own
    [stream] variable, so the pointer taken stays on that stream); a
    ["video"] stream sets [hasVideo]. *)
Definition selectStep (st : option FFProbeStream.t * bool) (stream : FFProbeStream.t)
  : option FFProbeStream.t * bool :=
  let '(audioStream, hasVideo) := st in
  if String.eqb (FFProbeStream.CodecType stream) "audio" && isNil audioStream
  then (Some stream, hasVideo)
  else if String.eqb (FFProbeStream.CodecType stream) "video" then (audioStream, true)
  else (audioStream, hasVideo).

Definition selectStreams (streams : list FFProbeStream.t) : option FFProbeStream.t * bool :=
  fold_left selectStep streams (None, false).

(** [metadata[strings.ToLower(k)] = v] for each tag, in the order the [range]
    statement visits the tags. *)
Definition lowerTags (tags : gmap string string) : gmap string string :=
  fold_left (fun metadata kv => <[ToLower kv.1 := kv.2]> metadata) (rangeOrder tags) ∅.

(** [if _, ok := metadata[key]; !ok { info.Metadata[key] = value }]; the maps
    [metadata] and [info.Metadata] are one and the same map object. *)
Definition setDefault (key value : string) (metadata : gmap string string)
  : gmap string string :=
  match metadata !! key with
  | Some _ => metadata
  | None => <[key := value]> metadata
  end.

Definition defaultTitle (filePath : string) : string :=
  let baseName := GoFilepath.Base filePath in
  GoStrings.TrimSuffix baseName (GoFilepath.Ext baseName).

(** The bit rate reported: the format's, unless it is [0] and the stream's is
    positive. *)
Definition chooseBitRate (bitRate streamBitRate : Z) : Z :=
  if (bitRate =? 0) && (streamBitRate >? 0) then streamBitRate else bitRate.

Definition analyzeFileWithFFProbe (w : World) (filePath : string) : Result :=
  match statResult w with
  | inl err => failure ("ファイルが見つかりません: " +:+ err)
  | inr fileSize =>
    match probeRun w with
    | ExecFailed err => failure ("ffprobe実行エラー: " +:+ err)
    | BadJSON err => failure ("JSONパースエラー: " +:+ err)
    | Parsed probeData =>
      let '(audioStream, hasVideo) := selectStreams (Streams probeData) in
      match audioStream with
      | None => failure "音声ストリームが見つかりません"
      | Some audioStream =>
        let format := Format probeData in
        let duration := ParseFloat (FFProbeFormat.Duration format) in
        let bitRate := fst (GoStrconv.ParseInt (FFProbeFormat.BitRate format)) in
        let sampleRate := fst (GoStrconv.Atoi (FFProbeStream.SampleRate audioStream)) in
        let streamBitRate := fst (GoStrconv.ParseInt (FFProbeStream.BitRate audioStream)) in
        let bitRate := chooseBitRate bitRate streamBitRate in
        let metadata := lowerTags (FFProbeFormat.Tags format) in
        let metadata := setDefault "title" (defaultTitle filePath) metadata in
        let metadata := setDefault "artist" "Unknown Artist" metadata in
        let metadata := setDefault "album" "Unknown Album" metadata in
        success {|
          AudioInfo.FilePath := filePath;
          AudioInfo.FileSize := fileSize;
          AudioInfo.DurationSeconds := duration;
          AudioInfo.BitRate := bitRate;
          AudioInfo.SampleRate := sampleRate;
          AudioInfo.Channels := FFProbeStream.Channels audioStream;
          AudioInfo.CodecName := FFProbeStream.CodecName audioStream;
          AudioInfo.CodecLongName := FFProbeStream.CodecLongName audioStream;
          AudioInfo.FormatName := FFProbeFormat.FormatName format;
          AudioInfo.FormatLongName := FFProbeFormat.FormatLongName format;
          AudioInfo.HasVideo := hasVideo;
          AudioInfo.Metadata := metadata;
          AudioInfo.ProcessingTimeMs := elapsedMs w
        |}
      end
    end
  end.

End Analyze.

(** ** [processFiles]: the goroutines and what they share *)

(** Where a worker goroutine [go func(index int, filePath string) {...}(i, file)]
    stands. The deferred calls run last, in the reverse order of their
    [defer] statements: the receive from [semaphore], then [wg.Done()]. *)
Inductive WorkerPC : Type :=
| WBlocked                (* at the send [semaphore <- struct{}{}] *)
| WProbing                (* holds a permit, the call of [analyzeFileWithFFProbe] is running *)
| WReturned (r : Result)  (* the call returned [r]; at [results[index] = ...] *)
| WWritten                (* at [atomic.AddInt32(&processed, 1)] *)
| WCounted                (* at the deferred receive [<-semaphore] *)
| WReleased               (* at the deferred [wg.Done()] *)
| WDone.

(** A worker goroutine: the arguments it was started with, and its position. *)
Record Worker : Type := mkWorker {
  index : nat;
  filePath : string;
  pc : WorkerPC
}.

(** Where the body of [processFiles] stands. *)
Inductive MainPC : Type :=
| MLoop (i : nat)               (* in [for i, file := range files], before iteration [i] *)
| MWait                         (* at [wg.Wait()] *)
| MJoinProgress                 (* [progressDone] is closed; at [progressWg.Wait()] *)
| MReturned (out : list Result) (* returned [out] *)
| MPanicked.                    (* the program panicked *)

(** The progress goroutine, which is started only when [quiet] is false. *)
Inductive ProgressPC : Type := PAbsent | PRunning | PExited.

Inductive LogLine : Type :=
| LogClampWarning (requested cpuLimit : Z)
| LogFound (n : Z)
| LogProcessing (n maxConcurrency : Z)
| LogCompleted
| LogSucceeded (successCount : Z)
| LogFailed (failCount : Z).

(** What a run does, in the order it does it. [g] is the position of a worker
    among the goroutines started, [index] the argument it was given. *)
Inductive Event : Type :=
| EvLog (l : LogLine)
| EvSpawn (index : nat) (filePath : string)
| EvAcquire (g : nat)
| EvProbe (g : nat) (filePath : string) (w : World)
| EvWrite (index : nat) (r : Result)
| EvIncr (g : nat) (value : Z)
| EvRelease (g : nat)
| EvDone (g : nat)
| EvTick (p : Z)
| EvProgressFinal (total : Z).

Record State : Type := mkState {
  main : MainPC;
  results : list Result;      (* the slice [results] *)
  semaphore : Z;              (* the number of values buffered in the channel *)
  capacity : Z;               (* the capacity of the channel *)
  processed : Z;              (* the [int32] counter *)
  wg : Z;                     (* the counter of [wg] *)
  progressWg : Z;             (* the counter of [progressWg] *)
  workers : list Worker;      (* the worker goroutines, in the order they were started *)
  progress : ProgressPC;
  progressDone : bool;        (* whether the channel [progressDone] is closed *)
  trace : list Event
}.

(** Who moves next: the schedule of a run is a list of these. The world a
    call of [analyzeFileWithFFProbe] observes is chosen when the call returns. *)
Inductive Label : Type :=
| LMain
| LWorker (g : nat)
| LProbe (g : nat) (w : World)
| LTick
| LProgressDone.

(** The counting loop at the end of [processFiles]; the counts are bounded by
    [len(results)], so the [int] counters do not wrap. *)
Definition countStep (c : Z * Z) (result : Result) : Z * Z :=
  let '(successCount, failCount) := c in
  if isNil (Error result) then (successCount + 1, failCount)
  else (successCount, failCount + 1).

Definition countResults (rs : list Result) : Z * Z := fold_left countStep rs (0, 0).

Definition setPC (p : WorkerPC) (wk : Worker) : Worker :=
  mkWorker (index wk) (filePath wk) p.

Section Scheduler.
Context `{GoRuntime}.
Variable files : list string.
Variable quiet : bool.
(** [runtime.NumCPU()] *)
Variable numCPU : Z.

Definition cpuLimit : Z := GoInt.int64 (numCPU * 12).

(** The value of [maxConcurrency] after the adjustment to the CPU limit. *)
Definition effectiveConcurrency (maxConcurrency : Z) : Z :=
  if maxConcurrency >? cpuLimit then cpuLimit else maxConcurrency.

Definition startLog (maxConcurrency : Z) : list Event :=
  (if maxConcurrency >? cpuLimit
   then [EvLog (LogClampWarning maxConcurrency cpuLimit)] else [])
  ++ [EvLog (LogFound (Z.of_nat (length files)));
      EvLog (LogProcessing (Z.of_nat (length files)) (effectiveConcurrency maxConcurrency))].

(** The state after the setup of [processFiles], before the loop that starts
    the workers: the slice is made, the channel is made (which panics on a
    negative capacity) and the progress goroutine is started unless [quiet]. *)
Definition start (maxConcurrency : Z) : State :=
  let n := effectiveConcurrency maxConcurrency in
  {| main := if n <? 0 then MPanicked else MLoop 0;
     results := replicate (length files) zeroResult;
     semaphore := 0;
     capacity := n;
     processed := 0;
     wg := 0;
     progressWg := if quiet then 0 else 1;
     workers := [];
     progress := if quiet then PAbsent else PRunning;
     progressDone := false;
     trace := startLog maxConcurrency |}.

Definition panic (s : State) : State :=
  {| main := MPanicked; results := results s; semaphore := semaphore s;
     capacity := capacity s; processed := processed s; wg := wg s;
     progressWg := progressWg s; workers := workers s; progress := progress s;
     progressDone := progressDone s; trace := trace s |}.

Definition finishLog (rs : list Result) : list Event :=
  let '(successCount, failCount) := countResults rs in
  [EvLog LogCompleted; EvLog (LogSucceeded successCount)]
  ++ (if failCount >? 0 then [EvLog (LogFailed failCount)] else []).

(** One step of the body of [processFiles]. *)
Definition mainStep (s : State) : option State :=
  match main s with
  | MLoop i =>
      match files !! i with
      | Some file =>
          (* [wg.Add(1)] and the [go] statement *)
          Some {| main := MLoop (S i); results := results s; semaphore := semaphore s;
                  capacity := capacity s; processed := processed s; wg := wg s + 1;
                  progressWg := progressWg s;
                  workers := workers s ++ [mkWorker i file WBlocked];
                  progress := progress s; progressDone := progressDone s;
                  trace := trace s ++ [EvSpawn i file] |}
      | None =>
          Some {| main := MWait; results := results s; semaphore := semaphore s;
                  capacity := capacity s; processed := processed s; wg := wg s;
                  progressWg := progressWg s; workers := workers s;
                  progress := progress s; progressDone := progressDone s;
                  trace := trace s |}
      end
  | MWait =>
      (* [wg.Wait()] returns once the counter is zero; then [close(progressDone)] *)
      if wg s =? 0 then
        Some {| main := MJoinProgress; results := results s; semaphore := semaphore s;
                capacity := capacity s; processed := processed s; wg := wg s;
                progressWg := progressWg s; workers := workers s;
                progress := progress s; progressDone := true;
                trace := trace s |}
      else None
  | MJoinProgress =>
      (* [progressWg.Wait()], the counting loop, the log lines, [return results] *)
      if progressWg s =? 0 then
        Some {| main := MReturned (results s); results := results s;
                semaphore := semaphore s; capacity := capacity s;
                processed := processed s; wg := wg s; progressWg := progressWg s;
                workers := workers s; progress := progress s;
                progressDone := progressDone s;
                trace := trace s ++ finishLog (results s) |}
      else None
  | MReturned _ | MPanicked => None
  end.

(** The state after worker [g] moved to [p], with the shared variables as given. *)
Definition workerMoved (s : State) (g : nat) (wk : Worker) (p : WorkerPC)
    (rs : list Result) (sem cnt w : Z) (e : Event) : State :=
  {| main := main s; results := rs; semaphore := sem; capacity := capacity s;
     processed := cnt; wg := w; progressWg := progressWg s;
     workers := <[g := setPC p wk]> (workers s);
     progress := progress s; progressDone := progressDone s;
     trace := trace s ++ [e] |}.

(** One step of the worker goroutine [g], other than the return of its call
    of [analyzeFileWithFFProbe]. *)
Definition workerStep (g : nat) (s : State) : option State :=
  match workers s !! g with
  | None => None
  | Some wk =>
      match pc wk with
      | WBlocked =>
          (* a send on a buffered channel proceeds while the buffer is not full;
             with capacity 0 it needs a receiver, and there is none *)
          if semaphore s <? capacity s then
            Some (workerMoved s g wk WProbing (results s) (semaphore s + 1)
                    (processed s) (wg s) (EvAcquire g))
          else None
      | WProbing => None
      | WReturned r =>
          (* [results[index] = Result{Info: info, Error: err}], which panics
             when the index is out of range *)
          if bool_decide (index wk < length (results s))%nat then
            Some (workerMoved s g wk WWritten (<[index wk := r]> (results s))
                    (semaphore s) (processed s) (wg s) (EvWrite (index wk) r))
          else Some (panic s)
      | WWritten =>
          let v := GoInt.int32 (processed s + 1) in
          Some (workerMoved s g wk WCounted (results s) (semaphore s) v (wg s)
                  (EvIncr g v))
      | WCounted =>
          (* a receive proceeds when a value is buffered *)
          if 0 <? semaphore s then
            Some (workerMoved s g wk WReleased (results s) (semaphore s - 1)
                    (processed s) (wg s) (EvRelease g))
          else None
      | WReleased =>
          (* [wg.Done()] panics on a negative counter *)
          if wg s - 1 <? 0 then Some (panic s)
          else Some (workerMoved s g wk WDone (results s) (semaphore s)
                       (processed s) (wg s - 1) (EvDone g))
      | WDone => None
      end
  end.

(** The call [analyzeFileWithFFProbe(filePath)] of worker [g] returns, having
    observed [w]. *)
Definition probeStep (g : nat) (w : World) (s : State) : option State :=
  match workers s !! g with
  | None => None
  | Some wk =>
      match pc wk with
      | WProbing =>
          Some (workerMoved s g wk
                  (WReturned (analyzeFileWithFFProbe w (filePath wk)))
                  (results s) (semaphore s) (processed s) (wg s)
                  (EvProbe g (filePath wk) w))
      | _ => None
      end
  end.

Definition progressMoved (s : State) (p : ProgressPC) (pw : Z) (e : Event) : State :=
  {| main := main s; results := results s; semaphore := semaphore s;
     capacity := capacity s; processed := processed s; wg := wg s;
     progressWg := pw; workers := workers s; progress := p;
     progressDone := progressDone s; trace := trace s ++ [e] |}.

(** The ticker fires: the progress goroutine loads the counter and prints it. *)
Definition tickStep (s : State) : option State :=
  match progress s with
  | PRunning =>
      Some (progressMoved s PRunning (progressWg s) (EvTick (processed s)))
  | _ => None
  end.

(** The progress goroutine receives from the closed [progressDone], prints
    the final line and returns; its deferred [progressWg.Done()] runs. *)
Definition progressDoneStep (s : State) : option State :=
  match progress s with
  | PRunning =>
      if progressDone s then
        Some (progressMoved s PExited (progressWg s - 1)
                (EvProgressFinal (Z.of_nat (length files))))
      else None
  | _ => None
  end.

Definition halted (s : State) : bool :=
  match main s with
  | MReturned _ | MPanicked => true
  | _ => false
  end.

(** One step of the program. Nothing moves once [processFiles] has returned
    (its goroutines are done by then) or once the program panicked. *)
Definition step (l : Label) (s : State) : option State :=
  if halted s then None
  else
    match l with
    | LMain => mainStep s
    | LWorker g => workerStep g s
    | LProbe g w => probeStep g w s
    | LTick => tickStep s
    | LProgressDone => progressDoneStep s
    end.

(** The run of a schedule, if every label of it is enabled in its turn. *)
Fixpoint run (sched : list Label) (s : State) : option State :=
  match sched with
  | [] => Some s
  | l :: sched' =>
      match step l s with
      | Some s' => run sched' s'
      | None => None
      end
  end.

(** The states some interleaving of [processFiles(files, maxConcurrency)]
    passes through. *)
Inductive reachable (maxConcurrency : Z) : State -> Prop :=
| reachable_start : reachable maxConcurrency (start maxConcurrency)
| reachable_step s l s' :
    reachable maxConcurrency s -> step l s = Some s' -> reachable maxConcurrency s'.

End Scheduler.

(** ** The report: [outputResults], [outputText], [outputJSON] *)

(** The line feed, which the format strings write as [\n]. *)
Definition nl : string := String (ascii_of_nat 10) EmptyString.

(** How a function that writes the report ends. *)
Inductive Status : Type :=
| Finished                (* returned [nil] *)
| Failed (err : string)   (* returned an error *)
| Crashed.                (* panicked on a nil pointer *)

(** The statistics [outputText] accumulates. [totalSize] is an [int64]. *)
Record Stats : Type := mkStats {
  totalDuration : float64;
  totalSize : Z;
  successCount : Z
}.

Definition statsStep (st : Stats) (result : Result) : Stats :=
  match Error result, Info result with
  | None, Some info =>
      {| totalDuration := GoFloat.add (totalDuration st) (AudioInfo.DurationSeconds info);
         totalSize := GoInt.int64 (totalSize st + AudioInfo.FileSize info);
         successCount := successCount st + 1 |}
  | _, _ => st
  end.

Definition summarize (results : list Result) : Stats :=
  fold_left statsStep results (mkStats GoFloat.zero 0 0).

(** The loop of [outputJSON]: the records of the successful results. *)
Definition validResults (results : list Result) : list AudioInfo.t :=
  flat_map (fun result =>
              match Error result, Info result with
              | None, Some info => [info]
              | _, _ => []
              end) results.

Section Report.
Context `{GoRuntime}.
(** The indented JSON object [encoding/json] writes for one [*AudioInfo]
    inside an array, or the error the encoder reports for it (a duration that
    is not a number, for instance). *)
Variable jsonElement : AudioInfo.t -> string + string.

Definition formatBytes (bytes : Z) : string :=
  let KB := 1024 in
  let MB := KB * 1024 in
  let GB := MB * 1024 in
  if bytes >=? GB then fmtFloat 2 (GoFloat.div (GoFloat.ofInt bytes) (GoFloat.ofInt GB)) +:+ " GB"
  else if bytes >=? MB then fmtFloat 2 (GoFloat.div (GoFloat.ofInt bytes) (GoFloat.ofInt MB)) +:+ " MB"
  else if bytes >=? KB then fmtFloat 2 (GoFloat.div (GoFloat.ofInt bytes) (GoFloat.ofInt KB)) +:+ " KB"
  else GoStrings.fmtInt bytes +:+ " bytes".

(** Go's [/] and [%] on integers truncate towards zero. *)
Definition formatDuration (seconds : float64) : string :=
  let hours := Z.quot (truncFloat seconds) 3600 in
  let minutes := Z.quot (Z.rem (truncFloat seconds) 3600) 60 in
  let secs := Z.rem (truncFloat seconds) 60 in
  if hours >? 0 then
    GoStrings.fmtInt hours +:+ "時間" +:+ GoStrings.fmtInt minutes +:+ "分"
      +:+ GoStrings.fmtInt secs +:+ "秒"
  else if minutes >? 0 then
    GoStrings.fmtInt minutes +:+ "分" +:+ GoStrings.fmtInt secs +:+ "秒"
  else fmtFloat 1 seconds +:+ "秒".

Definition formatBitRate (bitRate : Z) : string :=
  if bitRate >=? 1000000 then
    fmtFloat 1 (GoFloat.div (GoFloat.ofInt bitRate) (GoFloat.ofInt 1000000)) +:+ " Mbps"
  else if bitRate >=? 1000 then GoStrings.fmtInt (Z.quot bitRate 1000) +:+ " kbps"
  else GoStrings.fmtInt bitRate +:+ " bps".

Definition formatBool (b : bool) : string := if b then "はい" else "いいえ".

Definition concat (parts : list string) : string :=
  fold_right String.append EmptyString parts.

(** The metadata lines of one file, in the order the [range] statement visits
    the map; entries with an empty value are skipped. *)
Definition metadataLines (metadata : gmap string string) : string :=
  if bool_decide (0 < size metadata)%nat then
    "   メタデータ:" +:+ nl +:+
    concat (map (fun kv =>
                   if String.eqb kv.2 "" then ""
                   else "     " +:+ kv.1 +:+ ": " +:+ kv.2 +:+ nl)
              (rangeOrder metadata))
  else "".

Definition infoLines (info : AudioInfo.t) : string :=
  concat [
    nl; "📁 ファイル: "; AudioInfo.FilePath info; nl;
    "   サイズ: "; formatBytes (AudioInfo.FileSize info); nl;
    "   継続時間: "; formatDuration (AudioInfo.DurationSeconds info); nl;
    "   ビットレート: "; formatBitRate (AudioInfo.BitRate info); nl;
    "   サンプルレート: "; GoStrings.fmtInt (AudioInfo.SampleRate info); " Hz"; nl;
    "   チャンネル数: "; GoStrings.fmtInt (AudioInfo.Channels info); nl;
    "   コーデック: "; AudioInfo.CodecName info; " ("; AudioInfo.CodecLongName info; ")"; nl;
    "   フォーマット: "; AudioInfo.FormatName info; " ("; AudioInfo.FormatLongName info; ")"; nl;
    "   動画含む: "; formatBool (AudioInfo.HasVideo info); nl;
    "   処理時間: "; GoStrings.fmtInt (AudioInfo.ProcessingTimeMs info); "ms"; nl;
    metadataLines (AudioInfo.Metadata info) ].

(** The line of a failed result. *)
Definition errorLine (err : string) : string :=
  nl +:+ "❌ エラー: " +:+ err +:+ nl.

(** The loop over the individual results. A result with neither an error
    nor a record makes [info.FilePath] dereference a nil pointer: the
    function panics, and what was written before stays written. *)
Fixpoint resultLines (results : list Result) : string * Status :=
  match results with
  | [] => (EmptyString, Finished)
  | result :: rest =>
      match Error result with
      | Some err =>
          let '(text, st) := resultLines rest in (errorLine err +:+ text, st)
      | None =>
          match Info result with
          | None => (EmptyString, Crashed)
          | Some info =>
              let '(text, st) := resultLines rest in (infoLines info +:+ text, st)
          end
      end
  end.

(** The title and the three lines of statistics. *)
Definition statsLines (results : list Result) : string :=
  let st := summarize results in
  concat [
    "=== 音声ファイル分析結果 ==="; nl;
    "成功: "; GoStrings.fmtInt (successCount st);
    ", 失敗: "; GoStrings.fmtInt (Z.of_nat (length results) - successCount st); nl;
    "総継続時間: "; formatDuration (totalDuration st); nl;
    "総サイズ: "; formatBytes (totalSize st); nl ].

Definition outputText (results : list Result) : string * Status :=
  let '(text, st) := resultLines results in
  (statsLines results +:+ text, st).

(** [encoder.Encode(validResults)] with the indentation ["  "]: a nil slice
    is written as [null]; the encoder writes nothing when it fails. *)
Fixpoint jsonElements (infos : list AudioInfo.t) : string + list string :=
  match infos with
  | [] => inr []
  | info :: rest =>
      match jsonElement info with
      | inl err => inl err
      | inr e =>
          match jsonElements rest with
          | inl err => inl err
          | inr es => inr (e :: es)
          end
      end
  end.

Fixpoint joinElements (es : list string) : string :=
  match es with
  | [] => EmptyString
  | [e] => "  " +:+ e +:+ nl
  | e :: rest => "  " +:+ e +:+ "," +:+ nl +:+ joinElements rest
  end.

Definition outputJSON (results : list Result) : string * Status :=
  match validResults results with
  | [] => ("null" +:+ nl, Finished)
  | infos =>
      match jsonElements infos with
      | inr es => ("[" +:+ nl +:+ joinElements es +:+ "]" +:+ nl, Finished)
      | inl err => (EmptyString, Failed err)
      end
  end.

(** [outputResults]: [create] tells whether [os.Create(outputFile)] fails. *)
Definition outputResults (create : string -> option string)
    (results : list Result) (format outputFile : string) : string * Status :=
  let write :=
    if String.eqb format "json" then outputJSON results else outputText results in
  if String.eqb outputFile "" then write
  else
    match create outputFile with
    | Some err => (EmptyString, Failed ("出力ファイルの作成に失敗: " +:+ err))
    | None => write
    end.

End Report.

(** ** A runtime to run the model on concrete inputs

    [fmtFixed] and [truncate] follow Go on every [float64]; [parseDecimal]
    reads plain decimal numbers ([-12.5]) and is exact for up to 15 digits;
    the lower-case map leaves a string that is not ASCII unchanged. *)
Module Sample.

Fixpoint zeros (n : nat) : string :=
  match n with
  | O => EmptyString
  | S n' => String "0"%char (zeros n')
  end.

Definition padLeft (width : nat) (s : string) : string :=
  zeros (width - String.length s) +:+ s.

(** A non-negative rational [num / den] rounded to the nearest integer, ties
    to even. *)
Definition roundHalfEven (num den : Z) : Z :=
  let q := num / den in
  let r := num mod den in
  if (2 * r >? den) || ((2 * r =? den) && Z.odd q) then q + 1 else q.

Definition fmtFixed (prec : nat) (f : float64) : string :=
  let scale := 10 ^ Z.of_nat prec in
  let digits (q : Z) : string :=
    GoStrings.fmtInt (q / scale) +:+
    (match prec with
     | O => EmptyString
     | _ => "." +:+ padLeft prec (GoStrings.fmtInt (q mod scale))
     end) in
  match f with
  | S754_nan => "NaN"
  | S754_infinity s => if s then "-Inf" else "+Inf"
  | S754_zero s => (if s then "-" else "") +:+ digits 0
  | S754_finite s m e =>
      (if s then "-" else "") +:+
      digits (if 0 <=? e then Z.pos m * 2 ^ e * scale
              else roundHalfEven (Z.pos m * scale) (2 ^ (- e)))
  end.

(** [int(f)]: truncation towards zero; what does not fit (and NaN) gives the
    smallest [int64], as on amd64. *)
Definition truncate (f : float64) : Z :=
  match f with
  | S754_zero _ => 0
  | S754_finite s m e =>
      let a := if 0 <=? e then Z.pos m * 2 ^ e else Z.pos m / 2 ^ (- e) in
      let v := if s then - a else a in
      if (GoInt.minInt64 <=? v) && (v <=? GoInt.maxInt64) then v else GoInt.minInt64
  | _ => GoInt.minInt64
  end.

(** The digits of [s] as a number, and how many there are; [None] on any
    other byte. *)
Fixpoint readDigits (s : string) (acc : Z) (n : nat) : option (Z * nat) :=
  match s with
  | EmptyString => Some (acc, n)
  | String c s' =>
      match GoStrconv.digitVal c with
      | Some d => readDigits s' (acc * 10 + d) (S n)
      | None => None
      end
  end.

Fixpoint splitDot (s : string) : string * option string :=
  match s with
  | EmptyString => (EmptyString, None)
  | String c s' =>
      if Ascii.eqb c "."%char then (EmptyString, Some s')
      else let '(a, b) := splitDot s' in (String c a, b)
  end.

Definition parseDecimal (s : string) : float64 :=
  let '(neg, body) :=
    match s with
    | String c rest =>
        if Ascii.eqb c "-"%char then (true, rest)
        else if Ascii.eqb c "+"%char then (false, rest) else (false, s)
    | EmptyString => (false, s)
    end in
  let '(ip, fp) := splitDot body in
  let fp := default EmptyString fp in
  match readDigits (ip +:+ fp) 0 0 with
  | Some (m, S _) =>
      let v := GoFloat.div (GoFloat.ofInt m) (GoFloat.ofInt (10 ^ Z.of_nat (String.length fp))) in
      if neg then SFopp v else v
  | _ => GoFloat.zero
  end.

#[export] Instance runtime : GoRuntime := {|
  unicodeToLower := fun s => s;
  ParseFloat := parseDecimal;
  fmtFloat := fmtFixed;
  truncFloat := truncate;
  rangeOrder := map_to_list;
  rangeOrder_perm := fun m => reflexivity (map_to_list m)
|}.

End Sample.

(** ** Reading a run: what each worker did, and counting workers *)

(** The worlds the calls of [analyzeFileWithFFProbe] of worker [g] observed. *)
Definition probesOf (g : nat) (tr : list Event) : list World :=
  omap (fun e => match e with
                 | EvProbe g' _ w => if decide (g' = g) then Some w else None
                 | _ => None
                 end) tr.

(** The values written to [results[i]], in the order they were written. *)
Definition writesTo (i : nat) (tr : list Event) : list Result :=
  omap (fun e => match e with
                 | EvWrite i' r => if decide (i' = i) then Some r else None
                 | _ => None
                 end) tr.

(** The values of the counter after each increment by worker [g]. *)
Definition incrsOf (g : nat) (tr : list Event) : list Z :=
  omap (fun e => match e with
                 | EvIncr g' v => if decide (g' = g) then Some v else None
                 | _ => None
                 end) tr.

(** The values of the counter after each increment, in order. *)
Definition counterValues (tr : list Event) : list Z :=
  omap (fun e => match e with EvIncr _ v => Some v | _ => None end) tr.

(** The values of the counter the progress goroutine loaded, in order. *)
Definition ticks (tr : list Event) : list Z :=
  omap (fun e => match e with EvTick p => Some p | _ => None end) tr.

Definition logged (tr : list Event) : list LogLine :=
  omap (fun e => match e with EvLog l => Some l | _ => None end) tr.

(** The number of workers whose position has weight 1 under [f]. *)
Definition tally (f : WorkerPC -> nat) (ws : list Worker) : nat :=
  sum_list_with (fun wk => f (pc wk)) ws.

(** The worker holds a permit: it sent to [semaphore] and has not received. *)
Definition holdsPermit (p : WorkerPC) : nat :=
  match p with
  | WProbing | WReturned _ | WWritten | WCounted => 1
  | _ => 0
  end%nat.

(** The call of [analyzeFileWithFFProbe] is in flight. *)
Definition inFlight (p : WorkerPC) : nat :=
  match p with WProbing => 1 | _ => 0 end%nat.

(** The worker has not called [wg.Done()] yet. *)
Definition live (p : WorkerPC) : nat :=
  match p with WDone => 0 | _ => 1 end%nat.

(** The call returned. *)
Definition probed (p : WorkerPC) : nat :=
  match p with WBlocked | WProbing => 0 | _ => 1 end%nat.

(** The worker wrote its slot. *)
Definition written (p : WorkerPC) : bool :=
  match p with WBlocked | WProbing | WReturned _ => false | _ => true end.

(** The worker incremented the counter. *)
Definition counted (p : WorkerPC) : nat :=
  match p with WCounted | WReleased | WDone => 1 | _ => 0 end%nat.

(** The number of steps the worker has left. *)
Definition stepsLeft (p : WorkerPC) : nat :=
  match p with
  | WBlocked => 6 | WProbing => 5 | WReturned _ => 4 | WWritten => 3
  | WCounted => 2 | WReleased => 1 | WDone => 0
  end%nat.

(** Where the worker for slot [g] stands; a worker not started yet is as good
    as blocked. *)
Definition pcAt (ws : list Worker) (g : nat) : WorkerPC :=
  match ws !! g with
  | Some wk => pc wk
  | None => WBlocked
  end.

(** The calls that return in a schedule observe the worlds [worldOf] gives. *)
Definition observes (worldOf : nat -> World) (l : Label) : Prop :=
  match l with
  | LProbe g w => w = worldOf g
  | _ => True
  end.

Definition isTick (l : Label) : bool :=
  match l with LTick => true | _ => false end.

(** A call returns a record and no error, or an error and no record. *)
Definition validOutcome (r : Result) : Prop :=
  (is_Some (Info r) /\ Error r = None) \/ (Info r = None /\ is_Some (Error r)).

Definition isFailure (r : Result) : bool := negb (isNil (Error r)).

Definition isAudio (stream : FFProbeStream.t) : bool :=
  String.eqb (FFProbeStream.CodecType stream) "audio".

(** ** What holds in every state of a run *)

Section Invariant.
Context `{GoRuntime}.
Variable files : list string.
Variable quiet : bool.
Variable numCPU : Z.
Variable maxConcurrency : Z.

(** The results of the calls that observed [ws], for the file of slot [g]. *)
Definition outcomes (g : nat) (ws : list World) : list Result :=
  match files !! g with
  | Some path => map (fun w => analyzeFileWithFFProbe w path) ws
  | None => []
  end.

(** What slot [g] holds when its worker stands at [p]. *)
Definition slotValue (p : WorkerPC) (rs : list Result) : Result :=
  if written p then default zeroResult (head rs) else zeroResult.

(** Slot [g], its worker and the events of that worker agree. *)
Record slotOK (s : State) (g : nat) : Prop := {
  slot_probed :
    length (probesOf g (trace s)) = probed (pcAt (workers s) g);
  slot_returned : forall r,
    pcAt (workers s) g = WReturned r -> outcomes g (probesOf g (trace s)) = [r];
  slot_written :
    writesTo g (trace s) =
      if written (pcAt (workers s) g) then outcomes g (probesOf g (trace s)) else [];
  slot_value :
    (g < length files)%nat ->
    results s !! g = Some (slotValue (pcAt (workers s) g) (outcomes g (probesOf g (trace s))));
  slot_counted :
    length (incrsOf g (trace s)) = counted (pcAt (workers s) g)
}.

Definition counterValue (k : nat) : Z := GoInt.int32 (Z.of_nat k).

Record Inv (s : State) : Prop := {
  inv_results : length (results s) = length files;
  inv_workers : forall g wk,
    workers s !! g = Some wk -> index wk = g /\ files !! g = Some (filePath wk);
  inv_main :
    match main s with
    | MLoop i => length (workers s) = i /\ progressDone s = false
    | MWait => length (workers s) = length files /\ progressDone s = false
    | MJoinProgress =>
        length (workers s) = length files /\ wg s = 0 /\ progressDone s = true
    | MReturned out =>
        length (workers s) = length files /\ wg s = 0 /\ progressDone s = true /\
        progressWg s = 0 /\ out = results s /\
        exists tr, trace s = tr ++ finishLog out
    | MPanicked => False
    end;
  inv_semaphore : semaphore s = Z.of_nat (tally holdsPermit (workers s));
  inv_capacity :
    semaphore s <= capacity s /\
    capacity s = effectiveConcurrency numCPU maxConcurrency;
  inv_wg : wg s = Z.of_nat (tally live (workers s));
  inv_processed : processed s = counterValue (tally counted (workers s));
  inv_counter :
    counterValues (trace s) = map counterValue (seq 1 (tally counted (workers s)));
  inv_ticks : exists ks,
    ticks (trace s) = map counterValue ks /\
    StronglySorted le ks /\
    Forall (fun k => k <= tally counted (workers s))%nat ks;
  inv_progress :
    match progress s with
    | PAbsent => quiet = true /\ progressWg s = 0
    | PRunning => quiet = false /\ progressWg s = 1
    | PExited => quiet = false /\ progressWg s = 0 /\ progressDone s = true
    end;
  inv_slots : forall g, slotOK s g
}.

(** The steps a run has left, ticks apart. *)
Definition measure (s : State) : nat :=
  (match main s with
   | MLoop _ => 3 | MWait => 2 | MJoinProgress => 1 | _ => 0
   end
   + match progress s with PRunning => 1 | _ => 0 end
   + 7 * (length files - length (workers s))
   + tally stepsLeft (workers s))%nat.

End Invariant.

(** ** A batch of ten files

    Ten files are probed with a concurrency of three; the calls for the files
    2 and 7 fail, the others succeed with durations of 1.5, 2.5, ... seconds. *)
Module Example.
Import Sample.

Definition files : list string :=
  map (fun i => "/music/track" +:+ GoStrings.fmtInt (Z.of_nat i) +:+ ".mp3") (seq 0 10).

Definition audio : FFProbeStream.t :=
  FFProbeStream.mk "mp3" "MP3 (MPEG audio layer 3)" "audio" "44100" 2 "128000".

Definition cover : FFProbeStream.t :=
  FFProbeStream.mk "mjpeg" "Motion JPEG" "video" "" 0 "".

Definition probeData (i : nat) : FFProbeOutput :=
  {| Format :=
       FFProbeFormat.mk "track.mp3" "mp3" "MP2/3 (MPEG audio layer 2/3)"
         (GoStrings.fmtInt (Z.of_nat (S i)) +:+ ".5") "4096" "0"
         (<["ARTIST" := "Someone"]> ∅);
     Streams := [cover; audio] |}.

(** What the call for file [i] observes. *)
Definition world (i : nat) : World :=
  if (i =? 2)%nat || (i =? 7)%nat
  then mkWorld (inr 4096) (ExecFailed "exit status 1") 3
  else mkWorld (inr (1000 * Z.of_nat (S i))) (Parsed (probeData i)) 40.

(** Worker [g] takes a permit. *)
Definition acquire (g : nat) : list Label := [LWorker g].

(** The call of worker [g] returns; the worker writes its slot, increments
    the counter, gives its permit back and signals the wait group. *)
Definition finish (g : nat) : list Label :=
  [LProbe g (world g); LWorker g; LWorker g; LWorker g; LWorker g].

(** An interleaving in which the workers end in the order
    4, 9, 7, 0, 1, 3, 2, 8, 5, 6. *)
Definition schedule : list Label :=
  replicate 10 LMain
  ++ acquire 9 ++ acquire 4 ++ acquire 0 ++ [LMain; LTick]
  ++ finish 4 ++ acquire 1 ++ finish 9 ++ acquire 7 ++ finish 7 ++ [LTick]
  ++ finish 0 ++ acquire 2 ++ acquire 3 ++ finish 1 ++ acquire 5
  ++ finish 3 ++ finish 2 ++ acquire 6 ++ acquire 8 ++ [LTick]
  ++ finish 8 ++ finish 5 ++ finish 6
  ++ [LMain; LTick; LProgressDone; LMain].

Definition numCPU : Z := 4.

Definition initial : State := start files false numCPU 3.

(** The states the schedule goes through, the first one apart. *)
Fixpoint states (sched : list Label) (s : State) : list State :=
  match sched with
  | [] => []
  | l :: sched' =>
      match step files l s with
      | Some s' => s' :: states sched' s'
      | None => []
      end
  end.

(** The state the schedule ends in. *)
Definition final : State := default initial (run files schedule initial).

(** The slice [processFiles] returned. *)
Definition returned : list Result := results final.

(** The result of the call for file 1, and its record. *)
Definition track1 : Result := analyzeFileWithFFProbe (world 1) "/music/track1.mp3".

Definition noInfo : AudioInfo.t :=
  AudioInfo.mk EmptyString 0 GoFloat.zero 0 0 0 EmptyString EmptyString EmptyString
    EmptyString false ∅ 0.

Definition track1Info : AudioInfo.t := default noInfo (Info track1).

(** A batch of one file that cannot be read, with the progress display off. *)
Definition brokenFiles : list string := ["/music/broken.mp3"].

Definition brokenWorld : World :=
  mkWorld (inl "stat /music/broken.mp3: no such file or directory")
    (ExecFailed EmptyString) 0.

Definition brokenError : string :=
  "ファイルが見つかりません: stat /music/broken.mp3: no such file or directory".

Definition brokenSchedule : list Label :=
  [LMain; LWorker 0; LMain; LProbe 0 brokenWorld;
   LWorker 0; LWorker 0; LWorker 0; LWorker 0; LMain; LMain].

Definition brokenInitial : State := start brokenFiles true numCPU 1.

Definition brokenFinal : State :=
  default brokenInitial (run brokenFiles brokenSchedule brokenInitial).

End Example.

(** ** [collectAudioFiles]

    The file system is a tree: a node is a file or a directory whose listing
    either fails or gives the entries in the order [os.ReadDir] and
    [filepath.Walk] deliver them (sorted by name). An entry carries the path
    [filepath.Join(dir, name)] the library computes for it. Symbolic links
    are not modelled. *)
Inductive Node : Type :=
| File
| Dir (listingError : option string) (entries : list (string * Node)).

Definition isDir (n : Node) : bool :=
  match n with File => false | Dir _ _ => true end.

(** The keys of the map [audioExtensions]. *)
Definition audioExtensionNames : list string :=
  [".mp3"; ".wav"; ".flac"; ".aac"; ".ogg"; ".m4a"; ".wma"; ".opus";
   ".mp2"; ".ac3"; ".dts"; ".ape"; ".aiff"; ".au"; ".ra"; ".amr";
   ".webm"; ".mkv"; ".m4b"; ".m4p"].

(** The map [audioExtensions]: every key maps to [true]; a key that is not
    there reads as [false]. *)
Definition audioExtensions : gmap string bool :=
  list_to_map (map (fun ext => (ext, true)) audioExtensionNames).

Section Collect.
Context `{GoRuntime}.

(** [audioExtensions[strings.ToLower(filepath.Ext(p))]] *)
Definition hasAudioExtension (p : string) : bool :=
  default false (audioExtensions !! ToLower (GoFilepath.Ext p)).

(** What the three branches do with the path of a file:
    [if audioExtensions[ext] { audioFiles = append(audioFiles, p) }]. *)
Definition visitFile (p : string) (audioFiles : list string) : list string :=
  if hasAudioExtension p then audioFiles ++ [p] else audioFiles.

(** [filepath.Walk(path, fn)] on a node that [os.Lstat] found, with the
    function literal of [collectAudioFiles] as [fn]: a directory is listed,
    a listing that fails is handed to [fn], which returns the error, and the
    walk stops; the entries are walked in order. *)
Fixpoint walk (p : string) (n : Node) (audioFiles : list string)
  : string + list string :=
  match n with
  | File => inr (visitFile p audioFiles)
  | Dir (Some err) _ => inl err
  | Dir None entries =>
      (fix walkEntries (es : list (string * Node)) (audioFiles : list string)
         : string + list string :=
         match es with
         | [] => inr audioFiles
         | (q, child) :: rest =>
             match walk q child audioFiles with
             | inl err => inl err
             | inr audioFiles' => walkEntries rest audioFiles'
             end
         end) entries audioFiles
  end.

(** The loop over the entries of [os.ReadDir(path)]. *)
Definition readEntries (entries : list (string * Node)) (audioFiles : list string)
  : list string :=
  fold_left (fun audioFiles e => if isDir e.2 then audioFiles else visitFile e.1 audioFiles)
    entries audioFiles.

(** One iteration of [for _, path := range paths]; [stat] is [os.Stat],
    which gives no node when it fails. *)
Definition collectStep (stat : string -> option Node) (recursive : bool)
    (path : string) (audioFiles : list string) : string + list string :=
  match stat path with
  | None => inl ("パスが存在しません: " +:+ path)
  | Some File => inr (visitFile path audioFiles)
  | Some (Dir listingError entries) =>
      if recursive then walk path (Dir listingError entries) audioFiles
      else
        match listingError with
        | Some err => inl err
        | None => inr (readEntries entries audioFiles)
        end
  end.

Fixpoint collectLoop (stat : string -> option Node) (recursive : bool)
    (paths : list string) (audioFiles : list string) : string + list string :=
  match paths with
  | [] => inr audioFiles
  | path :: rest =>
      match collectStep stat recursive path audioFiles with
      | inl err => inl err
      | inr audioFiles' => collectLoop stat recursive rest audioFiles'
      end
  end.

(** [collectAudioFiles(paths, recursive)]: the error, or the audio files. *)
Definition collectAudioFiles (stat : string -> option Node) (paths : list string)
    (recursive : bool) : string + list string :=
  collectLoop stat recursive paths [].

End Collect.

Global Opaque hasAudioExtension.

(** *** What [collectAudioFiles] is expected to return *)

(** The first listing that fails in the order of the walk. *)
Fixpoint firstError (n : Node) : option string :=
  match n with
  | File => None
  | Dir (Some err) _ => Some err
  | Dir None entries =>
      (fix firstOf (es : list (string * Node)) : option string :=
         match es with
         | [] => None
         | (_, child) :: rest =>
             match firstError child with
             | Some err => Some err
             | None => firstOf rest
             end
         end) entries
  end.

(** The paths of the files under a node, in the order of the walk. *)
Fixpoint filesUnder (p : string) (n : Node) : list string :=
  match n with
  | File => [p]
  | Dir _ entries =>
      (fix filesOf (es : list (string * Node)) : list string :=
         match es with
         | [] => []
         | (q, child) :: rest => filesUnder q child ++ filesOf rest
         end) entries
  end.

(** The paths of the entries of a directory that are files. *)
Definition filesIn (entries : list (string * Node)) : list string :=
  map fst (List.filter (fun e => negb (isDir e.2)) entries).

(** The files one argument stands for, or the error it ends with. *)
Definition expand (stat : string -> option Node) (recursive : bool) (path : string)
  : string + list string :=
  match stat path with
  | None => inl ("パスが存在しません: " +:+ path)
  | Some File => inr [path]
  | Some (Dir listingError entries) =>
      if recursive then
        match firstError (Dir listingError entries) with
        | Some err => inl err
        | None => inr (filesUnder path (Dir listingError entries))
        end
      else
        match listingError with
        | Some err => inl err
        | None => inr (filesIn entries)
        end
  end.

(** The files the arguments stand for, in order, or the first error. *)
Fixpoint candidates (stat : string -> option Node) (recursive : bool)
    (paths : list string) : string + list string :=
  match paths with
  | [] => inr []
  | path :: rest =>
      match expand stat recursive path with
      | inl err => inl err
      | inr fs =>
          match candidates stat recursive rest with
          | inl err => inl err
          | inr gs => inr (fs ++ gs)
          end
      end
  end.

(** The totals the progress goroutine printed in its final line. *)
Definition finals (tr : list Event) : list Z :=
  omap (fun e => match e with EvProgressFinal total => Some total | _ => None end) tr.

(** ** The entry point: [main] *)

Definition version : string := "0.2.0-ffprobe".

(** The values of the flags once [flag.Parse()] has returned, and the
    arguments that are left ([flag.Args()]). *)
Module Flags.
Record t : Type := mk {
  concurrency : Z;        (* -j *)
  outputFormat : string;  (* -format *)
  jsonFlag : bool;        (* -json *)
  outputFile : string;    (* -o *)
  recursive : bool;       (* -r *)
  showVersion : bool;     (* -version *)
  quiet : bool;           (* -q *)
  args : list string
}.
End Flags.

(** The flags of a command line that sets none: the defaults [main] gives to
    package [flag]; [numCPU] is [runtime.NumCPU()]. *)
Definition defaultFlags (numCPU : Z) (args : list string) : Flags.t :=
  Flags.mk (GoInt.int64 (numCPU * 2)) "text" false "" false false false args.

(** What [main] has written when it stops before it processes any file. *)
Inductive Notice : Type :=
| Printed (text : string)   (* on the standard output *)
| Usage                     (* [printUsage()], on the standard error *)
| Logged (line : string).   (* by package [log] *)

(** [main] up to the call of [processFiles]: the program has ended with an
    exit status ([os.Exit], or [log.Fatal], which exits with 1), or the
    call is made with these arguments and these values of the globals
    [quiet], [outputFormat] and [outputFile]. *)
Inductive Start : Type :=
| Stop (code : Z) (notice : Notice)
| Process (audioFiles : list string) (maxConcurrency : Z) (quiet : bool)
          (format outputFile : string).

Section Main.
Context `{GoRuntime}.

(** [checkFFProbe] tells what [checkFFProbe()] returns, [stat] what [os.Stat]
    finds. *)
Definition mainStart (flags : Flags.t) (checkFFProbe : bool)
    (stat : string -> option Node) : Start :=
  if Flags.showVersion flags then
    Stop 0 (Printed ("Audio Probe Go FFprobe v" +:+ version +:+ nl))
  else
    let outputFormat :=
      if Flags.jsonFlag flags then "json" else Flags.outputFormat flags in
    match Flags.args flags with
    | [] => Stop 1 Usage
    | _ :: _ =>
        if negb checkFFProbe then
          Stop 1 (Logged "ffprobeが見つかりません。FFmpegをインストールしてください。")
        else
          match collectAudioFiles stat (Flags.args flags) (Flags.recursive flags) with
          | inl err => Stop 1 (Logged ("ファイル収集エラー: " +:+ err))
          | inr [] => Stop 0 (Logged "音声ファイルが見つかりませんでした")
          | inr audioFiles =>
              Process audioFiles (Flags.concurrency flags) (Flags.quiet flags)
                outputFormat (Flags.outputFile flags)
          end
    end.

(** The exit status of the program after [outputResults]: [main] returns, or
    [log.Fatalf] exits with 1, or the panic ends the program with 2. *)
Definition exitCode (st : Status) : Z :=
  match st with
  | Finished => 0
  | Failed _ => 1
  | Crashed => 2
  end.

End Main.

(** A result [outputText] can print: it has an error or a record. *)
Definition hasOutcome (result : Result) : bool :=
  negb (isNil (Error result)) || negb (isNil (Info result)).

(** ** A music library, and a command line on it *)

Module Library.
Import Sample.

(** The directory [/music/live]. *)
Definition live : Node :=
  Dir None [("/music/live/Encore.FLAC", File);
            ("/music/live/b.ogg", File);
            ("/music/live/setlist.txt", File)].

(** The directory [/music]: a cover, the directory [live], and the ten
    tracks of [Example.files]. *)
Definition music : Node :=
  Dir None ([("/music/cover.jpg", File); ("/music/live", live)]
            ++ map (fun p => (p, File)) Example.files).

(** [os.Stat] on this machine. *)
Definition stat (path : string) : option Node :=
  if String.eqb path "/music" then Some music
  else if String.eqb path "/music/live" then Some live
  else if String.eqb path "/song.wav" then Some File
  else if String.eqb path "/readme.md" then Some File
  else if String.eqb path "/music/live/b.ogg" then Some File
  else None.

(** [audio-probe -j 3 /music] *)
Definition flags : Flags.t :=
  Flags.mk 3 "text" false EmptyString false false false ["/music"].

(** [audio-probe -json -r -q /music] on a machine with four CPUs *)
Definition jsonFlags : Flags.t :=
  Flags.mk 8 "text" true EmptyString true false true ["/music"].

(** The batch of [Example] with a concurrency of zero, once the ten workers
    are started. *)
Definition stuck : State :=
  default (start Example.files false Example.numCPU 0)
    (run Example.files (replicate 10 LMain) (start Example.files false Example.numCPU 0)).

(** Results as no run of [processFiles] gives them: the second one has
    neither a record nor an error. *)
Definition holed : list Result :=
  [Example.track1; zeroResult; failure "ffprobe実行エラー: exit status 1"].

(** Tags with an empty value. *)
Definition tags : gmap string string :=
  <["title" := "Intro"]> (<["comment" := EmptyString]> ∅).

End Library.

(** * Properties *)

(** ** Machine integers *)

Module GoIntFacts.
Import GoInt.

Lemma wrap_id bits z :
  0 < bits -> - 2 ^ (bits - 1) <= z < 2 ^ (bits - 1) -> wrap bits z = z.
Proof.
  intros Hb Hz. unfold wrap.
  assert (2 ^ bits = 2 * 2 ^ (bits - 1)) as Hp.
  { rewrite <- Z.pow_succ_r by lia. f_equal. lia. }
  rewrite Z.mod_small; lia.
Qed.

(** Addition modulo [2^bits] does not care where the wrap happens. *)
Lemma wrap_add_l bits a b : 0 < bits -> wrap bits (wrap bits a + b) = wrap bits (a + b).
Proof.
  intros Hb. unfold wrap. f_equal.
  replace ((a + 2 ^ (bits - 1)) mod 2 ^ bits - 2 ^ (bits - 1) + b + 2 ^ (bits - 1))
    with ((a + 2 ^ (bits - 1)) mod 2 ^ bits + b) by lia.
  replace (a + b + 2 ^ (bits - 1)) with ((a + 2 ^ (bits - 1)) + b) by lia.
  apply Zplus_mod_idemp_l.
Qed.

Lemma int32_id z : inInt32 z -> int32 z = z.
Proof. unfold inInt32, maxInt32, int32. intros Hz. apply wrap_id; lia. Qed.

Lemma int64_id z : inInt64 z -> int64 z = z.
Proof. unfold inInt64, minInt64, maxInt64, int64. intros Hz. apply wrap_id; lia. Qed.

Lemma int64_range z : inInt64 (int64 z).
Proof.
  unfold inInt64, minInt64, maxInt64, int64, wrap.
  pose proof (Z.mod_pos_bound (z + 2 ^ (64 - 1)) (2 ^ 64) ltac:(lia)). lia.
Qed.

Lemma int64_add_l a b : int64 (int64 a + b) = int64 (a + b).
Proof. apply wrap_add_l. lia. Qed.

End GoIntFacts.

(** ** [analyzeFileWithFFProbe] *)

Section AnalyzeFacts.
Context `{GoRuntime}.

Lemma selectStep_kept a hv streams :
  fst (fold_left selectStep streams (Some a, hv)) = Some a.
Proof.
  revert hv. induction streams as [|st streams IH]; intros hv; simpl; [done|].
  rewrite andb_false_r. destruct (String.eqb _ "video"); apply IH.
Qed.

(** The stream selected is the first one whose type is ["audio"]. *)
Lemma selectStreams_first streams :
  fst (selectStreams streams) = head (List.filter isAudio streams).
Proof.
  unfold selectStreams. generalize false as hv.
  induction streams as [|st streams IH]; intros hv; simpl; [done|].
  unfold isAudio at 1. destruct (String.eqb (FFProbeStream.CodecType st) "audio") eqn:Ha; simpl.
  - apply selectStep_kept.
  - destruct (String.eqb _ "video"); apply IH.
Qed.

Lemma analyze_validOutcome w path : validOutcome (analyzeFileWithFFProbe w path).
Proof.
  unfold analyzeFileWithFFProbe, validOutcome, failure, success.
  destruct (statResult w); [right; simpl; eauto|].
  destruct (probeRun w); try (right; simpl; eauto; fail).
  destruct (selectStreams _) as [[a|] hv]; simpl; eauto.
Qed.

(** What a successful call was given. *)
Lemma analyze_success_inv w path info :
  Info (analyzeFileWithFFProbe w path) = Some info ->
  exists fileSize probeData audioStream hasVideo,
    statResult w = inr fileSize /\
    probeRun w = Parsed probeData /\
    selectStreams (Streams probeData) = (Some audioStream, hasVideo) /\
    AudioInfo.BitRate info =
      chooseBitRate (fst (GoStrconv.ParseInt (FFProbeFormat.BitRate (Format probeData))))
                    (fst (GoStrconv.ParseInt (FFProbeStream.BitRate audioStream))) /\
    AudioInfo.Metadata info =
      setDefault "album" "Unknown Album"
        (setDefault "artist" "Unknown Artist"
           (setDefault "title" (defaultTitle path)
              (lowerTags (FFProbeFormat.Tags (Format probeData))))).
Proof.
  unfold analyzeFileWithFFProbe, failure, success.
  destruct (statResult w) as [e|size]; [done|].
  destruct (probeRun w) as [e|e|data]; [done|done|].
  destruct (selectStreams _) as [[a|] hv] eqn:Hsel; [|done].
  simpl. intros [= <-]. exists size, data, a, hv. simpl. done.
Qed.

Lemma lowerTags_fold_lookup (l : list (string * string)) (acc : gmap string string) k :
  is_Some (fold_left (fun metadata kv => <[ToLower kv.1 := kv.2]> metadata) l acc !! k) <->
  is_Some (acc !! k) \/ exists kv, kv ∈ l /\ ToLower kv.1 = k.
Proof.
  revert acc. induction l as [|kv l IH]; intros acc; simpl.
  - split; [auto|]. intros [?|(kv & Hin & _)]; [done|]. by apply elem_of_nil in Hin.
  - rewrite IH. split.
    + intros [Hk | (kv' & Hin & Hk)].
      * destruct (decide (ToLower kv.1 = k)) as [Heq|Hne].
        -- right. exists kv. split; [left|done].
        -- left. by rewrite lookup_insert_ne in Hk.
      * right. exists kv'. split; [by right|done].
    + intros [Hk | (kv' & Hin & Hk)].
      * left. destruct (decide (ToLower kv.1 = k)) as [<-|Hne].
        -- rewrite lookup_insert_eq. eauto.
        -- by rewrite lookup_insert_ne.
      * apply elem_of_cons in Hin as [->|Hin].
        -- left. rewrite <- Hk, lookup_insert_eq. eauto.
        -- right. eauto.
Qed.

(** The keys of [lowerTags tags] are the lower-cased keys of [tags]. *)
Lemma lowerTags_lookup tags k :
  is_Some (lowerTags tags !! k) <-> exists k0, is_Some (tags !! k0) /\ ToLower k0 = k.
Proof.
  unfold lowerTags. rewrite lowerTags_fold_lookup, lookup_empty. split.
  - intros [[? [=]]|([k0 v] & Hin & Hk)].
    rewrite rangeOrder_perm in Hin. apply elem_of_map_to_list in Hin.
    exists k0. simpl in *. eauto.
  - intros (k0 & [v Hv] & Hk). right. exists (k0, v). split; [|done].
    rewrite rangeOrder_perm. by apply elem_of_map_to_list.
Qed.

Lemma setDefault_lookup key value (m : gmap string string) k :
  setDefault key value m !! k =
  if decide (key = k) then Some (default value (m !! key)) else m !! k.
Proof.
  unfold setDefault. destruct (m !! key) as [v|] eqn:Hm; simpl.
  - case_decide; [by subst|done].
  - by rewrite lookup_insert.
Qed.

End AnalyzeFacts.

(** ** Counting workers and reading traces *)

Section Tally.
Variable f : WorkerPC -> nat.

Lemma tally_nil : tally f [] = 0%nat.
Proof. reflexivity. Qed.

Lemma tally_snoc ws wk : tally f (ws ++ [wk]) = (tally f ws + f (pc wk))%nat.
Proof. unfold tally. rewrite sum_list_with_app. simpl. lia. Qed.

(** Moving one worker changes the tally by the weights of its two positions. *)
Lemma tally_insert ws g wk p :
  ws !! g = Some wk ->
  (tally f (<[g := setPC p wk]> ws) + f (pc wk) = tally f ws + f p)%nat.
Proof.
  unfold tally. revert g. induction ws as [|w ws IH]; intros [|g] Hg; simplify_eq/=.
  - lia.
  - specialize (IH _ Hg). lia.
Qed.

Lemma tally_pos ws :
  (0 < tally f ws)%nat -> exists g wk, ws !! g = Some wk /\ (0 < f (pc wk))%nat.
Proof.
  unfold tally. induction ws as [|w ws IH]; simpl; [lia|]. intros Hpos.
  destruct (f (pc w)) eqn:Hw.
  - destruct IH as (g & wk & Hg & Hf); [lia|]. exists (S g), wk. done.
  - exists 0%nat, w. split; [done|lia].
Qed.

Lemma tally_lookup_le ws g wk : ws !! g = Some wk -> (f (pc wk) <= tally f ws)%nat.
Proof.
  unfold tally. revert g. induction ws as [|w ws IH]; intros [|g] Hg; simplify_eq/=.
  - lia.
  - specialize (IH _ Hg). lia.
Qed.

End Tally.

Lemma tally_le f1 f2 ws :
  (forall p, f1 p <= f2 p)%nat -> (tally f1 ws <= tally f2 ws)%nat.
Proof.
  intros Hle. unfold tally. induction ws as [|w ws IH]; simpl; [lia|].
  specialize (Hle (pc w)). lia.
Qed.

Lemma tally_bound f ws : (forall p, f p <= 1)%nat -> (tally f ws <= length ws)%nat.
Proof.
  intros Hle. unfold tally. induction ws as [|w ws IH]; simpl; [lia|].
  specialize (Hle (pc w)). lia.
Qed.

Lemma pcAt_insert ws g g' wk p :
  ws !! g = Some wk ->
  pcAt (<[g := setPC p wk]> ws) g' = if decide (g = g') then p else pcAt ws g'.
Proof.
  intros Hg. unfold pcAt. case_decide as Heq.
  - subst. rewrite list_lookup_insert_eq; [done|]. by eapply lookup_lt_Some.
  - by rewrite list_lookup_insert_ne.
Qed.

Lemma pcAt_snoc ws g wk :
  pcAt (ws ++ [wk]) g = if decide (g = length ws) then pc wk else pcAt ws g.
Proof.
  unfold pcAt. case_decide as Heq.
  - subst. by rewrite list_lookup_middle.
  - destruct (decide (g < length ws)%nat).
    + by rewrite lookup_app_l.
    + rewrite !lookup_ge_None_2; [done| lia |]. rewrite length_app. simpl. lia.
Qed.

Lemma probesOf_snoc g tr e : probesOf g (tr ++ [e]) = probesOf g tr ++ probesOf g [e].
Proof. apply omap_app. Qed.
Lemma writesTo_snoc i tr e : writesTo i (tr ++ [e]) = writesTo i tr ++ writesTo i [e].
Proof. apply omap_app. Qed.
Lemma incrsOf_snoc g tr e : incrsOf g (tr ++ [e]) = incrsOf g tr ++ incrsOf g [e].
Proof. apply omap_app. Qed.
Lemma counterValues_snoc tr e :
  counterValues (tr ++ [e]) = counterValues tr ++ counterValues [e].
Proof. apply omap_app. Qed.
Lemma ticks_snoc tr e : ticks (tr ++ [e]) = ticks tr ++ ticks [e].
Proof. apply omap_app. Qed.

(** Log lines are no event of a worker or of the counter. *)
Lemma omap_log_nil {A} (f : Event -> option A) (ls : list LogLine) :
  (forall l, f (EvLog l) = None) -> omap f (map EvLog ls) = [].
Proof. intros Hf. induction ls as [|l ls IH]; simpl; [done|]. by rewrite Hf. Qed.

Lemma StronglySorted_snoc {A} (R : A -> A -> Prop) l x :
  StronglySorted R l -> Forall (fun y => R y x) l -> StronglySorted R (l ++ [x]).
Proof.
  induction 1 as [|a l Hs IH Ha]; intros Hall; simpl.
  - repeat constructor.
  - apply Forall_cons in Hall as [Hax Hall]. constructor; [by apply IH|].
    apply Forall_app. split; [done|by constructor].
Qed.

Lemma probesOf_single g e :
  probesOf g [e] =
  match e with EvProbe g' _ w => if decide (g' = g) then [w] else [] | _ => [] end.
Proof. destruct e; simpl; try case_decide; done. Qed.

Lemma writesTo_single i e :
  writesTo i [e] =
  match e with EvWrite i' r => if decide (i' = i) then [r] else [] | _ => [] end.
Proof. destruct e; simpl; try case_decide; done. Qed.

Lemma incrsOf_single g e :
  incrsOf g [e] =
  match e with EvIncr g' v => if decide (g' = g) then [v] else [] | _ => [] end.
Proof. destruct e; simpl; try case_decide; done. Qed.

Lemma counterValues_single e :
  counterValues [e] = match e with EvIncr _ v => [v] | _ => [] end.
Proof. by destruct e. Qed.

Lemma ticks_single e : ticks [e] = match e with EvTick p => [p] | _ => [] end.
Proof. by destruct e. Qed.

Global Arguments probesOf : simpl never.
Global Arguments writesTo : simpl never.
Global Arguments incrsOf : simpl never.
Global Arguments counterValues : simpl never.
Global Arguments ticks : simpl never.

(** ** The invariant of [processFiles] *)

Section SchedulerFacts.
Context `{GoRuntime}.
Variable files : list string.
Variable quiet : bool.
Variable numCPU : Z.
Variable maxConcurrency : Z.

Local Abbreviation Inv := (Inv files quiet numCPU maxConcurrency).
Local Abbreviation slotOK := (slotOK files).
Local Abbreviation step := (step files).
Local Abbreviation start := (start files quiet numCPU).
Local Abbreviation reachable := (reachable files quiet numCPU maxConcurrency).
Local Abbreviation effective := (effectiveConcurrency numCPU maxConcurrency).

Lemma startLog_logs : exists ls, startLog files numCPU maxConcurrency = map EvLog ls.
Proof.
  unfold startLog. destruct (maxConcurrency >? cpuLimit numCPU).
  - by eexists [_; _; _].
  - by eexists [_; _].
Qed.

Lemma finishLog_logs rs : exists ls, finishLog rs = map EvLog ls.
Proof.
  unfold finishLog. destruct (countResults rs) as [sc fc].
  destruct (fc >? 0).
  - by eexists [_; _; _].
  - by eexists [_; _].
Qed.

Lemma Inv_start : 0 <= effective -> Inv (start maxConcurrency).
Proof.
  intros Hcap. destruct startLog_logs as [ls Hls].
  assert (forall A (f : Event -> option A), (forall l, f (EvLog l) = None) ->
            omap f (trace (start maxConcurrency)) = []) as Hnil.
  { intros A f Hf. simpl. rewrite Hls. by apply omap_log_nil. }
  split; simpl.
  - apply length_replicate.
  - intros g wk Hg. done.
  - destruct (Z.ltb_spec effective 0); [lia|done].
  - done.
  - split; [lia|done].
  - done.
  - done.
  - by apply Hnil.
  - exists []. split; [by apply Hnil|]. split; constructor.
  - by destruct quiet.
  - intros g. split; unfold pcAt; simpl.
    + unfold probesOf. by rewrite Hnil.
    + done.
    + unfold writesTo. by rewrite Hnil.
    + intros Hg. unfold slotValue. simpl. by apply lookup_replicate_2.
    + unfold incrsOf. by rewrite Hnil.
Qed.

Lemma Inv_workers_le s : Inv s -> (length (workers s) <= length files)%nat.
Proof.
  intros HI. destruct (workers s) as [|w0 ws] eqn:Hws using rev_ind; [simpl; lia|].
  clear IHws. destruct (inv_workers _ _ _ _ _ HI (length ws) w0) as [_ Hf].
  { rewrite Hws. apply list_lookup_middle. done. }
  apply lookup_lt_Some in Hf. rewrite length_app. simpl. lia.
Qed.

(** A worker that has not called [wg.Done()] keeps the body of [processFiles]
    before or at [wg.Wait()]. *)
Lemma Inv_live_main s g wk :
  Inv s -> workers s !! g = Some wk -> live (pc wk) = 1%nat ->
  0 < wg s /\
  ((exists i, main s = MLoop i) \/ main s = MWait).
Proof.
  intros HI Hg Hlive.
  pose proof (tally_lookup_le live _ _ _ Hg) as Hle.
  pose proof (inv_wg _ _ _ _ _ HI) as Hwg.
  pose proof (inv_main _ _ _ _ _ HI) as Hmain.
  split; [lia|].
  destruct (main s); try (destruct Hmain as (_ & Hz & _); lia); eauto. done.
Qed.

Lemma counterValue_succ k :
  GoInt.int32 (counterValue k + 1) = counterValue (S k).
Proof.
  unfold counterValue, GoInt.int32. rewrite GoIntFacts.wrap_add_l by lia.
  f_equal. lia.
Qed.

(** The invariant after a move of worker [g], given what the move does to the
    shared variables and to the slot of the worker. *)
Lemma Inv_workerMoved s g wk p rs sem' cnt' wg' e :
  Inv s -> workers s !! g = Some wk -> live (pc wk) = 1%nat ->
  sem' = semaphore s + Z.of_nat (holdsPermit p) - Z.of_nat (holdsPermit (pc wk)) ->
  sem' <= capacity s ->
  wg' = wg s + Z.of_nat (live p) - Z.of_nat (live (pc wk)) ->
  (counted p = counted (pc wk) /\ cnt' = processed s /\ counterValues [e] = [] \/
   counted p = S (counted (pc wk)) /\ cnt' = GoInt.int32 (processed s + 1) /\
     counterValues [e] = [cnt']) ->
  ticks [e] = [] ->
  length rs = length (results s) ->
  (forall g', g' <> g ->
     probesOf g' [e] = [] /\ writesTo g' [e] = [] /\ incrsOf g' [e] = [] /\
     rs !! g' = results s !! g') ->
  slotOK (workerMoved s g wk p rs sem' cnt' wg' e) g ->
  Inv (workerMoved s g wk p rs sem' cnt' wg' e).
Proof.
  intros HI Hg Hlive Hsem Hcap Hwg Hcnt Hticks Hlen Hother Hslot.
  pose proof (tally_insert holdsPermit _ _ _ p Hg) as Thold.
  pose proof (tally_insert live _ _ _ p Hg) as Tlive.
  pose proof (tally_insert counted _ _ _ p Hg) as Tcnt.
  destruct (Inv_live_main _ _ _ HI Hg Hlive) as [Hwgpos Hmain].
  destruct HI as [Ires Iwk Imain Isem Icap Iwg Iproc Ictr Itick Iprog Islots].
  split; simpl.
  - congruence.
  - intros g' wk' Hg'. destruct (decide (g' = g)) as [->|Hne].
    + rewrite list_lookup_insert_eq in Hg' by (by eapply lookup_lt_Some).
      injection Hg' as <-. simpl. by apply Iwk.
    + rewrite list_lookup_insert_ne in Hg' by done. by apply Iwk.
  - rewrite length_insert. destruct Hmain as [[i Hm]|Hm]; rewrite Hm in *; done.
  - lia.
  - split; [done|]. apply Icap.
  - lia.
  - destruct Hcnt as [(Hc & -> & _)|(Hc & -> & _)].
    + rewrite Iproc. f_equal. lia.
    + rewrite Iproc, counterValue_succ. f_equal. lia.
  - rewrite counterValues_snoc, Ictr.
    destruct Hcnt as [(Hc & _ & ->)|(Hc & -> & ->)].
    + rewrite app_nil_r. do 2 f_equal. lia.
    + replace (tally counted (<[g:=setPC p wk]> (workers s)))
        with (S (tally counted (workers s))) by lia.
      rewrite seq_S, map_app. simpl. f_equal.
      rewrite Iproc, counterValue_succ. done.
  - destruct Itick as (ks & Hks & Hsorted & Hbound). exists ks.
    rewrite ticks_snoc, Hticks, app_nil_r. split; [done|]. split; [done|].
    eapply Forall_impl; [exact Hbound|]. simpl. intros k Hk.
    destruct Hcnt as [(Hc & _)|(Hc & _)]; lia.
  - done.
  - intros g'. destruct (decide (g' = g)) as [->|Hne]; [done|].
    destruct (Hother g' Hne) as (Hp & Hw & Hi & Hr).
    destruct (Islots g') as [S1 S2 S3 S4 S5].
    split; simpl; rewrite ?probesOf_snoc, ?writesTo_snoc, ?incrsOf_snoc, ?Hp, ?Hw, ?Hi,
      ?app_nil_r, (pcAt_insert _ _ g' _ _ Hg), decide_False by done; try done.
    rewrite Hr. done.
Qed.

Lemma pcAt_lookup s g wk : workers s !! g = Some wk -> pcAt (workers s) g = pc wk.
Proof. intros Hg. unfold pcAt. by rewrite Hg. Qed.

(** Rewrites the slot of the worker that moved into the facts about its
    events before the move. *)
Ltac slot_moved Hg :=
  split; simpl;
  rewrite ?probesOf_snoc, ?writesTo_snoc, ?incrsOf_snoc,
    ?probesOf_single, ?writesTo_single, ?incrsOf_single,
    (pcAt_insert _ _ _ _ _ Hg); simpl;
  rewrite ?decide_True by done; rewrite ?app_nil_r; simpl.

Lemma Inv_workerStep s g s' : Inv s -> workerStep g s = Some s' -> Inv s'.
Proof.
  intros HI. unfold workerStep.
  destruct (workers s !! g) as [wk|] eqn:Hg; [|done].
  pose proof (pcAt_lookup _ _ _ Hg) as Hat.
  pose proof (Inv_workers_le _ HI) as Hle.
  pose proof (lookup_lt_Some _ _ _ Hg) as Hglt.
  destruct (inv_workers _ _ _ _ _ HI _ _ Hg) as [Hidx Hfile].
  destruct (inv_slots _ _ _ _ _ HI g) as [S1 S2 S3 S4 S5].
  pose proof (inv_semaphore _ _ _ _ _ HI) as Isem.
  pose proof (inv_capacity _ _ _ _ _ HI) as [Icap _].
  pose proof (inv_results _ _ _ _ _ HI) as Ires.
  pose proof (tally_lookup_le holdsPermit _ _ _ Hg) as Hhold.
  destruct (pc wk) eqn:Hpc; rewrite Hat in *; simpl in *.
  - (* the send on the semaphore *)
    destruct (Z.ltb_spec (semaphore s) (capacity s)); [|done]. intros [= <-].
    apply Inv_workerMoved; rewrite ?Hpc; simpl; try done; try lia.
    + left. done.
    + slot_moved Hg; done.
  - done.
  - (* the write to the slot *)
    rewrite Hidx. rewrite bool_decide_true by lia. intros [= <-].
    apply Inv_workerMoved; rewrite ?Hpc; simpl; try done; try lia.
    + left. done.
    + by rewrite length_insert.
    + intros g' Hne. rewrite writesTo_single, decide_False by done.
      by rewrite list_lookup_insert_ne.
    + slot_moved Hg.
      * done.
      * done.
      * rewrite S3. simpl. symmetry. by apply S2.
      * intros _. rewrite list_lookup_insert_eq by lia.
        rewrite (S2 r eq_refl). done.
      * done.
  - (* the increment of the counter *)
    intros [= <-].
    apply Inv_workerMoved; rewrite ?Hpc; simpl; try done; try lia.
    + right. done.
    + intros g' Hne. rewrite incrsOf_single, decide_False by done. done.
    + slot_moved Hg; try done.
      rewrite length_app, S5. done.
  - (* the receive from the semaphore *)
    destruct (Z.ltb_spec 0 (semaphore s)); [|done]. intros [= <-].
    apply Inv_workerMoved; rewrite ?Hpc; simpl; try done; try lia.
    + left. done.
    + slot_moved Hg; done.
  - (* [wg.Done()] *)
    destruct (Inv_live_main _ _ _ HI Hg) as [Hwg _]; [by rewrite Hpc|].
    destruct (Z.ltb_spec (wg s - 1) 0); [lia|]. intros [= <-].
    apply Inv_workerMoved; rewrite ?Hpc; simpl; try done; try lia.
    + left. done.
    + slot_moved Hg; done.
  - done.
Qed.

Lemma Inv_probeStep s g w s' : Inv s -> probeStep g w s = Some s' -> Inv s'.
Proof.
  intros HI. unfold probeStep.
  destruct (workers s !! g) as [wk|] eqn:Hg; [|done].
  pose proof (pcAt_lookup _ _ _ Hg) as Hat.
  destruct (inv_workers _ _ _ _ _ HI _ _ Hg) as [Hidx Hfile].
  destruct (inv_slots _ _ _ _ _ HI g) as [S1 S2 S3 S4 S5].
  pose proof (inv_capacity _ _ _ _ _ HI) as [Icap _].
  destruct (pc wk) eqn:Hpc; try done. rewrite Hat in *; simpl in *.
  intros [= <-].
  apply Inv_workerMoved; rewrite ?Hpc; simpl; try done; try lia.
  - left. done.
  - intros g' Hne. rewrite probesOf_single, decide_False by done. done.
  - apply nil_length_inv in S1.
    slot_moved Hg; rewrite ?S1; simpl; try done.
    intros r [= <-]. unfold outcomes. rewrite Hfile. done.
Qed.

Lemma pcAt_spawn ws i file g : pcAt (ws ++ [mkWorker i file WBlocked]) g = pcAt ws g.
Proof.
  rewrite pcAt_snoc. case_decide as Hg; [|done]. subst. unfold pcAt.
  by rewrite lookup_ge_None_2.
Qed.

(** A slot does not change when neither its worker, nor its value, nor the
    events of its worker do. *)
Lemma slotOK_same s s' g :
  slotOK s g ->
  pcAt (workers s') g = pcAt (workers s) g ->
  results s' !! g = results s !! g ->
  probesOf g (trace s') = probesOf g (trace s) ->
  writesTo g (trace s') = writesTo g (trace s) ->
  incrsOf g (trace s') = incrsOf g (trace s) ->
  slotOK s' g.
Proof.
  intros [S1 S2 S3 S4 S5] Hpc Hres Hp Hw Hi.
  split; rewrite ?Hpc, ?Hres, ?Hp, ?Hw, ?Hi; done.
Qed.

Lemma Inv_mainStep s s' : Inv s -> mainStep files s = Some s' -> Inv s'.
Proof.
  intros HI. pose proof (Inv_workers_le _ HI) as Hle.
  destruct HI as [Ires Iwk Imain Isem Icap Iwg Iproc Ictr Itick Iprog Islots].
  unfold mainStep. destruct (main s) as [i| | |out|] eqn:Hmain; try done.
  - destruct Imain as [Hlen Hpd]. destruct (files !! i) as [file|] eqn:Hfile.
    + (* [wg.Add(1)] and the [go] statement *)
      intros [= <-]. split; simpl;
        rewrite ?tally_snoc, ?counterValues_snoc, ?counterValues_single,
          ?ticks_snoc, ?ticks_single, ?app_nil_r; simpl; rewrite ?Nat.add_0_r;
        try done.
      * intros g wk Hg. destruct (decide (g = length (workers s))) as [->|Hne].
        -- rewrite list_lookup_middle in Hg by done. injection Hg as <-.
           simpl. rewrite Hlen. done.
        -- apply Iwk. rewrite lookup_app_l in Hg; [done|].
           apply lookup_lt_Some in Hg. rewrite length_app in Hg. simpl in Hg. lia.
      * rewrite length_app. simpl. split; [lia|done].
      * lia.
      * intros g. apply (slotOK_same s); simpl;
          rewrite ?probesOf_snoc, ?writesTo_snoc, ?incrsOf_snoc,
            ?probesOf_single, ?writesTo_single, ?incrsOf_single, ?app_nil_r;
          try done.
        apply pcAt_spawn.
    + (* the loop is over *)
      intros [= <-]. split; simpl; try done.
      * apply lookup_ge_None in Hfile. split; [lia|done].
      * intros g. by apply (slotOK_same s).
  - (* [wg.Wait()] and [close(progressDone)] *)
    destruct Imain as [Hlen Hpd]. destruct (Z.eqb_spec (wg s) 0) as [Hwg|]; [|done].
    intros [= <-]. split; simpl; try done.
    + destruct (progress s); try done. rewrite Hpd in Iprog. by destruct Iprog as (_ & _ & ?).
    + intros g. by apply (slotOK_same s).
  - (* [progressWg.Wait()], the counts, the return *)
    destruct Imain as (Hlen & Hwg & Hpd).
    destruct (Z.eqb_spec (progressWg s) 0) as [Hpw|]; [|done].
    intros [= <-]. destruct (finishLog_logs (results s)) as [ls Hls].
    assert (forall A (f : Event -> option A), (forall l, f (EvLog l) = None) ->
              omap f (trace s ++ finishLog (results s)) = omap f (trace s)) as Hsame.
    { intros A f Hf. rewrite omap_app, Hls, omap_log_nil, app_nil_r; done. }
    split; simpl; try done.
    + repeat split; try done. by exists (trace s).
    + unfold counterValues. rewrite Hsame; done.
    + unfold ticks. rewrite Hsame; done.
    + intros g. apply (slotOK_same s); simpl; try done;
        unfold probesOf, writesTo, incrsOf; by rewrite Hsame.
Qed.

Lemma Inv_tickStep s s' : Inv s -> halted s = false -> tickStep s = Some s' -> Inv s'.
Proof.
  intros HI Hrun.
  destruct HI as [Ires Iwk Imain Isem Icap Iwg Iproc Ictr Itick Iprog Islots].
  unfold tickStep. destruct (progress s) eqn:Hprog; try done. intros [= <-].
  split; simpl; rewrite ?counterValues_snoc, ?counterValues_single, ?app_nil_r;
    try done.
  - unfold halted in Hrun. destruct (main s); done.
  - destruct Itick as (ks & Hks & Hsorted & Hbound).
    exists (ks ++ [tally counted (workers s)]).
    rewrite ticks_snoc, ticks_single, Hks, map_app, Iproc. split; [done|]. split.
    + by apply StronglySorted_snoc.
    + apply Forall_app. split; [done|]. by constructor.
  - intros g. apply (slotOK_same s); simpl;
      rewrite ?probesOf_snoc, ?writesTo_snoc, ?incrsOf_snoc,
        ?probesOf_single, ?writesTo_single, ?incrsOf_single, ?app_nil_r; done.
Qed.

Lemma Inv_progressDoneStep s s' :
  Inv s -> halted s = false -> progressDoneStep files s = Some s' -> Inv s'.
Proof.
  intros HI Hrun.
  destruct HI as [Ires Iwk Imain Isem Icap Iwg Iproc Ictr Itick Iprog Islots].
  unfold progressDoneStep. destruct (progress s) eqn:Hprog; try done.
  destruct (progressDone s) eqn:Hpd; [|done]. intros [= <-].
  destruct Iprog as [Hq Hpw].
  split; simpl; rewrite ?counterValues_snoc, ?counterValues_single,
    ?ticks_snoc, ?ticks_single, ?app_nil_r, ?Hpd; try done.
  - unfold halted in Hrun. destruct (main s); done.
  - repeat split; [done|lia].
  - intros g. apply (slotOK_same s); simpl;
      rewrite ?probesOf_snoc, ?writesTo_snoc, ?incrsOf_snoc,
        ?probesOf_single, ?writesTo_single, ?incrsOf_single, ?app_nil_r; done.
Qed.

(** Every step keeps the invariant. *)
Lemma Inv_step s l s' : Inv s -> step l s = Some s' -> Inv s'.
Proof.
  intros HI. unfold step. destruct (halted s) eqn:Hrun; [done|].
  destruct l.
  - by apply Inv_mainStep.
  - by apply Inv_workerStep.
  - by apply Inv_probeStep.
  - by apply Inv_tickStep.
  - by apply Inv_progressDoneStep.
Qed.

(** When the channel cannot be made the program panics at once, and nothing
    else happens. *)
Lemma reachable_panicked s :
  effective < 0 -> reachable s -> s = start maxConcurrency /\ main s = MPanicked.
Proof.
  intros Hneg. assert (main (start maxConcurrency) = MPanicked) as Hstart.
  { simpl. destruct (Z.ltb_spec effective 0); [done|lia]. }
  induction 1 as [|s l s' _ [-> Hp] Hstep]; [done|].
  unfold step, halted in Hstep. by rewrite Hstart in Hstep.
Qed.

Lemma reachable_Inv s : 0 <= effective -> reachable s -> Inv s.
Proof.
  intros Hcap. induction 1 as [|s l s' _ IH Hstep].
  - by apply Inv_start.
  - by eapply Inv_step.
Qed.

(** A run that returned had a channel of capacity at least zero. *)
Lemma reachable_returned_Inv s out :
  reachable s -> main s = MReturned out -> Inv s.
Proof.
  intros Hreach Hmain. destruct (Z.lt_ge_cases effective 0) as [Hneg|Hpos].
  - destruct (reachable_panicked _ Hneg Hreach) as [_ Hp]. congruence.
  - by apply reachable_Inv.
Qed.

(** ** Runs end: no deadlock, and a bound on the steps *)

Local Abbreviation run := (run files).

Lemma run_app sched1 sched2 s :
  run (sched1 ++ sched2) s =
  match run sched1 s with Some s' => run sched2 s' | None => None end.
Proof.
  revert s. induction sched1 as [|l sched1 IH]; intros s; simpl; [done|].
  destruct (step l s); [apply IH|done].
Qed.

Lemma run_reachable sched s s' : reachable s -> run sched s = Some s' -> reachable s'.
Proof.
  revert s. induction sched as [|l sched IH]; intros s Hs; simpl.
  - by intros [= <-].
  - destruct (step l s) as [s1|] eqn:Hstep; [|done].
    apply IH. by eapply reachable_step.
Qed.

Lemma reachable_run s :
  reachable s -> exists sched, run sched (start maxConcurrency) = Some s.
Proof.
  induction 1 as [|s l s' _ [sched IH] Hstep].
  - by exists [].
  - exists (sched ++ [l]). rewrite run_app, IH. simpl. by rewrite Hstep.
Qed.

(** A step other than a tick uses up one unit of the measure. *)
Lemma step_measure s l s' :
  Inv s -> step l s = Some s' -> isTick l = false -> measure files s = S (measure files s').
Proof.
  intros HI Hstep Hl. pose proof (Inv_step _ _ _ HI Hstep) as HI'.
  pose proof (inv_main _ _ _ _ _ HI') as Hmain'.
  pose proof (inv_main _ _ _ _ _ HI) as Hmain.
  pose proof (inv_progress _ _ _ _ _ HI) as Hprog.
  unfold step in Hstep. destruct (halted s); [done|].
  destruct l as [|g|g w| |]; try done.
  - unfold mainStep in Hstep. destruct (main s) as [i| | |out|] eqn:Hm; try done.
    + destruct (files !! i) as [file|] eqn:Hfile; injection Hstep as <-;
        unfold measure; simpl; rewrite Hm; [|lia].
      rewrite tally_snoc, length_app. simpl.
      apply lookup_lt_Some in Hfile. lia.
    + destruct (wg s =? 0); [|done]. injection Hstep as <-.
      unfold measure. simpl. rewrite Hm. lia.
    + destruct (progressWg s =? 0); [|done]. injection Hstep as <-.
      unfold measure. simpl. rewrite Hm. lia.
  - unfold workerStep in Hstep. destruct (workers s !! g) as [wk|] eqn:Hg; [|done].
    pose proof (fun p => tally_insert stepsLeft _ _ _ p Hg) as Hrank.
    destruct (pc wk) eqn:Hpc; try done;
      repeat match type of Hstep with
             | (if ?c then _ else _) = _ => destruct c
             end; try done; injection Hstep as <-; simpl in Hmain'; try done;
      unfold measure; simpl; rewrite length_insert;
      match goal with |- context [setPC ?p wk] => specialize (Hrank p) end;
      simpl in Hrank; lia.
  - unfold probeStep in Hstep. destruct (workers s !! g) as [wk|] eqn:Hg; [|done].
    destruct (pc wk) eqn:Hpc; try done. injection Hstep as <-.
    pose proof (tally_insert stepsLeft _ _ _
                  (WReturned (analyzeFileWithFFProbe w (filePath wk))) Hg) as Hrank.
    rewrite Hpc in Hrank. simpl in Hrank.
    unfold measure. simpl. rewrite length_insert. lia.
  - unfold progressDoneStep in Hstep. destruct (progress s) eqn:Hp; try done.
    destruct (progressDone s); [|done]. injection Hstep as <-.
    unfold measure. simpl. rewrite Hp. lia.
Qed.


(** A worker that is neither blocked on the semaphore nor done can move;
    if the step is the return of its call, the call may have observed any
    world. *)
Lemma worker_enabled worldOf s g wk :
  Inv s -> halted s = false -> workers s !! g = Some wk ->
  pc wk <> WBlocked -> pc wk <> WDone ->
  exists l s', isTick l = false /\ observes worldOf l /\ step l s = Some s'.
Proof.
  intros HI Hrun Hg Hnb Hnd.
  pose proof (tally_lookup_le holdsPermit _ _ _ Hg) as Hhold.
  pose proof (inv_semaphore _ _ _ _ _ HI) as Hsem.
  unfold step. rewrite Hrun.
  destruct (pc wk) eqn:Hpc; try done.
  - exists (LProbe g (worldOf g)). unfold probeStep. rewrite Hg, Hpc. simpl. eauto.
  - exists (LWorker g). unfold workerStep. rewrite Hg, Hpc.
    case_bool_decide; simpl; eauto.
  - exists (LWorker g). unfold workerStep. rewrite Hg, Hpc. simpl. eauto.
  - exists (LWorker g). unfold workerStep. rewrite Hg, Hpc. simpl in Hhold.
    destruct (Z.ltb_spec 0 (semaphore s)); [simpl; eauto|lia].
  - exists (LWorker g). unfold workerStep. rewrite Hg, Hpc.
    destruct (wg s - 1 <? 0); simpl; eauto.
Qed.

(** With a capacity of at least one, a run that has not returned can take a
    step that is no tick, whatever the calls observe. *)
Lemma step_progress worldOf s :
  Inv s -> 1 <= capacity s -> halted s = false ->
  exists l s', isTick l = false /\ observes worldOf l /\ step l s = Some s'.
Proof.
  intros HI Hcap Hrun.
  pose proof (inv_main _ _ _ _ _ HI) as Hmain.
  pose proof (inv_progress _ _ _ _ _ HI) as Hprog.
  pose proof (inv_wg _ _ _ _ _ HI) as Hwg.
  pose proof (inv_semaphore _ _ _ _ _ HI) as Hsem.
  destruct (main s) as [i| | |out|] eqn:Hm; try done.
  - exists LMain. unfold step, mainStep. rewrite Hrun, Hm.
    destruct (files !! i); simpl; eauto.
  - destruct (Z.eqb_spec (wg s) 0) as [Hz|Hnz].
    { exists LMain. unfold step, mainStep. rewrite Hrun, Hm.
      destruct (Z.eqb_spec (wg s) 0); [simpl; eauto|done]. }
    destruct (tally_pos live (workers s)) as (g & wk & Hg & Hlive); [lia|].
    assert (pc wk = WBlocked \/ pc wk <> WBlocked /\ pc wk <> WDone) as [Hb|[Hnb Hnd]].
    { destruct (pc wk); simpl in Hlive; try lia; auto. }
    2:{ by apply (worker_enabled worldOf s g wk). }
    destruct (Z.ltb_spec (semaphore s) (capacity s)) as [Hfree|Hfull].
    + exists (LWorker g). unfold step, workerStep. rewrite Hrun, Hg, Hb.
      destruct (Z.ltb_spec (semaphore s) (capacity s)); [simpl; eauto|lia].
    + destruct (tally_pos holdsPermit (workers s)) as (g2 & wk2 & Hg2 & Hh); [lia|].
      apply (worker_enabled worldOf s g2 wk2); try done;
        intros Hd; rewrite Hd in Hh; simpl in Hh; lia.
  - destruct Hmain as (_ & _ & Hpd).
    destruct (Z.eqb_spec (progressWg s) 0) as [Hz|Hnz].
    + exists LMain. unfold step, mainStep. rewrite Hrun, Hm.
      destruct (Z.eqb_spec (progressWg s) 0); [simpl; eauto|done].
    + exists LProgressDone. unfold step, progressDoneStep. rewrite Hrun.
      destruct (progress s); try (destruct Hprog as (? & ? & ?); lia);
        try (destruct Hprog; lia).
      rewrite Hpd. simpl. eauto.
  - unfold halted in Hrun. by rewrite Hm in Hrun.
Qed.

(** With a capacity of at least one, every state of a run has a schedule
    that makes [processFiles] return, whatever the calls still to return
    observe. *)
Lemma run_returns worldOf s :
  Inv s -> 1 <= capacity s ->
  exists sched s' out,
    run sched s = Some s' /\ main s' = MReturned out /\
    Forall (observes worldOf) sched.
Proof.
  remember (measure files s) as n eqn:Hn. revert s Hn.
  induction n as [n IH] using lt_wf_ind. intros s Hn HI Hcap.
  destruct (halted s) eqn:Hrun.
  - exists [], s. unfold halted in Hrun.
    pose proof (inv_main _ _ _ _ _ HI) as Hmain.
    destruct (main s) as [| | |out|]; try done. exists out. by repeat split.
  - destruct (step_progress worldOf s HI Hcap Hrun) as (l & s1 & Hl & Hobs & Hstep).
    pose proof (step_measure _ _ _ HI Hstep Hl) as Hm.
    pose proof (Inv_step _ _ _ HI Hstep) as HI1.
    assert (capacity s1 = capacity s) as Hc.
    { destruct (inv_capacity _ _ _ _ _ HI) as [_ ->].
      by destruct (inv_capacity _ _ _ _ _ HI1) as [_ ->]. }
    destruct (IH (measure files s1) ltac:(lia) s1 eq_refl HI1 ltac:(lia))
      as (sched & s' & out & Hrun' & Hret & Hall).
    exists (l :: sched), s', out. simpl. rewrite Hstep. repeat split; try done.
    by constructor.
Qed.

(** The worlds in the trace are those of the schedule. *)
Lemma run_observes worldOf sched s s' g w :
  run sched s = Some s' -> Forall (observes worldOf) sched ->
  In w (probesOf g (trace s')) -> In w (probesOf g (trace s)) \/ w = worldOf g.
Proof.
  revert s. induction sched as [|l sched IH]; intros s; simpl.
  - intros [= <-] _ Hin. by left.
  - destruct (step l s) as [s1|] eqn:Hstep; [|done]. intros Hrun Hall Hin.
    apply Forall_cons in Hall as [Hobs Hall].
    destruct (IH _ Hrun Hall Hin) as [Hin1|Heq]; [|by right].
    clear IH Hrun Hin Hall.
    unfold step in Hstep. destruct (halted s); [done|]. destruct l as [|g'|g' w'| |].
    + unfold mainStep in Hstep. destruct (main s); try done.
      * destruct (files !! i); injection Hstep as <-; simpl in Hin1;
          rewrite ?probesOf_snoc, ?probesOf_single, ?app_nil_r in Hin1; by left.
      * destruct (wg s =? 0); [|done]. injection Hstep as <-. by left.
      * destruct (progressWg s =? 0); [|done]. injection Hstep as <-.
        simpl in Hin1. destruct (finishLog_logs (results s)) as [ls Hls].
        unfold probesOf in Hin1. rewrite omap_app, Hls, omap_log_nil, app_nil_r in Hin1;
          [by left|done].
    + unfold workerStep in Hstep. destruct (workers s !! g') as [wk|]; [|done].
      destruct (pc wk); try done;
        repeat match type of Hstep with
               | (if ?c then _ else _) = _ => destruct c
               end; try done; injection Hstep as <-; simpl in Hin1;
        rewrite ?probesOf_snoc, ?probesOf_single, ?app_nil_r in Hin1; by left.
    + unfold probeStep in Hstep. destruct (workers s !! g') as [wk|]; [|done].
      destruct (pc wk); try done. injection Hstep as <-. simpl in Hin1, Hobs.
      rewrite probesOf_snoc, probesOf_single in Hin1.
      apply in_app_or in Hin1 as [Hin1|Hin1]; [by left|].
      case_decide; [|done]. destruct Hin1 as [<-|[]]. subst. by right.
    + unfold tickStep in Hstep. destruct (progress s); try done.
      injection Hstep as <-. simpl in Hin1.
      rewrite probesOf_snoc, probesOf_single, app_nil_r in Hin1. by left.
    + unfold progressDoneStep in Hstep. destruct (progress s); try done.
      destruct (progressDone s); [|done]. injection Hstep as <-. simpl in Hin1.
      rewrite probesOf_snoc, probesOf_single, app_nil_r in Hin1. by left.
Qed.


(** ** What holds when [processFiles] has returned *)

Lemma reachable_capacity s : reachable s -> capacity s = effective.
Proof.
  intros Hreach. destruct (Z.lt_ge_cases effective 0) as [Hneg|Hpos].
  - by destruct (reachable_panicked _ Hneg Hreach) as [-> _].
  - by destruct (inv_capacity _ _ _ _ _ (reachable_Inv _ Hpos Hreach)) as [_ ?].
Qed.

Lemma reachable_results_length s : reachable s -> length (results s) = length files.
Proof.
  intros Hreach. destruct (Z.lt_ge_cases effective 0) as [Hneg|Hpos].
  - destruct (reachable_panicked _ Hneg Hreach) as [-> _]. apply length_replicate.
  - apply (inv_results _ _ _ _ _ (reachable_Inv _ Hpos Hreach)).
Qed.

(** A step adds events at the end of the trace; none of them is the warning
    about the concurrency. *)
Lemma step_trace s l s' :
  step l s = Some s' ->
  exists tl, trace s' = trace s ++ tl /\
             forall requested limit, ~ In (EvLog (LogClampWarning requested limit)) tl.
Proof.
  assert (forall tr : list Event, exists tl, tr = tr ++ tl /\
            forall requested limit, ~ In (EvLog (LogClampWarning requested limit)) tl)
    as Hnone.
  { intros tr. exists []. rewrite app_nil_r. split; [done|]. intros ?? []. }
  assert (forall (tr : list Event) e, (forall l0, e <> EvLog l0) ->
            exists tl, tr ++ [e] = tr ++ tl /\
            forall requested limit, ~ In (EvLog (LogClampWarning requested limit)) tl)
    as Hone.
  { intros tr e He. exists [e]. split; [done|]. intros ?? [->|[]]. by eapply He. }
  unfold step. destruct (halted s); [done|]. destruct l as [|g|g w| |].
  - unfold mainStep. destruct (main s); try done.
    + destruct (files !! i); intros [= <-]; simpl; [by apply Hone|apply Hnone].
    + destruct (wg s =? 0); [|done]. intros [= <-]. apply Hnone.
    + destruct (progressWg s =? 0); [|done]. intros [= <-]. simpl.
      eexists. split; [done|]. intros requested limit. unfold finishLog.
      destruct (countResults (results s)) as [sc fc].
      destruct (fc >? 0); simpl; intuition congruence.
  - unfold workerStep. destruct (workers s !! g) as [wk|]; [|done].
    destruct (pc wk); try done; intros Hstep;
      repeat match type of Hstep with
             | (if ?c then _ else _) = _ => destruct c
             end; try done; injection Hstep as <-; simpl;
      solve [by apply Hone | apply Hnone].
  - unfold probeStep. destruct (workers s !! g) as [wk|]; [|done].
    destruct (pc wk); try done. intros [= <-]. simpl. by apply Hone.
  - unfold tickStep. destruct (progress s); try done.
    intros [= <-]. simpl. by apply Hone.
  - unfold progressDoneStep. destruct (progress s); try done.
    destruct (progressDone s); [|done]. intros [= <-]. simpl. by apply Hone.
Qed.

(** The trace of a run begins with the log lines of the setup, and what
    follows holds no warning about the concurrency. *)
Lemma reachable_trace_start s :
  reachable s ->
  exists tr, trace s = startLog files numCPU maxConcurrency ++ tr /\
             forall requested limit, ~ In (EvLog (LogClampWarning requested limit)) tr.
Proof.
  induction 1 as [|s l s' _ (tr & IH & Hno) Hstep].
  - exists []. rewrite app_nil_r. split; [done|]. intros ?? [].
  - destruct (step_trace _ _ _ Hstep) as (tl & Htl & Hno').
    exists (tr ++ tl). rewrite Htl, IH, app_assoc. split; [done|].
    intros requested limit Hin. apply in_app_or in Hin as [Hin|Hin].
    + by eapply Hno.
    + by eapply Hno'.
Qed.

Lemma returned_all_done s out g wk :
  Inv s -> main s = MReturned out -> workers s !! g = Some wk -> pc wk = WDone.
Proof.
  intros HI Hmain Hg.
  pose proof (inv_main _ _ _ _ _ HI) as Im. rewrite Hmain in Im.
  destruct Im as (_ & Hwg & _).
  pose proof (inv_wg _ _ _ _ _ HI) as Iwg.
  pose proof (tally_lookup_le live _ _ _ Hg) as Hle.
  destruct (pc wk); simpl in Hle; try lia. done.
Qed.

(** The slot of an input file when [processFiles] has returned: its worker
    made one call, wrote the result of that call once, and incremented the
    counter once. *)
Lemma returned_slot s out g path :
  reachable s -> main s = MReturned out -> files !! g = Some path ->
  exists w,
    probesOf g (trace s) = [w] /\
    writesTo g (trace s) = [analyzeFileWithFFProbe w path] /\
    out !! g = Some (analyzeFileWithFFProbe w path) /\
    length (incrsOf g (trace s)) = 1%nat.
Proof.
  intros Hreach Hmain Hfile.
  pose proof (reachable_returned_Inv _ _ Hreach Hmain) as HI.
  pose proof (inv_main _ _ _ _ _ HI) as Im. rewrite Hmain in Im.
  destruct Im as (Hlen & _ & _ & _ & -> & _).
  pose proof (lookup_lt_Some _ _ _ Hfile) as Hg.
  destruct (lookup_lt_is_Some_2 (workers s) g) as [wk Hwk]; [lia|].
  pose proof (returned_all_done _ _ _ _ HI Hmain Hwk) as Hpc.
  destruct (inv_slots _ _ _ _ _ HI g) as [S1 S2 S3 S4 S5].
  rewrite (pcAt_lookup _ _ _ Hwk), Hpc in *. simpl in *.
  destruct (probesOf g (trace s)) as [|w [|w' ws]] eqn:Hp; try done.
  exists w. unfold outcomes in *. rewrite Hfile in *. simpl in *.
  rewrite S4 by done. done.
Qed.

(** With a capacity of at least one there is, whatever the calls observe, a
    run in which [processFiles] returns. *)
Lemma start_returns worldOf :
  1 <= effective ->
  exists sched s out,
    run sched (start maxConcurrency) = Some s /\ main s = MReturned out /\
    Forall (observes worldOf) sched.
Proof.
  intros Hcap. apply run_returns.
  - apply Inv_start. lia.
  - simpl. lia.
Qed.

(** A run that returned after calls that observed [worldOf] holds, in the
    slot of each file, the result of the call for this file in its world. *)
Lemma returned_observed worldOf sched s out i path :
  run sched (start maxConcurrency) = Some s -> main s = MReturned out ->
  Forall (observes worldOf) sched -> files !! i = Some path ->
  out !! i = Some (analyzeFileWithFFProbe (worldOf i) path).
Proof.
  intros Hrun Hmain Hobs Hfile.
  pose proof (run_reachable _ _ _ (reachable_start _ _ _ _) Hrun) as Hreach.
  destruct (returned_slot _ _ _ _ Hreach Hmain Hfile) as (w & Hp & _ & Ho & _).
  destruct (run_observes worldOf _ _ _ i w Hrun Hobs) as [Hin| ->]; [| |done].
  - rewrite Hp. by left.
  - simpl in Hin. destruct startLog_logs as [ls Hls].
    unfold probesOf in Hin. rewrite Hls, omap_log_nil in Hin; done.
Qed.

(** The slice returned holds results of calls. *)
Lemma returned_validOutcome s out :
  reachable s -> main s = MReturned out -> Forall validOutcome out.
Proof.
  intros Hreach Hmain. apply Forall_lookup. intros i r Hi.
  pose proof (reachable_returned_Inv _ _ Hreach Hmain) as HI.
  pose proof (inv_main _ _ _ _ _ HI) as Im. rewrite Hmain in Im.
  destruct Im as (_ & _ & _ & _ & Hout & _).
  pose proof (inv_results _ _ _ _ _ HI) as Hlen.
  assert (is_Some (files !! i)) as [path Hpath].
  { apply lookup_lt_is_Some. apply lookup_lt_Some in Hi. subst out. lia. }
  destruct (returned_slot _ _ _ _ Hreach Hmain Hpath) as (w & _ & _ & Ho & _).
  rewrite Ho in Hi. injection Hi as <-. apply analyze_validOutcome.
Qed.

(** Nothing is written outside the slots of the input files. *)
Lemma reachable_no_write_outside s g :
  reachable s -> (length files <= g)%nat -> writesTo g (trace s) = [].
Proof.
  intros Hreach Hg. destruct (Z.lt_ge_cases effective 0) as [Hneg|Hpos].
  - destruct (reachable_panicked _ Hneg Hreach) as [-> _]. simpl.
    destruct startLog_logs as [ls ->]. by apply omap_log_nil.
  - pose proof (reachable_Inv _ Hpos Hreach) as HI.
    pose proof (Inv_workers_le _ HI) as Hle.
    destruct (inv_slots _ _ _ _ _ HI g) as [_ _ S3 _ _].
    unfold pcAt in S3. rewrite lookup_ge_None_2 in S3 by lia. done.
Qed.

(** A step leaves the counter alone or adds one to it, modulo [2^32]; it adds
    one when a worker passes its [atomic.AddInt32]. *)
Lemma step_processed s l s' :
  step l s = Some s' ->
  processed s' = processed s /\
    tally counted (workers s') = tally counted (workers s) \/
  processed s' = GoInt.int32 (processed s + 1) /\
    tally counted (workers s') = S (tally counted (workers s)).
Proof.
  unfold step. destruct (halted s); [done|]. destruct l as [|g|g w| |].
  - unfold mainStep. destruct (main s); try done.
    + destruct (files !! i); intros [= <-]; simpl; rewrite ?tally_snoc; simpl; auto.
    + destruct (wg s =? 0); [|done]. intros [= <-]. auto.
    + destruct (progressWg s =? 0); [|done]. intros [= <-]. auto.
  - unfold workerStep. destruct (workers s !! g) as [wk|] eqn:Hg; [|done].
    pose proof (fun p => tally_insert counted _ _ _ p Hg) as Hc.
    destruct (pc wk) eqn:Hpc; try done; intros Hstep;
      repeat match type of Hstep with
             | (if ?c then _ else _) = _ => destruct c
             end; try done; injection Hstep as <-; simpl; auto;
      match goal with |- context [setPC ?p wk] => specialize (Hc p) end;
      simpl in Hc; [left|left|right|left|left]; split; try done; lia.
  - unfold probeStep. destruct (workers s !! g) as [wk|] eqn:Hg; [|done].
    destruct (pc wk) eqn:Hpc; try done. intros [= <-]. simpl. left. split; [done|].
    pose proof (tally_insert counted _ _ _
                  (WReturned (analyzeFileWithFFProbe w (filePath wk))) Hg) as Hc.
    rewrite Hpc in Hc. simpl in Hc. lia.
  - unfold tickStep. destruct (progress s); try done. intros [= <-]. auto.
  - unfold progressDoneStep. destruct (progress s); try done.
    destruct (progressDone s); [|done]. intros [= <-]. auto.
Qed.

Lemma StronglySorted_of_nat ks :
  StronglySorted le ks -> StronglySorted Z.le (map Z.of_nat ks).
Proof.
  induction 1 as [|k ks _ IH Hk]; simpl; constructor; [done|].
  rewrite List.Forall_forall in *. intros z Hz. apply in_map_iff in Hz as (k' & <- & Hin).
  specialize (Hk _ Hin). lia.
Qed.

(** The counter does not wrap while the files are no more than [int32] holds. *)
Lemma counterValue_small k :
  Z.of_nat (length files) <= GoInt.maxInt32 -> (k <= length files)%nat ->
  counterValue k = Z.of_nat k.
Proof.
  intros Hn Hk. unfold counterValue. apply GoIntFacts.int32_id.
  unfold GoInt.inInt32, GoInt.maxInt32 in *. lia.
Qed.

Lemma Inv_counted_le s : Inv s -> (tally counted (workers s) <= length files)%nat.
Proof.
  intros HI. pose proof (Inv_workers_le _ HI).
  pose proof (tally_bound counted (workers s)) as Hb.
  assert (forall p, (counted p <= 1)%nat) as Hc by (intros []; simpl; lia).
  specialize (Hb Hc). lia.
Qed.

End SchedulerFacts.

(** ** The counting loop *)

Lemma countResults_fold rs sc fc :
  fold_left countStep rs (sc, fc) =
  (sc + Z.of_nat (length (List.filter (fun r => negb (isFailure r)) rs)),
   fc + Z.of_nat (length (List.filter isFailure rs))).
Proof.
  revert sc fc. induction rs as [|r rs IH]; intros sc fc; simpl.
  - f_equal; lia.
  - assert (isFailure r = negb (isNil (Error r))) as Hf by done.
    destruct (isNil (Error r)); rewrite Hf; simpl; rewrite IH; f_equal; lia.
Qed.

(** The loop counts the results with an error and those without. *)
Lemma countResults_spec rs :
  countResults rs =
  (Z.of_nat (length (List.filter (fun r => negb (isFailure r)) rs)),
   Z.of_nat (length (List.filter isFailure rs))).
Proof. unfold countResults. by rewrite countResults_fold. Qed.

Lemma countResults_total rs :
  fst (countResults rs) + snd (countResults rs) = Z.of_nat (length rs).
Proof.
  rewrite countResults_spec. simpl.
  induction rs as [|r rs IH]; simpl; [done|].
  destruct (isFailure r); simpl; lia.
Qed.

(** ** The claims about [processFiles] *)

Section ProcessFilesClaims.
Context `{GoRuntime}.
Variable files : list string.
Variable quiet : bool.
Variable numCPU : Z.

Local Abbreviation run := (run files).

(** C1. Whatever the input files and whatever the calls of
    [analyzeFileWithFFProbe] observe, [processFiles] can run until it returns
    (with an effective concurrency of at least one), and in every
    interleaving of the goroutines, when [processFiles] has returned, the
    result at index [i] is the result of the call made for [files[i]]; two
    runs whose calls observed the same worlds return the same slice,
    whatever their schedules. *)
Theorem processFiles_order_preserved maxConcurrency :
  (1 <= effectiveConcurrency numCPU maxConcurrency ->
   forall worldOf, exists sched s out,
     run sched (start files quiet numCPU maxConcurrency) = Some s /\
     main s = MReturned out /\ Forall (observes worldOf) sched) /\
  (forall sched s out,
     run sched (start files quiet numCPU maxConcurrency) = Some s ->
     main s = MReturned out ->
     length out = length files /\
     (forall i path, files !! i = Some path ->
        exists w, probesOf i (trace s) = [w] /\
                  out !! i = Some (analyzeFileWithFFProbe w path)) /\
     (forall worldOf, Forall (observes worldOf) sched ->
        forall i path, files !! i = Some path ->
          out !! i = Some (analyzeFileWithFFProbe (worldOf i) path)) /\
     (forall sched' s' out',
        run sched' (start files quiet numCPU maxConcurrency) = Some s' ->
        main s' = MReturned out' ->
        (forall i, probesOf i (trace s') = probesOf i (trace s)) ->
        out' = out)).
Proof.
  split; [intros Hcap worldOf; by apply start_returns|].
  intros sched s out Hrun Hmain.
  pose proof (run_reachable _ _ _ _ _ _ _ (reachable_start _ _ _ _) Hrun) as Hreach.
  assert (length out = length files) as Hlen.
  { pose proof (reachable_returned_Inv _ _ _ _ _ _ Hreach Hmain) as HI.
    pose proof (inv_main _ _ _ _ _ HI) as Im. rewrite Hmain in Im.
    destruct Im as (_ & _ & _ & _ & -> & _). apply (inv_results _ _ _ _ _ HI). }
  split; [done|]. split; [|split].
  - intros i path Hfile.
    destruct (returned_slot _ _ _ _ _ _ _ _ Hreach Hmain Hfile) as (w & Hp & _ & Ho & _).
    eauto.
  - intros worldOf Hobs i path Hfile. by eapply returned_observed.
  - intros sched' s' out' Hrun' Hmain' Hsame.
    pose proof (run_reachable _ _ _ _ _ _ _ (reachable_start _ _ _ _) Hrun') as Hreach'.
    assert (length out' = length files) as Hlen'.
    { pose proof (reachable_returned_Inv _ _ _ _ _ _ Hreach' Hmain') as HI.
      pose proof (inv_main _ _ _ _ _ HI) as Im. rewrite Hmain' in Im.
      destruct Im as (_ & _ & _ & _ & -> & _). apply (inv_results _ _ _ _ _ HI). }
    apply list_eq. intros i. destruct (files !! i) as [path|] eqn:Hfile.
    + destruct (returned_slot _ _ _ _ _ _ _ _ Hreach Hmain Hfile) as (w & Hp & _ & Ho & _).
      destruct (returned_slot _ _ _ _ _ _ _ _ Hreach' Hmain' Hfile)
        as (w' & Hp' & _ & Ho' & _).
      rewrite Hsame, Hp in Hp'. injection Hp' as ->. by rewrite Ho, Ho'.
    + apply lookup_ge_None in Hfile. rewrite !lookup_ge_None_2; [done|lia|lia].
Qed.

(** C2. The slice of results is made with one zero slot per input file
    before any worker is started, and its length never changes; when
    [processFiles] has returned, each slot was written exactly once, by an
    assignment at its index, with a value that is not the zero result, and
    nothing was written at any other index. *)
Theorem processFiles_slots_written_once maxConcurrency :
  (results (start files quiet numCPU maxConcurrency) = replicate (length files) zeroResult /\
   workers (start files quiet numCPU maxConcurrency) = []) /\
  (forall sched s,
     run sched (start files quiet numCPU maxConcurrency) = Some s ->
     length (results s) = length files /\
     (forall i, (length files <= i)%nat -> writesTo i (trace s) = []) /\
     (forall out, main s = MReturned out ->
        forall i, (i < length files)%nat ->
          exists r, writesTo i (trace s) = [r] /\ out !! i = Some r /\
                    r <> zeroResult)).
Proof.
  split; [done|]. intros sched s Hrun.
  pose proof (run_reachable _ _ _ _ _ _ _ (reachable_start _ _ _ _) Hrun) as Hreach.
  split; [by eapply reachable_results_length|].
  split; [intros i Hi; by eapply reachable_no_write_outside|].
  intros out Hmain i Hi.
  destruct (lookup_lt_is_Some_2 files i Hi) as [path Hfile].
  destruct (returned_slot _ _ _ _ _ _ _ _ Hreach Hmain Hfile) as (w & _ & Hw & Ho & _).
  exists (analyzeFileWithFFProbe w path). repeat split; try done.
  intros Hzero. destruct (analyze_validOutcome w path) as [[[info Hi'] _]|[_ [e He]]];
    rewrite Hzero in *; done.
Qed.

(** C3. Whichever calls fail, [processFiles] can run until it returns (with
    an effective concurrency of at least one). When it has returned, the
    slot of each file holds the result of the call made for that file, so a
    call that failed left its error in its own slot; the slot of a file
    depends on the world its own call observed only, whatever happened to the
    other files, in this run or in any other; and the failure count of the
    final loop, which is logged when it is positive, is the number of failed
    calls. *)
Theorem processFiles_failures_isolated maxConcurrency :
  (1 <= effectiveConcurrency numCPU maxConcurrency ->
   forall worldOf, exists sched s out,
     run sched (start files quiet numCPU maxConcurrency) = Some s /\
     main s = MReturned out /\ Forall (observes worldOf) sched) /\
  (forall sched s out,
     run sched (start files quiet numCPU maxConcurrency) = Some s ->
     main s = MReturned out ->
     (forall i path, files !! i = Some path ->
        exists w, probesOf i (trace s) = [w] /\
          out !! i = Some (analyzeFileWithFFProbe w path) /\
          (forall err, Error (analyzeFileWithFFProbe w path) = Some err ->
                       out !! i = Some (failure err))) /\
     (forall quiet' numCPU' maxConcurrency' sched' s' out',
        run sched' (start files quiet' numCPU' maxConcurrency') = Some s' ->
        main s' = MReturned out' ->
        forall i, probesOf i (trace s') = probesOf i (trace s) -> out' !! i = out !! i) /\
     snd (countResults out) = Z.of_nat (length (List.filter isFailure out)) /\
     fst (countResults out) + snd (countResults out) = Z.of_nat (length files) /\
     In (EvLog (LogSucceeded (fst (countResults out)))) (trace s) /\
     (snd (countResults out) > 0 ->
      In (EvLog (LogFailed (snd (countResults out)))) (trace s))).
Proof.
  split; [intros Hcap worldOf; by apply start_returns|].
  intros sched s out Hrun Hmain.
  pose proof (run_reachable _ _ _ _ _ _ _ (reachable_start _ _ _ _) Hrun) as Hreach.
  pose proof (reachable_returned_Inv _ _ _ _ _ _ Hreach Hmain) as HI.
  pose proof (inv_main _ _ _ _ _ HI) as Im. rewrite Hmain in Im.
  destruct Im as (_ & _ & _ & _ & Hout & tr & Htr).
  split; [|split; [|split; [|split; [|split]]]].
  - intros i path Hfile.
    destruct (returned_slot _ _ _ _ _ _ _ _ Hreach Hmain Hfile) as (w & Hp & _ & Ho & _).
    exists w. repeat split; try done. intros err Herr. rewrite Ho. f_equal.
    destruct (analyze_validOutcome w path) as [[_ Hn]|[Hn _]]; [congruence|].
    destruct (analyzeFileWithFFProbe w path) as [info e]. simpl in *. by subst.
  - intros quiet' numCPU' maxConcurrency' sched' s' out' Hrun' Hmain' i Hsame.
    pose proof (run_reachable _ _ _ _ _ _ _ (reachable_start _ _ _ _) Hrun') as Hreach'.
    destruct (files !! i) as [path|] eqn:Hfile.
    + destruct (returned_slot _ _ _ _ _ _ _ _ Hreach Hmain Hfile) as (w & Hp & _ & Ho & _).
      destruct (returned_slot _ _ _ _ _ _ _ _ Hreach' Hmain' Hfile)
        as (w' & Hp' & _ & Ho' & _).
      rewrite Hsame, Hp in Hp'. injection Hp' as ->. by rewrite Ho, Ho'.
    + apply lookup_ge_None in Hfile.
      pose proof (reachable_returned_Inv _ _ _ _ _ _ Hreach' Hmain') as HI'.
      pose proof (inv_main _ _ _ _ _ HI') as Im'. rewrite Hmain' in Im'.
      destruct Im' as (_ & _ & _ & _ & Hout' & _).
      pose proof (inv_results _ _ _ _ _ HI) as Hl.
      pose proof (inv_results _ _ _ _ _ HI') as Hl'.
      rewrite !lookup_ge_None_2; [done|subst; lia|subst; lia].
  - by rewrite countResults_spec.
  - rewrite countResults_total. subst out. by rewrite (inv_results _ _ _ _ _ HI).
  - rewrite Htr. apply in_or_app. right. unfold finishLog.
    destruct (countResults out) as [sc fc]. simpl. auto.
  - intros Hpos. rewrite Htr. apply in_or_app. right. unfold finishLog.
    destruct (countResults out) as [sc fc]. simpl in *.
    destruct (Z.gtb_spec fc 0); [|lia]. simpl. auto.
Qed.

(** C5. A requested concurrency above twelve times the number of CPUs is
    brought down to that limit with a warning in the log, and the run does
    not fail: it never panics and can always go on until [processFiles]
    returns. A requested concurrency at or below the limit is the capacity
    of the semaphore as it stands, and no warning is logged. *)
Theorem processFiles_concurrency_clamped maxConcurrency :
  1 <= numCPU -> 12 * numCPU <= GoInt.maxInt64 ->
  (12 * numCPU < maxConcurrency ->
     effectiveConcurrency numCPU maxConcurrency = 12 * numCPU /\
     In (EvLog (LogClampWarning maxConcurrency (12 * numCPU)))
        (trace (start files quiet numCPU maxConcurrency)) /\
     forall sched s,
       run sched (start files quiet numCPU maxConcurrency) = Some s ->
       capacity s = 12 * numCPU /\
       In (EvLog (LogClampWarning maxConcurrency (12 * numCPU))) (trace s) /\
       main s <> MPanicked /\
       forall worldOf, exists sched' s' out,
         run sched' s = Some s' /\ main s' = MReturned out /\
         Forall (observes worldOf) sched') /\
  (maxConcurrency <= 12 * numCPU ->
     effectiveConcurrency numCPU maxConcurrency = maxConcurrency /\
     forall sched s,
       run sched (start files quiet numCPU maxConcurrency) = Some s ->
       capacity s = maxConcurrency /\
       forall requested limit, ~ In (EvLog (LogClampWarning requested limit)) (trace s)).
Proof.
  intros Hcpu Hmax.
  assert (cpuLimit numCPU = 12 * numCPU) as Hlimit.
  { unfold cpuLimit. rewrite GoIntFacts.int64_id; [lia|].
    unfold GoInt.inInt64, GoInt.minInt64, GoInt.maxInt64 in *. lia. }
  split.
  - intros Habove.
    assert (effectiveConcurrency numCPU maxConcurrency = 12 * numCPU) as Heff.
    { unfold effectiveConcurrency. rewrite Hlimit.
      destruct (Z.gtb_spec maxConcurrency (12 * numCPU)); [done|lia]. }
    assert (In (EvLog (LogClampWarning maxConcurrency (12 * numCPU)))
              (startLog files numCPU maxConcurrency)) as Hwarn.
    { unfold startLog. rewrite Hlimit.
      destruct (Z.gtb_spec maxConcurrency (12 * numCPU)); [|lia]. simpl. auto. }
    split; [done|]. split; [done|]. intros sched s Hrun.
    pose proof (run_reachable _ _ _ _ _ _ _ (reachable_start _ _ _ _) Hrun) as Hreach.
    assert (0 <= effectiveConcurrency numCPU maxConcurrency) as Hpos by lia.
    pose proof (reachable_Inv _ _ _ _ _ Hpos Hreach) as HI.
    pose proof (reachable_capacity _ _ _ _ _ Hreach) as Hc.
    split; [congruence|]. split.
    { destruct (reachable_trace_start _ _ _ _ _ Hreach) as (tr & -> & _).
      apply in_or_app. by left. }
    split.
    { intros Hp. pose proof (inv_main _ _ _ _ _ HI) as Im. by rewrite Hp in Im. }
    intros worldOf. apply (run_returns _ _ _ _ worldOf s HI). lia.
  - intros Hbelow.
    assert (effectiveConcurrency numCPU maxConcurrency = maxConcurrency) as Heff.
    { unfold effectiveConcurrency. rewrite Hlimit.
      destruct (Z.gtb_spec maxConcurrency (12 * numCPU)); [lia|done]. }
    split; [done|]. intros sched s Hrun.
    pose proof (run_reachable _ _ _ _ _ _ _ (reachable_start _ _ _ _) Hrun) as Hreach.
    pose proof (reachable_capacity _ _ _ _ _ Hreach) as Hc.
    split; [congruence|]. intros requested limit Hin.
    destruct (reachable_trace_start _ _ _ _ _ Hreach) as (tr & Htr & Hno).
    rewrite Htr in Hin. apply in_app_or in Hin as [Hin|Hin]; [|by eapply Hno].
    unfold startLog in Hin. rewrite Hlimit in Hin.
    destruct (Z.gtb_spec maxConcurrency (12 * numCPU)); [lia|].
    simpl in Hin. intuition congruence.
Qed.

(** C6. With no more input files than an [int32] counts, the counter
    [processed] starts at 0 and stays between 0 and the number of files; a
    step leaves it alone or adds exactly one, so its values are 1, 2, 3, ...
    in this order; the values the progress goroutine loads never decrease;
    and when [processFiles] has returned each worker has incremented the
    counter exactly once, whatever the result of its call, and the counter
    is the number of files. *)
Theorem processFiles_progress_counter maxConcurrency :
  Z.of_nat (length files) <= GoInt.maxInt32 ->
  processed (start files quiet numCPU maxConcurrency) = 0 /\
  forall sched s,
    run sched (start files quiet numCPU maxConcurrency) = Some s ->
    0 <= processed s <= Z.of_nat (length files) /\
    counterValues (trace s) = map Z.of_nat (seq 1 (Z.to_nat (processed s))) /\
    (forall l s', step files l s = Some s' ->
       processed s' = processed s \/ processed s' = processed s + 1) /\
    StronglySorted Z.le (ticks (trace s)) /\
    Forall (fun p => 0 <= p <= processed s) (ticks (trace s)) /\
    (forall out, main s = MReturned out ->
       processed s = Z.of_nat (length files) /\
       (forall i, (i < length files)%nat -> length (incrsOf i (trace s)) = 1%nat) /\
       (forall i, (length files <= i)%nat -> incrsOf i (trace s) = [])).
Proof.
  intros Hbound. split; [done|]. intros sched s Hrun.
  pose proof (run_reachable _ _ _ _ _ _ _ (reachable_start _ _ _ _) Hrun) as Hreach.
  destruct (Z.lt_ge_cases (effectiveConcurrency numCPU maxConcurrency) 0) as [Hneg|Hpos].
  { (* the channel could not be made: nothing ran *)
    destruct (reachable_panicked _ _ _ _ _ Hneg Hreach) as [-> Hp].
    assert (forall A (f : Event -> option A), (forall l, f (EvLog l) = None) ->
              omap f (trace (start files quiet numCPU maxConcurrency)) = []) as Hnil.
    { intros A f Hf. simpl. destruct (startLog_logs files numCPU maxConcurrency) as [ls ->].
      by apply omap_log_nil. }
    unfold counterValues, ticks. rewrite !Hnil by done. simpl.
    split; [lia|]. split; [done|]. split.
    { intros l s' Hstep. unfold step, halted in Hstep. by rewrite Hp in Hstep. }
    split; [constructor|]. split; [constructor|].
    intros out Hmain. by destruct (effectiveConcurrency numCPU maxConcurrency <? 0). }
  pose proof (reachable_Inv _ _ _ _ _ Hpos Hreach) as HI.
  pose proof (Inv_counted_le _ _ _ _ _ HI) as Hle.
  pose proof (inv_processed _ _ _ _ _ HI) as Hproc.
  rewrite (counterValue_small files _ Hbound Hle) in Hproc.
  split; [lia|]. split.
  { rewrite (inv_counter _ _ _ _ _ HI), Hproc, Nat2Z.id.
    apply map_ext_in. intros k Hk. apply in_seq in Hk.
    apply (counterValue_small files); [done|lia]. }
  split.
  { intros l s' Hstep.
    pose proof (Inv_step _ _ _ _ _ _ _ HI Hstep) as HI'.
    pose proof (Inv_counted_le _ _ _ _ _ HI') as Hle'.
    pose proof (inv_processed _ _ _ _ _ HI') as Hproc'.
    rewrite (counterValue_small files _ Hbound Hle') in Hproc'.
    destruct (step_processed _ _ _ _ Hstep) as [[Hp _]|[_ Hc]]; [by left|right]. lia. }
  destruct (inv_ticks _ _ _ _ _ HI) as (ks & Hks & Hsorted & Hall).
  assert (map counterValue ks = map Z.of_nat ks) as Hmap.
  { apply map_ext_in. intros k Hk. apply (counterValue_small files); [done|].
    rewrite List.Forall_forall in Hall. specialize (Hall _ Hk). simpl in Hall. lia. }
  rewrite Hks, Hmap. split; [by apply StronglySorted_of_nat|]. split.
  { rewrite List.Forall_forall in *. intros p Hp.
    apply in_map_iff in Hp as (k & <- & Hk). specialize (Hall _ Hk). simpl in Hall. lia. }
  intros out Hmain. split; [|split].
  - pose proof (inv_main _ _ _ _ _ HI) as Im. rewrite Hmain in Im.
    destruct Im as (Hlen & _).
    assert (tally counted (workers s) = length (workers s)) as Hall_counted.
    { assert (forall g wk, workers s !! g = Some wk -> pc wk = WDone) as Hdone.
      { intros g wk. by apply (returned_all_done _ _ _ _ _ _ _ _ HI Hmain). }
      clear -Hdone. unfold tally. induction (workers s) as [|wk ws IH]; [done|].
      simpl. rewrite (Hdone 0%nat wk eq_refl). simpl. f_equal. apply IH.
      intros g wk' Hg. by apply (Hdone (S g)). }
    lia.
  - intros i Hi. destruct (lookup_lt_is_Some_2 files i Hi) as [path Hfile].
    by destruct (returned_slot _ _ _ _ _ _ _ _ Hreach Hmain Hfile) as (w & _ & _ & _ & ?).
  - intros i Hi. pose proof (Inv_workers_le _ _ _ _ _ HI) as Hw.
    destruct (inv_slots _ _ _ _ _ HI i) as [_ _ _ _ S5].
    unfold pcAt in S5. rewrite lookup_ge_None_2 in S5 by lia.
    by apply nil_length_inv.
Qed.

(** C7. With an effective concurrency [N] of at least one, in every state of
    every run the calls of [analyzeFileWithFFProbe] in flight are no more
    than the permits held, which are the values buffered in the channel
    [semaphore], and these are at most [N], the capacity of the channel; a
    worker waiting for a permit can go on exactly when fewer than [N] are
    held. *)
Theorem processFiles_concurrency_bound maxConcurrency sched s :
  1 <= effectiveConcurrency numCPU maxConcurrency ->
  run sched (start files quiet numCPU maxConcurrency) = Some s ->
  capacity s = effectiveConcurrency numCPU maxConcurrency /\
  Z.of_nat (tally inFlight (workers s)) <= Z.of_nat (tally holdsPermit (workers s)) /\
  Z.of_nat (tally holdsPermit (workers s)) = semaphore s /\
  semaphore s <= effectiveConcurrency numCPU maxConcurrency /\
  (forall g wk, workers s !! g = Some wk -> pc wk = WBlocked ->
     (is_Some (step files (LWorker g) s) <-> semaphore s < capacity s)).
Proof.
  intros Hcap Hrun.
  pose proof (run_reachable _ _ _ _ _ _ _ (reachable_start _ _ _ _) Hrun) as Hreach.
  assert (0 <= effectiveConcurrency numCPU maxConcurrency) as Hpos by lia.
  pose proof (reachable_Inv _ _ _ _ _ Hpos Hreach) as HI.
  destruct (inv_capacity _ _ _ _ _ HI) as [Hsem Hc].
  split; [done|]. split.
  { apply inj_le. apply tally_le. intros []; simpl; lia. }
  split; [symmetry; apply (inv_semaphore _ _ _ _ _ HI)|]. split; [lia|].
  intros g wk Hg Hpc.
  destruct (Inv_live_main _ _ _ _ _ _ _ HI Hg) as [_ Hmain]; [by rewrite Hpc|].
  assert (halted s = false) as Hrunning.
  { unfold halted. by destruct Hmain as [[i ->]| ->]. }
  unfold step, workerStep. rewrite Hrunning, Hg, Hpc.
  destruct (Z.ltb_spec (semaphore s) (capacity s)); split; eauto; try lia.
  intros [? [=]].
Qed.

End ProcessFilesClaims.

(** ** Strings *)

Module GoStringsFacts.
Import GoStrings.

Lemma append_cons a s1 s2 : String a s1 +:+ s2 = String a (s1 +:+ s2).
Proof. reflexivity. Qed.

Lemma append_nil_l s : EmptyString +:+ s = s.
Proof. reflexivity. Qed.

Lemma append_assoc s1 s2 s3 : (s1 +:+ s2) +:+ s3 = s1 +:+ s2 +:+ s3.
Proof.
  induction s1 as [|a s1 IH]; [done|]. rewrite !append_cons. by rewrite IH.
Qed.

Lemma stripPrefix_spec p s r : stripPrefix p s = Some r <-> s = p +:+ r.
Proof.
  revert s. induction p as [|a p IH]; intros s; simpl.
  - rewrite append_nil_l. split; congruence.
  - destruct s as [|b s]; [done|]. rewrite append_cons.
    destruct (Ascii.eqb_spec a b) as [->|Hne].
    + rewrite IH. split; congruence.
    + split; congruence.
Qed.

(** [strings.Contains(s, sub)] holds exactly when [sub] stands somewhere in [s]. *)
Lemma Contains_spec s sub :
  Contains s sub = true <-> exists pre post, s = pre +:+ sub +:+ post.
Proof.
  induction s as [|a s IH].
  - simpl. destruct (stripPrefix sub EmptyString) as [r|] eqn:Hs.
    + apply stripPrefix_spec in Hs. split; [|done]. intros _. by exists EmptyString, r.
    + split; [done|]. intros (pre & post & Heq).
      destruct pre as [|b pre]; [|done]. rewrite append_nil_l in Heq.
      apply stripPrefix_spec in Heq. congruence.
  - simpl. destruct (stripPrefix sub (String a s)) as [r|] eqn:Hs.
    + apply stripPrefix_spec in Hs. split; [|done]. intros _. by exists EmptyString, r.
    + rewrite IH. split.
      * intros (pre & post & ->). by exists (String a pre), post.
      * intros (pre & post & Heq). destruct pre as [|b pre].
        -- rewrite append_nil_l in Heq. apply stripPrefix_spec in Heq. congruence.
        -- rewrite append_cons in Heq. injection Heq as _ ->. eauto.
Qed.

End GoStringsFacts.

(** ** The report *)

(** The sum of a list of integers. *)
Definition sumZ (l : list Z) : Z := fold_right Z.add 0 l.

(** The additions of [totalSize], one [int64] addition per file. *)
Definition addSizes (sizes : list Z) (acc : Z) : Z :=
  fold_left (fun acc size => GoInt.int64 (acc + size)) sizes acc.

Lemma summarize_fold results st :
  fold_left statsStep results st =
  {| totalDuration :=
       fold_left GoFloat.add (map AudioInfo.DurationSeconds (validResults results))
         (totalDuration st);
     totalSize := addSizes (map AudioInfo.FileSize (validResults results)) (totalSize st);
     successCount := successCount st + Z.of_nat (length (validResults results)) |}.
Proof.
  revert st. induction results as [|r rs IH]; intros st.
  - simpl. destruct st. simpl. f_equal. lia.
  - simpl. rewrite IH. unfold statsStep.
    destruct (Error r) as [e|]; [|destruct (Info r) as [info|]]; simpl; try done.
    f_equal. lia.
Qed.

Lemma addSizes_wrap sizes acc :
  GoInt.int64 (addSizes sizes acc) = GoInt.int64 (acc + sumZ sizes).
Proof.
  revert acc. induction sizes as [|x sizes IH]; intros acc; simpl.
  - by rewrite Z.add_0_r.
  - unfold addSizes in *. simpl. rewrite IH, GoIntFacts.int64_add_l. f_equal. lia.
Qed.

(** The total size is the sum of the sizes in [int64] arithmetic. *)
Lemma addSizes_range sizes acc : GoInt.inInt64 acc -> GoInt.inInt64 (addSizes sizes acc).
Proof.
  revert acc. induction sizes as [|x sizes IH]; intros acc Hacc; [done|].
  apply (IH (GoInt.int64 (acc + x))). apply GoIntFacts.int64_range.
Qed.

Lemma addSizes_sum sizes : addSizes sizes 0 = GoInt.int64 (sumZ sizes).
Proof.
  transitivity (GoInt.int64 (addSizes sizes 0)).
  - symmetry. apply GoIntFacts.int64_id. apply addSizes_range. by vm_compute.
  - rewrite addSizes_wrap. f_equal.
Qed.

(** A result counted as a success by [outputText] and [outputJSON]. *)
Definition isSuccess (r : Result) : bool := isNil (Error r) && negb (isNil (Info r)).

Lemma validResults_successes results :
  validResults results = validResults (List.filter isSuccess results).
Proof.
  induction results as [|r rs IH]; [done|]. simpl. unfold isSuccess at 1.
  destruct (Error r) as [e|] eqn:He; [|destruct (Info r) as [info|] eqn:Hi]; simpl;
    rewrite ?He, ?Hi; simpl; by rewrite <- IH.
Qed.

Lemma validResults_length results :
  length (validResults results) = length (List.filter isSuccess results).
Proof.
  induction results as [|r rs IH]; [done|]. simpl. unfold isSuccess at 1.
  destruct (Error r) as [e|]; [|destruct (Info r) as [info|]]; simpl; by rewrite IH.
Qed.

(** Among the results of calls, the successes are the results without error. *)
Lemma valid_success_not_failure results :
  Forall validOutcome results ->
  List.filter isSuccess results = List.filter (fun r => negb (isFailure r)) results.
Proof.
  induction 1 as [|r rs Hr _ IH]; [done|]. simpl. rewrite IH.
  unfold isSuccess, isFailure.
  destruct Hr as [[[info Hi] He]|[Hi [e He]]]; rewrite Hi, He; done.
Qed.

Lemma filter_complement_length {A} (f : A -> bool) (l : list A) :
  (length (List.filter f l) + length (List.filter (fun x => negb (f x)) l) = length l)%nat.
Proof. induction l as [|x l IH]; [done|]. simpl. destruct (f x); simpl; lia. Qed.

Lemma summarize_successCount results :
  successCount (summarize results) = Z.of_nat (length (List.filter isSuccess results)).
Proof.
  unfold summarize. rewrite summarize_fold. simpl. by rewrite validResults_length.
Qed.

Section ReportFacts.
Context `{GoRuntime}.

(** The lines of the results of calls: the loop ends, and each error has
    its line. *)
Lemma resultLines_valid results :
  Forall validOutcome results ->
  snd (resultLines results) = Finished /\
  forall r err, In r results -> Error r = Some err ->
    exists pre post, fst (resultLines results) = pre +:+ errorLine err +:+ post.
Proof.
  induction 1 as [|r rs Hr _ [IHs IHe]]; [by split; [|intros ?? []]|].
  simpl. destruct (resultLines rs) as [text st] eqn:Hrest. simpl in *.
  destruct (Error r) as [e|] eqn:He.
  - split; [done|]. simpl. intros r' err [<-|Hin] Herr.
    + exists EmptyString, text. rewrite GoStringsFacts.append_nil_l. congruence.
    + destruct (IHe _ _ Hin Herr) as (pre & post & ->).
      exists (errorLine e +:+ pre), post. by rewrite GoStringsFacts.append_assoc.
  - destruct Hr as [[[info Hi] _]|[_ [e' He']]]; [|congruence].
    rewrite Hi. split; [done|]. simpl. intros r' err [<-|Hin] Herr; [congruence|].
    destruct (IHe _ _ Hin Herr) as (pre & post & ->).
    exists (infoLines info +:+ pre), post. by rewrite GoStringsFacts.append_assoc.
Qed.

End ReportFacts.

(** ** The claims about the report *)

Section ReportClaims.
Context `{GoRuntime}.
Variable jsonElement : AudioInfo.t -> string + string.

(** C8. The statistics [outputText] writes: the successes are the results
    with a record and no error, the failures are all the others, so the two
    counts add up to the number of results (and for the results of calls the
    failures are the results with an error); the total duration is the
    [float64] sum, from left to right, of the durations of the successes,
    and the total size is the [int64] sum of their file sizes; a result that
    is no success adds nothing to either. *)
Theorem outputText_statistics results :
  let ok := validResults results in
  let st := summarize results in
  successCount st = Z.of_nat (length (List.filter isSuccess results)) /\
  successCount st + (Z.of_nat (length results) - successCount st)
    = Z.of_nat (length results) /\
  Z.of_nat (length results) - successCount st
    = Z.of_nat (length (List.filter (fun r => negb (isSuccess r)) results)) /\
  (Forall validOutcome results ->
   Z.of_nat (length results) - successCount st
     = Z.of_nat (length (List.filter isFailure results))) /\
  totalDuration st = fold_left GoFloat.add (map AudioInfo.DurationSeconds ok) GoFloat.zero /\
  totalSize st = GoInt.int64 (sumZ (map AudioInfo.FileSize ok)) /\
  (GoInt.inInt64 (sumZ (map AudioInfo.FileSize ok)) ->
   totalSize st = sumZ (map AudioInfo.FileSize ok)) /\
  summarize (List.filter isSuccess results) = st /\
  exists rest,
    fst (outputText results) =
      "=== 音声ファイル分析結果 ===" +:+ nl +:+
      "成功: " +:+ GoStrings.fmtInt (successCount st) +:+
      ", 失敗: " +:+ GoStrings.fmtInt (Z.of_nat (length results) - successCount st) +:+ nl +:+
      "総継続時間: " +:+ formatDuration (totalDuration st) +:+ nl +:+
      "総サイズ: " +:+ formatBytes (totalSize st) +:+ nl +:+ rest.
Proof.
  simpl. unfold summarize. rewrite !summarize_fold. simpl.
  rewrite addSizes_sum, <- validResults_successes, validResults_length.
  pose proof (filter_complement_length isSuccess results) as Hsplit.
  repeat split; try lia.
  - intros Hvalid. rewrite (valid_success_not_failure _ Hvalid).
    pose proof (filter_complement_length isFailure results). lia.
  - intros Hrange. by apply GoIntFacts.int64_id.
  - f_equal. apply addSizes_sum.
  - unfold outputText. destruct (resultLines results) as [text status].
    exists text. simpl. unfold statsLines, summarize, concat.
    rewrite summarize_fold. simpl.
    rewrite addSizes_sum, validResults_length.
    rewrite !GoStringsFacts.append_assoc. reflexivity.
Qed.

(** C4, as amended. For the results of a completed run, when the sink can be
    written: in the text format (every format other than "json") the report
    ends without error, gives the number of successes and the number of
    failures, and holds a line with the description of each failure; in the
    JSON format the report is that of the successful results alone, so the
    failures are left out of it. *)
Theorem outputResults_failures create results format outputFile :
  Forall validOutcome results ->
  outputFile = EmptyString \/ create outputFile = None ->
  (format <> "json" ->
   exists body,
     outputResults jsonElement create results format outputFile
       = (statsLines results +:+ body, Finished) /\
     (exists pre post,
        statsLines results =
          pre +:+ "成功: "
              +:+ GoStrings.fmtInt (Z.of_nat (length (List.filter (fun r => negb (isFailure r)) results)))
              +:+ ", 失敗: "
              +:+ GoStrings.fmtInt (Z.of_nat (length (List.filter isFailure results)))
              +:+ nl +:+ post) /\
     (forall r err, In r results -> Error r = Some err ->
        exists pre post, body = pre +:+ nl +:+ "❌ エラー: " +:+ err +:+ nl +:+ post)) /\
  (format = "json" ->
   outputResults jsonElement create results format outputFile
     = outputJSON jsonElement (List.filter (fun r => negb (isFailure r)) results)).
Proof.
  intros Hvalid Hsink.
  assert (forall write : string * Status,
            (if String.eqb outputFile "" then write
             else match create outputFile with
                  | Some err => (EmptyString, Failed ("出力ファイルの作成に失敗: " +:+ err))
                  | None => write
                  end) = write) as Hopen.
  { intros write. destruct (String.eqb_spec outputFile "") as [|Hne]; [done|].
    destruct Hsink as [Hs|Hs]; [done|by rewrite Hs]. }
  split.
  - intros Hfmt. unfold outputResults. rewrite Hopen.
    destruct (String.eqb_spec format "json") as [|_]; [done|].
    unfold outputText. destruct (resultLines_valid results Hvalid) as [Hst Herr].
    destruct (resultLines results) as [body st]. simpl in *. subst st.
    exists body. split; [done|]. split.
    + pose proof (summarize_successCount results) as Hsc.
      rewrite (valid_success_not_failure _ Hvalid) in Hsc.
      pose proof (filter_complement_length isFailure results) as Hsplit.
      unfold statsLines, concat. simpl. rewrite Hsc.
      replace (Z.of_nat (length results)
               - Z.of_nat (length (List.filter (fun r => negb (isFailure r)) results)))
        with (Z.of_nat (length (List.filter isFailure results))) by lia.
      eexists ("=== 音声ファイル分析結果 ===" +:+ nl), _.
      rewrite !GoStringsFacts.append_assoc. reflexivity.
    + intros r err Hin He. destruct (Herr r err Hin He) as (pre & post & ->).
      exists pre, post. unfold errorLine. by rewrite !GoStringsFacts.append_assoc.
  - intros ->. unfold outputResults. rewrite Hopen. simpl.
    unfold outputJSON. rewrite validResults_successes.
    rewrite (validResults_successes (List.filter _ results)).
    rewrite <- (valid_success_not_failure _ Hvalid).
    assert (List.filter isSuccess (List.filter isSuccess results)
            = List.filter isSuccess results) as ->; [|done].
    clear. induction results as [|r rs IH]; [done|]. simpl.
    destruct (isSuccess r) eqn:Hr; simpl; rewrite ?Hr, IH; done.
Qed.

End ReportClaims.

(** ** [collectAudioFiles] *)

(** Induction on a file-system tree. *)
Lemma Node_tree_ind (P : Node -> Prop) :
  P File ->
  (forall err entries, Forall (fun e => P e.2) entries -> P (Dir err entries)) ->
  forall n, P n.
Proof.
  intros Hfile Hdir. fix IH 1. intros [|err entries]; [exact Hfile|].
  apply Hdir. induction entries as [|[q child] entries IHes]; constructor.
  - apply IH.
  - exact IHes.
Qed.

Section CollectFacts.
Context `{GoRuntime}.

Lemma filter_audio_app l1 l2 :
  List.filter hasAudioExtension (l1 ++ l2)
  = List.filter hasAudioExtension l1 ++ List.filter hasAudioExtension l2.
Proof. apply List.filter_app. Qed.

Lemma visitFile_spec p audioFiles :
  visitFile p audioFiles = audioFiles ++ List.filter hasAudioExtension [p].
Proof.
  unfold visitFile. cbn [List.filter].
  destruct (hasAudioExtension p); [reflexivity|]. symmetry. apply app_nil_r.
Qed.

(** The walk of a tree: the first listing error, or the audio files under the
    node added to those found before. *)
Lemma walk_spec p n audioFiles :
  walk p n audioFiles =
  match firstError n with
  | Some err => inl err
  | None => inr (audioFiles ++ List.filter hasAudioExtension (filesUnder p n))
  end.
Proof.
  revert p audioFiles. induction n as [|err entries IH] using Node_tree_ind;
    intros p audioFiles.
  - simpl. by rewrite visitFile_spec.
  - destruct err as [err|]; [done|]. simpl.
    revert audioFiles. induction IH as [|[q child] entries Hchild _ IHes]; intros audioFiles.
    + by rewrite app_nil_r.
    + simpl in Hchild. rewrite Hchild. destruct (firstError child); [done|].
      rewrite IHes. match goal with |- context [match ?o with _ => _ end] => destruct o end;
        [done|]. by rewrite filter_audio_app, app_assoc.
Qed.

Lemma readEntries_spec entries audioFiles :
  readEntries entries audioFiles
  = audioFiles ++ List.filter hasAudioExtension (filesIn entries).
Proof.
  unfold readEntries, filesIn. revert audioFiles.
  induction entries as [|[q child] entries IH]; intros audioFiles; simpl.
  - by rewrite app_nil_r.
  - rewrite IH. destruct (isDir child); simpl; [done|].
    rewrite visitFile_spec. simpl.
    destruct (hasAudioExtension q); simpl; by rewrite <- ?app_assoc, ?app_nil_r.
Qed.

Lemma collectStep_spec stat recursive path audioFiles :
  collectStep stat recursive path audioFiles =
  match expand stat recursive path with
  | inl err => inl err
  | inr fs => inr (audioFiles ++ List.filter hasAudioExtension fs)
  end.
Proof.
  unfold collectStep, expand. destruct (stat path) as [[|err entries]|]; [| |done].
  - by rewrite visitFile_spec.
  - destruct recursive.
    + rewrite walk_spec. by destruct (firstError (Dir err entries)).
    + destruct err; [done|]. by rewrite readEntries_spec.
Qed.

Lemma collectLoop_spec stat recursive paths audioFiles :
  collectLoop stat recursive paths audioFiles =
  match candidates stat recursive paths with
  | inl err => inl err
  | inr fs => inr (audioFiles ++ List.filter hasAudioExtension fs)
  end.
Proof.
  revert audioFiles. induction paths as [|path rest IH]; intros audioFiles; simpl.
  - by rewrite app_nil_r.
  - rewrite collectStep_spec. destruct (expand stat recursive path) as [err|fs]; [done|].
    rewrite IH. destruct (candidates stat recursive rest) as [err|gs]; [done|].
    by rewrite filter_audio_app, app_assoc.
Qed.

(** A path passes the test of the extension exactly when its extension,
    lower-cased, is one of the twenty names. *)
Lemma hasAudioExtension_spec p :
  hasAudioExtension p = true <-> In (ToLower (GoFilepath.Ext p)) audioExtensionNames.
Proof.
  with_strategy transparent [hasAudioExtension] (unfold hasAudioExtension).
  unfold audioExtensions. generalize (ToLower (GoFilepath.Ext p)) as ext. intros ext.
  generalize audioExtensionNames as names. intros names.
  destruct (list_to_map (map (fun e => (e, true)) names) !! ext) as [b|] eqn:Hl; simpl.
  - apply (elem_of_list_to_map_2 (M := gmap string)) in Hl.
    apply list_elem_of_In, in_map_iff in Hl as (e & [= -> <-] & Hin). tauto.
  - apply (not_elem_of_list_to_map_2 (M := gmap string)) in Hl.
    split; [done|]. intros Hin. exfalso. apply Hl.
    apply list_elem_of_fmap. exists (ext, true). split; [done|].
    apply list_elem_of_In, in_map_iff. eauto.
Qed.





Lemma collectAudioFiles_loop stat paths recursive :
  collectAudioFiles stat paths recursive =
  match candidates stat recursive paths with
  | inl err => inl err
  | inr fs => inr (List.filter hasAudioExtension fs)
  end.
Proof. unfold collectAudioFiles. by rewrite collectLoop_spec. Qed.


(** Every path returned has, once lower-cased, one of the twenty audio
    extensions. *)
Theorem collectAudioFiles_audio_only stat paths recursive audioFiles p :
  collectAudioFiles stat paths recursive = inr audioFiles ->
  In p audioFiles ->
  In (ToLower (GoFilepath.Ext p)) audioExtensionNames.
Proof.
  rewrite collectAudioFiles_loop.
  destruct (candidates stat recursive paths) as [|fs]; [done|]. intros [= <-] Hin.
  apply filter_In in Hin as [_ Hp]. by apply hasAudioExtension_spec.
Qed.

(** An argument that [os.Stat] cannot read ends the collection with an error
    that names it, whatever was collected from the arguments before it and
    whatever follows. *)
Theorem collectAudioFiles_missing stat before path after recursive found :
  candidates stat recursive before = inr found ->
  stat path = None ->
  collectAudioFiles stat (before ++ path :: after) recursive
    = inl ("パスが存在しません: " +:+ path).
Proof.
  intros Hbefore Hstat. rewrite collectAudioFiles_loop.
  revert found Hbefore. induction before as [|b before IH]; intros found; simpl.
  - intros _. unfold expand. by rewrite Hstat.
  - destruct (expand stat recursive b); [done|].
    destruct (candidates stat recursive before) as [|fs] eqn:Hc; [done|]. intros _.
    specialize (IH _ eq_refl).
    destruct (candidates stat recursive (before ++ path :: after)); [|done].
    by injection IH as ->.
Qed.

(** When every argument is a file, the result is the list of the arguments
    with an audio extension, in their order, with or without [-r]; the other
    arguments are dropped without an error. *)
Theorem collectAudioFiles_files stat paths recursive :
  Forall (fun path => stat path = Some File) paths ->
  collectAudioFiles stat paths recursive = inr (List.filter hasAudioExtension paths).
Proof.
  intros Hfiles. rewrite collectAudioFiles_loop.
  assert (candidates stat recursive paths = inr paths) as ->; [|done].
  induction Hfiles as [|path rest Hpath _ IH]; simpl; [done|].
  unfold expand. by rewrite Hpath, IH.
Qed.


End CollectFacts.

(** ** More about [processFiles] *)

Lemma finals_snoc tr e : finals (tr ++ [e]) = finals tr ++ finals [e].
Proof. apply omap_app. Qed.

Lemma finals_single e :
  finals [e] = match e with EvProgressFinal total => [total] | _ => [] end.
Proof. by destruct e. Qed.

Global Arguments finals : simpl never.

Section SchedulerExtras.
Context `{GoRuntime}.
Variable files : list string.
Variable quiet : bool.
Variable numCPU : Z.
Variable maxConcurrency : Z.

Local Abbreviation Inv := (Inv files quiet numCPU maxConcurrency).
Local Abbreviation step := (step files).
Local Abbreviation run := (run files).
Local Abbreviation start := (start files quiet numCPU).
Local Abbreviation reachable := (reachable files quiet numCPU maxConcurrency).
Local Abbreviation effective := (effectiveConcurrency numCPU maxConcurrency).

Lemma omap_finishLog {A} (f : Event -> option A) tr rs :
  (forall l, f (EvLog l) = None) -> omap f (tr ++ finishLog rs) = omap f tr.
Proof.
  intros Hf. destruct (finishLog_logs rs) as [ls ->].
  by rewrite omap_app, omap_log_nil, app_nil_r.
Qed.

Lemma omap_startLog {A} (f : Event -> option A) :
  (forall l, f (EvLog l) = None) ->
  omap f (startLog files numCPU maxConcurrency) = [].
Proof.
  intros Hf. destruct (startLog_logs files numCPU maxConcurrency) as [ls ->].
  by apply omap_log_nil.
Qed.

(** What the progress goroutine has printed, by where it stands. *)
Lemma reachable_progress_events s :
  reachable s ->
  match progress s with
  | PAbsent => quiet = true /\ ticks (trace s) = [] /\ finals (trace s) = []
  | PRunning => quiet = false /\ finals (trace s) = []
  | PExited => quiet = false /\ finals (trace s) = [Z.of_nat (length files)]
  end.
Proof.
  induction 1 as [|s l s' _ IH Hstep].
  - simpl. unfold ticks, finals. rewrite !omap_startLog by done. by destruct quiet.
  - unfold step in Hstep. destruct (halted s); [done|]. destruct l as [|g|g w| |].
    + unfold mainStep in Hstep. destruct (main s); try done.
      * destruct (files !! i); injection Hstep as <-; simpl;
          rewrite ?ticks_snoc, ?finals_snoc, ?ticks_single, ?finals_single, ?app_nil_r;
          done.
      * destruct (wg s =? 0); [|done]. by injection Hstep as <-.
      * destruct (progressWg s =? 0); [|done]. injection Hstep as <-. simpl.
        unfold ticks, finals in *. by rewrite !omap_finishLog.
    + unfold workerStep in Hstep. destruct (workers s !! g) as [wk|]; [|done].
      destruct (pc wk); try done;
        repeat match type of Hstep with
               | (if ?c then _ else _) = _ => destruct c
               end; try done; injection Hstep as <-; simpl;
        rewrite ?ticks_snoc, ?finals_snoc, ?ticks_single, ?finals_single, ?app_nil_r;
        done.
    + unfold probeStep in Hstep. destruct (workers s !! g) as [wk|]; [|done].
      destruct (pc wk); try done. injection Hstep as <-. simpl.
      rewrite ?ticks_snoc, ?finals_snoc, ?ticks_single, ?finals_single, ?app_nil_r.
      done.
    + unfold tickStep in Hstep. destruct (progress s); try done.
      injection Hstep as <-. simpl.
      rewrite ?finals_snoc, ?finals_single, ?app_nil_r. done.
    + unfold progressDoneStep in Hstep. destruct (progress s); try done.
      destruct (progressDone s); [|done]. injection Hstep as <-. simpl.
      rewrite ?finals_snoc, ?finals_single. destruct IH as [Hq ->]. done.
Qed.

(** The progress display. With [quiet] set the progress goroutine is never
    started: nothing is ever printed by it. Without, the final line is
    printed exactly once before [processFiles] returns, with the number of
    files as the total, and never before [wg.Wait()] has returned. *)
Theorem processFiles_progress_display sched s :
  run sched (start maxConcurrency) = Some s ->
  (quiet = true -> ticks (trace s) = [] /\ finals (trace s) = []) /\
  (quiet = false -> forall out, main s = MReturned out ->
     finals (trace s) = [Z.of_nat (length files)]) /\
  (finals (trace s) <> [] -> progressDone s = true).
Proof.
  intros Hrun.
  pose proof (run_reachable _ _ _ _ _ _ _ (reachable_start _ _ _ _) Hrun) as Hreach.
  pose proof (reachable_progress_events _ Hreach) as Hev.
  split; [|split].
  - intros Hq. destruct (progress s); destruct Hev as [Hq' Hev]; [done|congruence..].
  - intros Hq out Hmain.
    pose proof (reachable_returned_Inv _ _ _ _ _ _ Hreach Hmain) as HI.
    pose proof (inv_main _ _ _ _ _ HI) as Im. rewrite Hmain in Im.
    destruct Im as (_ & _ & _ & Hpw & _).
    pose proof (inv_progress _ _ _ _ _ HI) as Ip.
    destruct (progress s).
    + destruct Ip. congruence.
    + destruct Ip. lia.
    + by destruct Hev.
  - intros Hfin. destruct (progress s) eqn:Hp.
    + by destruct Hev as (_ & _ & ?).
    + by destruct Hev.
    + destruct (Z.lt_ge_cases effective 0) as [Hneg|Hpos].
      * destruct (reachable_panicked _ _ _ _ _ Hneg Hreach) as [-> _].
        simpl in Hp. by destruct quiet.
      * pose proof (inv_progress _ _ _ _ _ (reachable_Inv _ _ _ _ _ Hpos Hreach)) as Ip.
        rewrite Hp in Ip. by destruct Ip as (_ & _ & ?).
Qed.


(** When [processFiles] has returned, every worker is done, every permit is
    back (the channel is empty) and both wait groups are at zero. *)
Theorem processFiles_returns_joined sched s out :
  run sched (start maxConcurrency) = Some s ->
  main s = MReturned out ->
  out = results s /\
  length (workers s) = length files /\
  (forall g wk, workers s !! g = Some wk -> pc wk = WDone) /\
  semaphore s = 0 /\ wg s = 0 /\ progressWg s = 0 /\
  forall l, step l s = None.
Proof.
  intros Hrun Hmain.
  pose proof (run_reachable _ _ _ _ _ _ _ (reachable_start _ _ _ _) Hrun) as Hreach.
  pose proof (reachable_returned_Inv _ _ _ _ _ _ Hreach Hmain) as HI.
  pose proof (inv_main _ _ _ _ _ HI) as Im. rewrite Hmain in Im.
  destruct Im as (Hlen & Hwg & _ & Hpw & Hout & _).
  assert (forall g wk, workers s !! g = Some wk -> pc wk = WDone) as Hdone.
  { intros g wk. by apply (returned_all_done _ _ _ _ _ _ _ _ HI Hmain). }
  repeat split; try done.
  - rewrite (inv_semaphore _ _ _ _ _ HI).
    assert (tally holdsPermit (workers s) = 0%nat) as ->; [|done].
    clear -Hdone. unfold tally. induction (workers s) as [|wk ws IH]; [done|].
    simpl. rewrite (Hdone 0%nat wk eq_refl). simpl. apply IH.
    intros g wk' Hg. by apply (Hdone (S g)).
  - intros l. unfold step, halted. by rewrite Hmain.
Qed.

(** At every moment of every run, a file has been probed at most once, and
    every call was made by the worker of the file's index with the file's
    own path. *)
Theorem processFiles_probes_once sched s :
  run sched (start maxConcurrency) = Some s ->
  (forall g, (length (probesOf g (trace s)) <= 1)%nat) /\
  (forall g path w, In (EvProbe g path w) (trace s) -> files !! g = Some path).
Proof.
  intros Hrun.
  pose proof (run_reachable _ _ _ _ _ _ _ (reachable_start _ _ _ _) Hrun) as Hreach.
  clear Hrun. split.
  - intros g. destruct (Z.lt_ge_cases effective 0) as [Hneg|Hpos].
    + destruct (reachable_panicked _ _ _ _ _ Hneg Hreach) as [-> _].
      unfold probesOf. simpl. rewrite omap_startLog; [simpl; lia|done].
    + destruct (inv_slots _ _ _ _ _ (reachable_Inv _ _ _ _ _ Hpos Hreach) g)
        as [S1 _ _ _ _].
      rewrite S1. destruct (pcAt (workers s) g); simpl; lia.
  - induction Hreach as [|s l s' Hreach IH Hstep].
    + intros g path w Hin. simpl in Hin.
      destruct (startLog_logs files numCPU maxConcurrency) as [ls Hls].
      rewrite Hls in Hin. apply in_map_iff in Hin as (? & [=] & _).
    + destruct (Z.lt_ge_cases effective 0) as [Hneg|Hpos].
      { destruct (reachable_panicked _ _ _ _ _ Hneg Hreach) as [-> Hp].
        unfold step, halted in Hstep. by rewrite Hp in Hstep. }
      pose proof (reachable_Inv _ _ _ _ _ Hpos Hreach) as HI.
      intros g0 path w0 Hin.
      unfold step in Hstep. destruct (halted s); [done|]. destruct l as [|g|g w| |].
      * unfold mainStep in Hstep. destruct (main s); try done.
        -- destruct (files !! i); injection Hstep as <-; simpl in Hin;
             [apply in_app_or in Hin as [Hin|[[=]|[]]]|]; by eapply IH.
        -- destruct (wg s =? 0); [|done]. injection Hstep as <-. by eapply IH.
        -- destruct (progressWg s =? 0); [|done]. injection Hstep as <-. simpl in Hin.
           apply in_app_or in Hin as [Hin|Hin]; [by eapply IH|].
           destruct (finishLog_logs (results s)) as [ls Hls]. rewrite Hls in Hin.
           apply in_map_iff in Hin as (? & [=] & _).
      * unfold workerStep in Hstep. destruct (workers s !! g) as [wk|]; [|done].
        destruct (pc wk); try done;
          repeat match type of Hstep with
                 | (if ?c then _ else _) = _ => destruct c
                 end; try done; injection Hstep as <-; simpl in Hin;
          try (apply in_app_or in Hin as [Hin|[[=]|[]]]); by eapply IH.
      * unfold probeStep in Hstep. destruct (workers s !! g) as [wk|] eqn:Hg; [|done].
        destruct (pc wk); try done. injection Hstep as <-. simpl in Hin.
        apply in_app_or in Hin as [Hin|[[= <- <- <-]|[]]]; [by eapply IH|].
        by destruct (inv_workers _ _ _ _ _ HI _ _ Hg).
      * unfold tickStep in Hstep. destruct (progress s); try done.
        injection Hstep as <-. simpl in Hin.
        apply in_app_or in Hin as [Hin|[[=]|[]]]. by eapply IH.
      * unfold progressDoneStep in Hstep. destruct (progress s); try done.
        destruct (progressDone s); [|done]. injection Hstep as <-. simpl in Hin.
        apply in_app_or in Hin as [Hin|[[=]|[]]]. by eapply IH.
Qed.

(** With a channel of capacity zero every worker stays blocked at its send. *)
Lemma zero_capacity_blocked s :
  effective = 0 -> reachable s ->
  forall g wk, workers s !! g = Some wk -> pc wk = WBlocked.
Proof.
  intros Hzero. assert (0 <= effective) as Hpos by lia.
  induction 1 as [|s l s' Hreach IH Hstep]; [done|].
  pose proof (reachable_Inv _ _ _ _ _ Hpos Hreach) as HI.
  destruct (inv_capacity _ _ _ _ _ HI) as [Hsem Hcap].
  pose proof (inv_semaphore _ _ _ _ _ HI) as Hs.
  unfold step in Hstep. destruct (halted s); [done|]. destruct l as [|g|g w| |].
  - unfold mainStep in Hstep. destruct (main s); try done.
    + destruct (files !! i); injection Hstep as <-; simpl; [|done].
      intros g wk Hg. destruct (decide (g = length (workers s))) as [->|Hne].
      * rewrite list_lookup_middle in Hg by done. by injection Hg as <-.
      * apply (IH g). rewrite lookup_app_l in Hg; [done|].
        apply lookup_lt_Some in Hg. rewrite length_app in Hg. simpl in Hg. lia.
    + destruct (wg s =? 0); [|done]. by injection Hstep as <-.
    + destruct (progressWg s =? 0); [|done]. by injection Hstep as <-.
  - unfold workerStep in Hstep. destruct (workers s !! g) as [wk|] eqn:Hg; [|done].
    rewrite (IH _ _ Hg) in Hstep.
    destruct (Z.ltb_spec (semaphore s) (capacity s)); [lia|done].
  - unfold probeStep in Hstep. destruct (workers s !! g) as [wk|] eqn:Hg; [|done].
    by rewrite (IH _ _ Hg) in Hstep.
  - unfold tickStep in Hstep. destruct (progress s); try done. by injection Hstep as <-.
  - unfold progressDoneStep in Hstep. destruct (progress s); try done.
    destruct (progressDone s); [|done]. by injection Hstep as <-.
Qed.

(** A concurrency of zero: the channel is unbuffered, no send on it ever
    goes through, so with at least one file [processFiles] never returns, no
    file is ever probed and no slot is ever written; it does not panic
    either. *)
Theorem processFiles_zero_concurrency sched s :
  effective = 0 -> files <> [] ->
  run sched (start maxConcurrency) = Some s ->
  (forall g wk, workers s !! g = Some wk -> pc wk = WBlocked) /\
  halted s = false /\
  semaphore s = 0 /\ processed s = 0 /\
  results s = replicate (length files) zeroResult /\
  forall g, probesOf g (trace s) = [].
Proof.
  intros Hzero Hfiles Hrun.
  pose proof (run_reachable _ _ _ _ _ _ _ (reachable_start _ _ _ _) Hrun) as Hreach.
  assert (0 <= effective) as Hpos by lia.
  pose proof (reachable_Inv _ _ _ _ _ Hpos Hreach) as HI.
  pose proof (zero_capacity_blocked _ Hzero Hreach) as Hblocked.
  assert (forall f, (f WBlocked = 0)%nat -> tally f (workers s) = 0%nat) as Hnone.
  { intros f Hf. clear -Hblocked Hf. unfold tally.
    induction (workers s) as [|wk ws IH]; [done|].
    simpl. rewrite (Hblocked 0%nat wk eq_refl), Hf. simpl. apply IH.
    intros g wk' Hg. by apply (Hblocked (S g)). }
  split; [done|]. split.
  { pose proof (inv_main _ _ _ _ _ HI) as Im. unfold halted.
    destruct (main s) as [| | |out|] eqn:Hmain; try done.
    destruct Im as (Hlen & _).
    destruct files as [|f fs] eqn:Hf; [done|].
    destruct (lookup_lt_is_Some_2 (workers s) 0%nat) as [wk Hwk]; [simpl in Hlen; lia|].
    pose proof (returned_all_done _ _ _ _ _ _ _ _ HI Hmain Hwk) as Hd.
    rewrite (Hblocked _ _ Hwk) in Hd. done. }
  split; [rewrite (inv_semaphore _ _ _ _ _ HI), Hnone; done|].
  split; [rewrite (inv_processed _ _ _ _ _ HI), Hnone; done|].
  assert (forall g, pcAt (workers s) g = WBlocked) as Hat.
  { intros g. unfold pcAt. destruct (workers s !! g) as [wk|] eqn:Hg; [|done].
    by apply (Hblocked g). }
  split.
  - apply list_eq. intros g. destruct (decide (g < length files)%nat) as [Hg|Hg].
    + destruct (inv_slots _ _ _ _ _ HI g) as [_ _ _ S4 _].
      rewrite (S4 Hg), Hat. simpl. symmetry. by apply lookup_replicate_2.
    + rewrite !lookup_ge_None_2; [done|rewrite length_replicate; lia|].
      rewrite (inv_results _ _ _ _ _ HI). lia.
  - intros g. destruct (inv_slots _ _ _ _ _ HI g) as [S1 _ _ _ _].
    rewrite Hat in S1. by apply nil_length_inv.
Qed.


End SchedulerExtras.

(** No input file: whatever the capacity of the channel (zero included),
    [processFiles] can return, every run that returns gives an empty slice,
    and no worker is ever started nor any file probed. *)
Theorem processFiles_empty_input `{GoRuntime} quiet numCPU maxConcurrency :
  0 <= effectiveConcurrency numCPU maxConcurrency ->
  (exists sched s,
     run [] sched (start [] quiet numCPU maxConcurrency) = Some s /\
     main s = MReturned []) /\
  (forall sched s,
     run [] sched (start [] quiet numCPU maxConcurrency) = Some s ->
     workers s = [] /\ (forall g, probesOf g (trace s) = []) /\
     forall out, main s = MReturned out -> out = []).
Proof.
  intros Hpos.
  assert ((effectiveConcurrency numCPU maxConcurrency <? 0) = false) as Hlt
    by (apply Z.ltb_ge; lia).
  split.
  - destruct quiet.
    + eexists [LMain; LMain; LMain], _. unfold start. rewrite Hlt. cbn.
      split; reflexivity.
    + eexists [LMain; LMain; LProgressDone; LMain], _. unfold start. rewrite Hlt. cbn.
      split; reflexivity.
  - intros sched s Hrun.
    pose proof (run_reachable _ _ _ _ _ _ _ (reachable_start _ _ _ _) Hrun) as Hreach.
    pose proof (reachable_Inv _ _ _ _ _ Hpos Hreach) as HI.
    pose proof (Inv_workers_le _ _ _ _ _ HI) as Hle. simpl in Hle.
    assert (workers s = []) as Hnil by (apply nil_length_inv; lia).
    split; [done|]. split.
    + intros g. destruct (inv_slots _ _ _ _ _ HI g) as [S1 _ _ _ _].
      rewrite Hnil in S1. by apply nil_length_inv.
    + intros out Hmain. pose proof (inv_main _ _ _ _ _ HI) as Im. rewrite Hmain in Im.
      destruct Im as (_ & _ & _ & _ & -> & _).
      apply nil_length_inv. apply (inv_results _ _ _ _ _ HI).
Qed.

(** ** More about [analyzeFileWithFFProbe] *)

Definition isVideo (stream : FFProbeStream.t) : bool :=
  String.eqb (FFProbeStream.CodecType stream) "video".

Module GoStrconvFacts.
Import GoInt GoStrconv.

Lemma parseUintLoop_range s n :
  0 <= n <= maxUint64 -> 0 <= fst (parseUintLoop s n) <= maxUint64.
Proof.
  revert n. induction s as [|c s IH]; intros n Hn; simpl; [done|].
  unfold digitVal.
  destruct ((48 <=? GoStrings.byteOf c) && (GoStrings.byteOf c <=? 57)) eqn:Hd; simpl.
  - apply andb_true_iff in Hd as [H1 H2]. apply Z.leb_le in H1, H2.
    destruct (Z.geb_spec n (maxUint64 / 10 + 1)); simpl; [by vm_compute|].
    destruct (Z.gtb_spec (n * 10 + (GoStrings.byteOf c - 48)) maxUint64); simpl;
      [by vm_compute|]. apply IH. lia.
  - by vm_compute.
Qed.

Lemma ParseUint_range s : 0 <= fst (ParseUint s) <= maxUint64.
Proof.
  unfold ParseUint. destruct s; [by vm_compute|]. apply parseUintLoop_range. by vm_compute.
Qed.

(** [strconv.ParseInt] returns an [int64], which is [0] on a syntax error and
    the nearest bound on a range error. *)
Lemma ParseInt_range s :
  inInt64 (fst (ParseInt s)) /\
  (snd (ParseInt s) = Some ErrSyntax -> fst (ParseInt s) = 0) /\
  (snd (ParseInt s) = Some ErrRange ->
   fst (ParseInt s) = maxInt64 \/ fst (ParseInt s) = minInt64).
Proof.
  unfold ParseInt. destruct s as [|c rest]; [by vm_compute|].
  cbv zeta. destruct (ParseUint _) as [un [[]|]] eqn:Hu; simpl.
  - split; [by vm_compute|]. split; [done|]. done.
  - destruct (_ && _); simpl; [split; [by vm_compute|split; [done|auto]]|].
    destruct (_ && _); simpl; [split; [by vm_compute|split; [done|auto]]|].
    split; [apply GoIntFacts.int64_range|]. done.
  - destruct (_ && _); simpl; [split; [by vm_compute|split; [done|auto]]|].
    destruct (_ && _); simpl; [split; [by vm_compute|split; [done|auto]]|].
    split; [apply GoIntFacts.int64_range|]. done.
Qed.

End GoStrconvFacts.

Section AnalyzeExtras.
Context `{GoRuntime}.

Lemma selectStep_video a streams hv :
  snd (fold_left selectStep streams (Some a, hv)) = hv || existsb isVideo streams.
Proof.
  revert hv. induction streams as [|st streams IH]; intros hv; simpl.
  - by rewrite orb_false_r.
  - rewrite andb_false_r. unfold isVideo at 1.
    destruct (String.eqb (FFProbeStream.CodecType st) "video"); rewrite IH.
    + by rewrite orb_true_r, orb_true_l.
    + done.
Qed.

(** [hasVideo] is set exactly when some stream has the type "video". *)
Lemma selectStreams_video streams :
  is_Some (fst (selectStreams streams)) ->
  snd (selectStreams streams) = existsb isVideo streams.
Proof.
  unfold selectStreams.
  assert (forall hv,
            is_Some (fst (fold_left selectStep streams (None, hv))) ->
            snd (fold_left selectStep streams (None, hv)) = hv || existsb isVideo streams)
    as Hgen.
  { induction streams as [|st streams IH]; intros hv; simpl.
    - by intros [? [=]].
    - unfold isVideo at 1.
      destruct (String.eqb_spec (FFProbeStream.CodecType st) "audio") as [Ha|Ha]; simpl.
      + intros _. rewrite selectStep_video.
        rewrite Ha. simpl. done.
      + destruct (String.eqb (FFProbeStream.CodecType st) "video"); intros Hs.
        * rewrite (IH _ Hs). by rewrite orb_true_r.
        * by apply IH. }
  intros Hs. by rewrite Hgen.
Qed.

Lemma selectStreams_none streams :
  fst (selectStreams streams) = None <-> existsb isAudio streams = false.
Proof.
  rewrite selectStreams_first. induction streams as [|st streams IH]; simpl; [done|].
  destruct (isAudio st); simpl; [done|exact IH].
Qed.

(** The four ways a call fails, in the order they are tried, and the only
    way it succeeds: the file can be read, ffprobe ran, its output was
    decoded and one of its streams has the type "audio". The errors of
    [os.Stat] hide those of ffprobe. *)
Theorem analyze_outcomes w path :
  match statResult w, probeRun w with
  | inl err, _ =>
      analyzeFileWithFFProbe w path = failure ("ファイルが見つかりません: " +:+ err)
  | inr _, ExecFailed err =>
      analyzeFileWithFFProbe w path = failure ("ffprobe実行エラー: " +:+ err)
  | inr _, BadJSON err =>
      analyzeFileWithFFProbe w path = failure ("JSONパースエラー: " +:+ err)
  | inr _, Parsed probeData =>
      if existsb isAudio (Streams probeData)
      then is_Some (Info (analyzeFileWithFFProbe w path)) /\
           Error (analyzeFileWithFFProbe w path) = None
      else analyzeFileWithFFProbe w path = failure "音声ストリームが見つかりません"
  end.
Proof.
  unfold analyzeFileWithFFProbe.
  destruct (statResult w) as [err|size]; [done|].
  destruct (probeRun w) as [err|err|data]; [done|done|].
  destruct (selectStreams (Streams data)) as [[a|] hv] eqn:Hsel.
  - destruct (existsb isAudio (Streams data)) eqn:Hex.
    + simpl. eauto.
    + apply selectStreams_none in Hex. rewrite Hsel in Hex. done.
  - assert (existsb isAudio (Streams data) = false) as ->; [|done].
    apply selectStreams_none. by rewrite Hsel.
Qed.

(** What the record of a successful call holds: the path as given, the size
    [os.Stat] reported, the codec and the channels of the first audio stream,
    the names of the format, whether some stream is a video stream, and the
    time the call took. *)
Theorem analyze_fields w path info :
  Info (analyzeFileWithFFProbe w path) = Some info ->
  exists fileSize probeData audioStream,
    statResult w = inr fileSize /\
    probeRun w = Parsed probeData /\
    head (List.filter isAudio (Streams probeData)) = Some audioStream /\
    AudioInfo.FilePath info = path /\
    AudioInfo.FileSize info = fileSize /\
    AudioInfo.DurationSeconds info = ParseFloat (FFProbeFormat.Duration (Format probeData)) /\
    AudioInfo.SampleRate info = fst (GoStrconv.Atoi (FFProbeStream.SampleRate audioStream)) /\
    AudioInfo.Channels info = FFProbeStream.Channels audioStream /\
    AudioInfo.CodecName info = FFProbeStream.CodecName audioStream /\
    AudioInfo.CodecLongName info = FFProbeStream.CodecLongName audioStream /\
    AudioInfo.FormatName info = FFProbeFormat.FormatName (Format probeData) /\
    AudioInfo.FormatLongName info = FFProbeFormat.FormatLongName (Format probeData) /\
    AudioInfo.HasVideo info = existsb isVideo (Streams probeData) /\
    AudioInfo.ProcessingTimeMs info = elapsedMs w.
Proof.
  unfold analyzeFileWithFFProbe, failure, success.
  destruct (statResult w) as [e|size]; [done|].
  destruct (probeRun w) as [e|e|data]; [done|done|].
  destruct (selectStreams (Streams data)) as [[a|] hv] eqn:Hsel; [|done].
  simpl. intros [= <-]. exists size, data, a. simpl.
  pose proof (selectStreams_first (Streams data)) as Hfirst.
  pose proof (selectStreams_video (Streams data)) as Hvideo.
  rewrite Hsel in Hfirst, Hvideo. simpl in *.
  repeat split; try done. apply Hvideo. eauto.
Qed.

(** The numbers of a record are [int64] values whatever ffprobe printed: a
    bit rate or a sample rate that is no decimal number reads as 0, one that
    does not fit is cut to the nearest bound. *)
Theorem analyze_numbers w path info :
  Info (analyzeFileWithFFProbe w path) = Some info ->
  GoInt.inInt64 (AudioInfo.BitRate info) /\
  GoInt.inInt64 (AudioInfo.SampleRate info) /\
  exists probeData audioStream,
    probeRun w = Parsed probeData /\
    head (List.filter isAudio (Streams probeData)) = Some audioStream /\
    (snd (GoStrconv.Atoi (FFProbeStream.SampleRate audioStream)) = Some GoStrconv.ErrSyntax ->
     AudioInfo.SampleRate info = 0) /\
    (snd (GoStrconv.ParseInt (FFProbeFormat.BitRate (Format probeData)))
       = Some GoStrconv.ErrSyntax ->
     snd (GoStrconv.ParseInt (FFProbeStream.BitRate audioStream))
       = Some GoStrconv.ErrSyntax ->
     AudioInfo.BitRate info = 0).
Proof.
  unfold analyzeFileWithFFProbe, failure, success.
  destruct (statResult w) as [e|size]; [done|].
  destruct (probeRun w) as [e|e|data]; [done|done|].
  destruct (selectStreams (Streams data)) as [[a|] hv] eqn:Hsel; [|done].
  simpl. intros [= <-]. simpl.
  pose proof (selectStreams_first (Streams data)) as Hfirst.
  rewrite Hsel in Hfirst. simpl in Hfirst.
  destruct (GoStrconvFacts.ParseInt_range (FFProbeFormat.BitRate (Format data)))
    as (Hf1 & Hf2 & _).
  destruct (GoStrconvFacts.ParseInt_range (FFProbeStream.BitRate a)) as (Hs1 & Hs2 & _).
  destruct (GoStrconvFacts.ParseInt_range (FFProbeStream.SampleRate a)) as (Hr1 & Hr2 & _).
  split; [unfold chooseBitRate; by destruct (_ && _)|].
  split; [done|]. exists data, a. repeat split; try done.
  intros Hfe Hse. unfold chooseBitRate. rewrite (Hf2 Hfe), (Hs2 Hse). done.
Qed.

Lemma lowerTags_fold_value (l : list (string * string)) (acc : gmap string string) k v :
  fold_left (fun metadata kv => <[ToLower kv.1 := kv.2]> metadata) l acc !! k = Some v ->
  (acc !! k = Some v /\ forall kv, kv ∈ l -> ToLower kv.1 <> k) \/
  exists kv, kv ∈ l /\ ToLower kv.1 = k /\ kv.2 = v.
Proof.
  revert acc. induction l as [|kv l IH]; intros acc; simpl.
  - intros Hacc. left. split; [done|]. intros kv Hin. by apply elem_of_nil in Hin.
  - intros Hf. destruct (IH _ Hf) as [[Hacc Hno]|(kv' & Hin & Hk & Hv)].
    + destruct (decide (ToLower kv.1 = k)) as [Heq|Hne].
      * rewrite <- Heq, lookup_insert_eq in Hacc. injection Hacc as Hv.
        right. exists kv. split; [left|done].
      * rewrite lookup_insert_ne in Hacc by done. left. split; [done|].
        intros kv' Hin. apply elem_of_cons in Hin as [->|Hin]; auto.
    + right. exists kv'. split; [by right|done].
Qed.

(** A value of [lowerTags tags] is the value of a tag with that key in lower
    case. *)
Lemma lowerTags_value tags k v :
  lowerTags tags !! k = Some v -> exists k0, tags !! k0 = Some v /\ ToLower k0 = k.
Proof.
  unfold lowerTags. intros Hf.
  apply lowerTags_fold_value in Hf as [[Hacc _]|([k0 v0] & Hin & Hk & Hv)].
  - by rewrite lookup_empty in Hacc.
  - rewrite rangeOrder_perm in Hin. apply elem_of_map_to_list in Hin.
    simpl in *. subst. eauto.
Qed.

(** The tags of ffprobe reach the record under their key in lower case: a
    value of the metadata is the value of such a tag or one of the three
    defaults, a default stands only where no tag has the key, and a tag whose
    lower-case key no other tag shares keeps its value, the empty one too. *)
Theorem analyze_tags_kept w path info :
  Info (analyzeFileWithFFProbe w path) = Some info ->
  exists probeData,
    probeRun w = Parsed probeData /\
    let tags := FFProbeFormat.Tags (Format probeData) in
    let metadata := AudioInfo.Metadata info in
    (forall k v, metadata !! k = Some v ->
       (exists k0, tags !! k0 = Some v /\ ToLower k0 = k) \/
       ((forall k0, is_Some (tags !! k0) -> ToLower k0 <> k) /\
        ((k = "title" /\ v = defaultTitle path) \/
         (k = "artist" /\ v = "Unknown Artist") \/
         (k = "album" /\ v = "Unknown Album")))) /\
    (forall k0 v, tags !! k0 = Some v ->
       (forall k1, is_Some (tags !! k1) -> ToLower k1 = ToLower k0 -> k1 = k0) ->
       metadata !! ToLower k0 = Some v).
Proof.
  intros Hinfo. destruct (analyze_success_inv _ _ _ Hinfo)
    as (size & data & a & hv & _ & Hrun & _ & _ & Hmeta).
  exists data. split; [done|]. cbv zeta. rewrite Hmeta. split.
  - intros k v Hk. rewrite !setDefault_lookup in Hk.
    assert (forall key, lowerTags (FFProbeFormat.Tags (Format data)) !! key = None ->
              forall k0, is_Some (FFProbeFormat.Tags (Format data) !! k0) ->
                         ToLower k0 <> key) as Habsent.
    { intros key Hnone k0 Hk0 Hlow. apply eq_None_not_Some in Hnone. apply Hnone.
      apply lowerTags_lookup. eauto. }
    repeat case_decide; subst; simplify_eq.
    1-3: match goal with |- context [lowerTags ?t !! ?key] =>
           destruct (lowerTags t !! key) as [v'|] eqn:Hl; simpl;
           [left; by apply lowerTags_value
           |right; split; [by apply Habsent|auto]]
         end.
    left. by apply lowerTags_value.
  - intros k0 v Hk0 Huniq.
    assert (lowerTags (FFProbeFormat.Tags (Format data)) !! ToLower k0 = Some v) as Hl.
    { destruct (proj2 (lowerTags_lookup (FFProbeFormat.Tags (Format data)) (ToLower k0)))
        as [v' Hv']; [eauto|].
      rewrite Hv'. apply lowerTags_value in Hv' as (k1 & Hk1 & Hlow).
      rewrite (Huniq k1) in Hk1 by eauto. congruence. }
    rewrite !setDefault_lookup. repeat case_decide; try done.
    all: match goal with Heq : _ = ToLower _ |- _ => rewrite Heq end; by rewrite Hl.
Qed.

End AnalyzeExtras.

(** ** The report, beyond the statistics *)

Section ReportExtras.
Context `{GoRuntime}.
Variable jsonElement : AudioInfo.t -> string + string.

Lemma resultLines_status results :
  snd (resultLines results) = if forallb hasOutcome results then Finished else Crashed.
Proof.
  induction results as [|r rs IH]; [done|].
  simpl. unfold hasOutcome at 1.
  destruct (resultLines rs) as [text st]. simpl in IH.
  destruct (Error r) as [err|]; simpl; [done|].
  destruct (Info r) as [info|]; simpl; done.
Qed.

Lemma resultLines_until pre r post :
  forallb hasOutcome pre = true -> hasOutcome r = false ->
  fst (resultLines (pre ++ r :: post)) = fst (resultLines pre).
Proof.
  intros Hpre Hr. induction pre as [|a pre IH].
  - simpl. unfold hasOutcome in Hr.
    destruct (Error r); [done|]. by destruct (Info r).
  - simpl in Hpre. apply andb_true_iff in Hpre as [_ Hpre]. specialize (IH Hpre).
    simpl. destruct (resultLines (pre ++ r :: post)) as [t1 s1].
    destruct (resultLines pre) as [t2 s2]. simpl in IH. subst t2.
    destruct (Error a); [done|]. by destruct (Info a).
Qed.

(** [outputText] ends in one of two ways, never with an error: it returns
    [nil], or it panics, and it panics exactly when some result has neither
    an error nor a record. The statistics, which count every result, are
    written before the panic, and so are the lines of the results before the
    first such result. *)
Theorem outputText_status results :
  snd (outputText results) = (if forallb hasOutcome results then Finished else Crashed) /\
  forall pre r post,
    results = pre ++ r :: post ->
    forallb hasOutcome pre = true -> hasOutcome r = false ->
    outputText results = (statsLines results +:+ fst (resultLines pre), Crashed).
Proof.
  unfold outputText. pose proof (resultLines_status results) as Hst. split.
  - by destruct (resultLines results).
  - intros pre r post -> Hpre Hr.
    pose proof (resultLines_until pre r post Hpre Hr) as Htext.
    destruct (resultLines (pre ++ r :: post)) as [text st]. simpl in *. subst.
    rewrite forallb_app. simpl. rewrite Hr, andb_false_r. done.
Qed.

Lemma jsonElements_spec infos :
  match jsonElements jsonElement infos with
  | inr es => Forall2 (fun info e => jsonElement info = inr e) infos es
  | inl err =>
      exists pre info post es,
        infos = pre ++ info :: post /\
        Forall2 (fun info e => jsonElement info = inr e) pre es /\
        jsonElement info = inl err
  end.
Proof.
  induction infos as [|info rest IH]; simpl; [constructor|].
  destruct (jsonElement info) as [err|e] eqn:He.
  - exists [], info, rest, []. repeat split; [constructor|done].
  - destruct (jsonElements jsonElement rest) as [err|es].
    + destruct IH as (pre & info' & post & es & -> & Hpre & Herr).
      exists (info :: pre), info', post, (e :: es). repeat split; [|done].
      by constructor.
    + by constructor.
Qed.

Lemma jsonElements_ok infos es :
  Forall2 (fun info e => jsonElement info = inr e) infos es ->
  jsonElements jsonElement infos = inr es.
Proof.
  induction 1 as [|info e infos es He _ IH]; simpl; [done|]. by rewrite He, IH.
Qed.

Lemma jsonElements_error pre info post es err :
  Forall2 (fun info e => jsonElement info = inr e) pre es ->
  jsonElement info = inl err ->
  jsonElements jsonElement (pre ++ info :: post) = inl err.
Proof.
  induction 1 as [|i e pre es He _ IH]; simpl; intros Herr; [by rewrite Herr|].
  by rewrite He, IH.
Qed.

(** The JSON report has one element for each successful result, in the order
    of the results, and nothing for the others; with no success it is
    [null]. The first record the encoder refuses makes the function return
    that error, and then nothing at all is written. *)
Theorem outputJSON_elements results :
  (forall es,
     Forall2 (fun info e => jsonElement info = inr e) (validResults results) es ->
     outputJSON jsonElement results =
       (match es with
        | [] => "null" +:+ nl
        | _ => "[" +:+ nl +:+ joinElements es +:+ "]" +:+ nl
        end, Finished)) /\
  (forall pre info post es err,
     validResults results = pre ++ info :: post ->
     Forall2 (fun info e => jsonElement info = inr e) pre es ->
     jsonElement info = inl err ->
     outputJSON jsonElement results = (EmptyString, Failed err)).
Proof.
  unfold outputJSON. split.
  - intros es Hes. pose proof (jsonElements_ok _ _ Hes) as Hok.
    destruct Hes as [|info e infos es He Hrest]; [done|]. by rewrite Hok.
  - intros pre info post es err Hvalid Hpre Herr.
    pose proof (jsonElements_error pre info post es err Hpre Herr) as Hfail.
    destruct (validResults results) as [|i infos]; [by destruct pre|].
    by rewrite Hvalid, Hfail.
Qed.

Lemma concat_skip_empty (lines : list (string * string)) :
  concat (map (fun kv : string * string =>
                 if String.eqb kv.2 "" then ""
                 else "     " +:+ kv.1 +:+ ": " +:+ kv.2 +:+ nl) lines) =
  concat (map (fun kv : string * string => "     " +:+ kv.1 +:+ ": " +:+ kv.2 +:+ nl)
            (filter (fun kv : string * string => kv.2 <> "") lines)).
Proof.
  induction lines as [|kv lines IH]; [done|].
  rewrite filter_cons. cbn [map concat fold_right].
  destruct (String.eqb_spec kv.2 "") as [He|Hne].
  - rewrite decide_False by (intros Hn; by apply Hn).
    rewrite GoStringsFacts.append_nil_l. exact IH.
  - rewrite decide_True by done. cbn [map concat fold_right]. f_equal. exact IH.
Qed.

(** The metadata of a file in the text report: nothing for an empty map;
    otherwise the heading, then one line for each entry whose value is not
    empty and none for the others, in an order the program does not fix. A
    map whose values are all empty still gets the heading. *)
Theorem metadataLines_entries (metadata : gmap string string) :
  (metadata = ∅ -> metadataLines metadata = EmptyString) /\
  (metadata <> ∅ ->
   exists entries,
     entries ≡ₚ map_to_list (filter (fun kv : string * string => kv.2 <> "") metadata) /\
     metadataLines metadata =
       "   メタデータ:" +:+ nl +:+
       concat (map (fun kv : string * string =>
                      "     " +:+ kv.1 +:+ ": " +:+ kv.2 +:+ nl) entries)).
Proof.
  unfold metadataLines. split.
  - intros ->. by rewrite map_size_empty.
  - intros Hne. apply map_size_non_empty_iff in Hne.
    rewrite bool_decide_eq_true_2 by lia.
    exists (filter (fun kv : string * string => kv.2 <> "") (rangeOrder metadata)).
    split; [|by rewrite concat_skip_empty].
    rewrite (rangeOrder_perm metadata).
    apply NoDup_Permutation.
    + apply NoDup_filter, NoDup_map_to_list.
    + apply NoDup_map_to_list.
    + intros [k v]. rewrite list_elem_of_filter, !elem_of_map_to_list.
      rewrite map_lookup_filter_Some. simpl. tauto.
Qed.

(** The three shapes of a duration: below one minute (and for every negative
    duration) the seconds with one decimal; below one hour the minutes and
    the whole seconds; from one hour on the hours, the minutes and the
    seconds. The parts add up to the duration cut to whole seconds. *)
Theorem formatDuration_units seconds :
  (truncFloat seconds < 60 ->
   formatDuration seconds = fmtFloat 1 seconds +:+ "秒") /\
  (60 <= truncFloat seconds < 3600 ->
   formatDuration seconds =
     GoStrings.fmtInt (truncFloat seconds / 60) +:+ "分" +:+
     GoStrings.fmtInt (truncFloat seconds mod 60) +:+ "秒") /\
  (3600 <= truncFloat seconds ->
   formatDuration seconds =
     GoStrings.fmtInt (truncFloat seconds / 3600) +:+ "時間" +:+
     GoStrings.fmtInt ((truncFloat seconds / 60) mod 60) +:+ "分" +:+
     GoStrings.fmtInt (truncFloat seconds mod 60) +:+ "秒" /\
   truncFloat seconds =
     truncFloat seconds / 3600 * 3600 + (truncFloat seconds / 60) mod 60 * 60
     + truncFloat seconds mod 60).
Proof.
  unfold formatDuration. generalize (truncFloat seconds) as total. intros total.
  cbv zeta. split; [|split; [|intros Hlo; split]].
  - intros Hlt.
    assert (Z.quot total 3600 <= 0) as Hh.
    { destruct (Z_le_gt_dec 0 total) as [Hpos|Hneg].
      - rewrite Z.quot_small by lia. lia.
      - apply Z.quot_le_upper_bound; lia. }
    assert (Z.quot (Z.rem total 3600) 60 <= 0) as Hm.
    { destruct (Z_le_gt_dec 0 total) as [Hpos|Hneg].
      - rewrite Z.rem_small by lia. rewrite Z.quot_small by lia. lia.
      - pose proof (Z.rem_nonpos total 3600 ltac:(lia) ltac:(lia)).
        apply Z.quot_le_upper_bound; lia. }
    destruct (Z.gtb_spec (Z.quot total 3600) 0); [lia|].
    destruct (Z.gtb_spec (Z.quot (Z.rem total 3600) 60) 0); [lia|]. done.
  - intros [Hlo Hhi].
    rewrite (Z.quot_small total 3600) by lia.
    rewrite (Z.rem_small total 3600) by lia.
    rewrite Z.quot_div_nonneg, Z.rem_mod_nonneg by lia. cbn [Z.gtb Z.compare].
    assert (0 < total / 60) as Hm by (apply Z.div_str_pos; lia).
    destruct (Z.gtb_spec (total / 60) 0); [done|lia].
  - assert (0 <= Z.rem total 3600) as Hr by (apply Z.rem_nonneg; lia).
    rewrite !Z.quot_div_nonneg, !Z.rem_mod_nonneg by lia.
    assert (0 < total / 3600) as Hh by (apply Z.div_str_pos; lia).
    destruct (Z.gtb_spec (total / 3600) 0); [|lia].
    assert ((total mod 3600) / 60 = (total / 60) mod 60) as ->; [|done].
    pose proof (Z.div_mod total 3600 ltac:(lia)).
    pose proof (Z.mod_pos_bound total 3600 ltac:(lia)).
    pose proof (Z.div_mod (total mod 3600) 60 ltac:(lia)).
    pose proof (Z.mod_pos_bound (total mod 3600) 60 ltac:(lia)).
    assert (total / 60 = total / 3600 * 60 + (total mod 3600) / 60) as Hq.
    { symmetry. apply (Z.div_unique_pos total 60 _ ((total mod 3600) mod 60)); lia. }
    rewrite Hq.
    apply (Z.mod_unique_pos _ 60 (total / 3600) ((total mod 3600) / 60)); [|lia].
    split; [apply Z.div_pos; lia|apply Z.div_lt_upper_bound; lia].
  - pose proof (Z.div_mod total 60 ltac:(lia)).
    pose proof (Z.div_mod (total / 60) 60 ltac:(lia)).
    assert (total / 60 / 60 = total / 3600) as Hdd
      by (rewrite Z.div_div by lia; done).
    lia.
Qed.

End ReportExtras.

(** ** The entry point *)

Section MainExtras.
Context `{GoRuntime}.
Variable jsonElement : AudioInfo.t -> string + string.


Lemma mainStart_Process flags checkFFProbe stat
    audioFiles maxConcurrency quiet format outputFile :
  mainStart flags checkFFProbe stat
    = Process audioFiles maxConcurrency quiet format outputFile ->
  Flags.showVersion flags = false /\ checkFFProbe = true /\
  (1 <= length audioFiles)%nat /\
  collectAudioFiles stat (Flags.args flags) (Flags.recursive flags) = inr audioFiles /\
  Forall (fun p => In (ToLower (GoFilepath.Ext p)) audioExtensionNames) audioFiles /\
  maxConcurrency = Flags.concurrency flags /\
  quiet = Flags.quiet flags /\
  outputFile = Flags.outputFile flags /\
  (Flags.jsonFlag flags = true -> format = "json") /\
  (Flags.jsonFlag flags = false -> format = Flags.outputFormat flags).
Proof.
  unfold mainStart. destruct (Flags.showVersion flags); [done|].
  destruct (Flags.args flags) as [|arg rest] eqn:Hargs; [done|].
  destruct checkFFProbe; simpl; [|done].
  destruct (collectAudioFiles stat (arg :: rest) (Flags.recursive flags))
    as [err|[|p ps]] eqn:Hcollect; [done|done|].
  intros [= <- <- <- <- <-]. repeat split; try done.
  - simpl. lia.
  - rewrite collectAudioFiles_loop in Hcollect.
    destruct (candidates stat (Flags.recursive flags) (arg :: rest)) as [|fs]; [done|].
    injection Hcollect as Hfs. rewrite <- Hfs.
    apply List.Forall_forall. intros q Hq.
    apply filter_In in Hq as [_ Hq]. by apply hasAudioExtension_spec.
  - by intros ->.
  - by intros ->.
Qed.

(** [processFiles] is called only without [-version], with ffprobe at hand,
    and with at least one file; every file it is given has an audio
    extension; [-json] sets the format whatever [-format] says. *)
Theorem main_processes_audio_files flags checkFFProbe stat
    audioFiles maxConcurrency quiet format outputFile :
  mainStart flags checkFFProbe stat
    = Process audioFiles maxConcurrency quiet format outputFile ->
  Flags.showVersion flags = false /\ checkFFProbe = true /\
  (1 <= length audioFiles)%nat /\
  collectAudioFiles stat (Flags.args flags) (Flags.recursive flags) = inr audioFiles /\
  Forall (fun p => In (ToLower (GoFilepath.Ext p)) audioExtensionNames) audioFiles /\
  maxConcurrency = Flags.concurrency flags /\
  quiet = Flags.quiet flags /\
  outputFile = Flags.outputFile flags /\
  (Flags.jsonFlag flags = true -> format = "json") /\
  (Flags.jsonFlag flags = false -> format = Flags.outputFormat flags).
Proof. apply mainStart_Process. Qed.


(** The exit status after a run. Whatever [processFiles] returns is printed
    without a panic. In the text format the status is 0 when the sink can be
    written, however many files failed, all of them included; in the JSON
    format it is 0 or 1, and 0 when the encoder accepts every record. *)
Theorem main_exit_status flags checkFFProbe stat numCPU create
    audioFiles maxConcurrency quiet format outputFile sched s out :
  mainStart flags checkFFProbe stat
    = Process audioFiles maxConcurrency quiet format outputFile ->
  run audioFiles sched (start audioFiles quiet numCPU maxConcurrency) = Some s ->
  main s = MReturned out ->
  length out = length audioFiles /\
  (exitCode (snd (outputResults jsonElement create out format outputFile)) = 0 \/
   exitCode (snd (outputResults jsonElement create out format outputFile)) = 1) /\
  (Flags.outputFile flags = EmptyString \/ create (Flags.outputFile flags) = None ->
   (Flags.jsonFlag flags = false /\ Flags.outputFormat flags <> "json") \/
   Forall (fun info => exists e, jsonElement info = inr e) (validResults out) ->
   exitCode (snd (outputResults jsonElement create out format outputFile)) = 0).
Proof.
  intros Hstart Hrun Hret.
  destruct (mainStart_Process _ _ _ _ _ _ _ _ Hstart)
    as (_ & _ & _ & _ & _ & _ & _ & Hfile & _ & Hformat).
  assert (reachable audioFiles quiet numCPU maxConcurrency s) as Hreach.
  { eapply run_reachable; [apply reachable_start|exact Hrun]. }
  assert (Forall validOutcome out) as Hvalid
    by exact (returned_validOutcome _ _ _ _ _ _ Hreach Hret).
  destruct (resultLines_valid out Hvalid) as [Htext _].
  assert (snd (outputText out) = Finished) as Htxt.
  { unfold outputText. by destruct (resultLines out). }
  assert (forall err, snd (outputJSON jsonElement out) = Failed err ->
            exists info, In info (validResults out) /\ jsonElement info = inl err) as Hjs.
  { unfold outputJSON. intros err.
    destruct (validResults out) as [|i infos]; [done|].
    pose proof (jsonElements_spec jsonElement (i :: infos)) as Hspec.
    destruct (jsonElements jsonElement (i :: infos)) as [e|es]; [|done].
    intros [= ->]. destruct Hspec as (pre & info & post & es & -> & _ & Herr).
    exists info. split; [|done]. apply in_or_app. right. by left. }
  assert (snd (outputJSON jsonElement out) <> Crashed) as Hnc.
  { unfold outputJSON. destruct (validResults out); [done|].
    by destruct (jsonElements _ _). }
  split.
  { pose proof (reachable_results_length _ _ _ _ _ Hreach) as Hlen.
    pose proof (reachable_returned_Inv _ _ _ _ _ _ Hreach Hret) as HI.
    pose proof (inv_main _ _ _ _ _ HI) as Im. rewrite Hret in Im.
    destruct Im as (_ & _ & _ & _ & Hout & _). by rewrite Hout. }
  unfold outputResults. split.
  - destruct (String.eqb outputFile ""); [|destruct (create outputFile); [by right|]];
      (destruct (String.eqb format "json");
       [destruct (snd (outputJSON jsonElement out)); simpl; auto; done
       |rewrite Htxt; by left]).
  - rewrite <- Hfile. intros Hsink Hfmt.
    assert (format <> "json" \/
            Forall (fun info => exists e, jsonElement info = inr e) (validResults out))
      as Hfmt'.
    { destruct Hfmt as [[Hj Hf]|Hall]; [left|by right]. by rewrite (Hformat Hj). }
    clear Hfmt. rename Hfmt' into Hfmt.
    assert ((if String.eqb outputFile "" then
               if String.eqb format "json" then outputJSON jsonElement out
               else outputText out
             else match create outputFile with
                  | Some err => (EmptyString, Failed ("出力ファイルの作成に失敗: " +:+ err))
                  | None => if String.eqb format "json" then outputJSON jsonElement out
                            else outputText out
                  end)
            = if String.eqb format "json" then outputJSON jsonElement out
              else outputText out) as ->.
    { destruct Hsink as [->| ->]; [done|]. by destruct (String.eqb outputFile ""). }
    destruct (String.eqb_spec format "json") as [->|Hne].
    + destruct Hfmt as [Hne|Hall]; [done|].
      destruct (snd (outputJSON jsonElement out)) as [|err|] eqn:Hst; [done| |done].
      destruct (Hjs err eq_refl) as (info & Hin & Herr).
      rewrite List.Forall_forall in Hall. destruct (Hall info Hin) as [e He]. congruence.
    + by rewrite Htxt.
Qed.

End MainExtras.

(** A command line without [-j]: the concurrency is twice the number of
    CPUs, which [processFiles] never lowers and never warns about, and with
    which every batch is processed to the end, whatever the calls observe. *)
Theorem main_default_concurrency `{GoRuntime} numCPU args files quiet worldOf :
  1 <= numCPU -> numCPU * 12 <= GoInt.maxInt64 ->
  Flags.concurrency (defaultFlags numCPU args) = 2 * numCPU /\
  effectiveConcurrency numCPU (Flags.concurrency (defaultFlags numCPU args))
    = 2 * numCPU /\
  startLog files numCPU (Flags.concurrency (defaultFlags numCPU args)) =
    [EvLog (LogFound (Z.of_nat (length files)));
     EvLog (LogProcessing (Z.of_nat (length files)) (2 * numCPU))] /\
  exists sched s out,
    run files sched
      (start files quiet numCPU (Flags.concurrency (defaultFlags numCPU args))) = Some s /\
    main s = MReturned out /\ Forall (observes worldOf) sched.
Proof.
  intros Hcpu Hmax. cbn [defaultFlags Flags.concurrency].
  assert (GoInt.int64 (numCPU * 2) = 2 * numCPU) as ->.
  { rewrite GoIntFacts.int64_id; [lia|]. unfold GoInt.inInt64, GoInt.maxInt64 in *.
    unfold GoInt.minInt64. lia. }
  assert (cpuLimit numCPU = numCPU * 12) as Hlimit.
  { unfold cpuLimit. rewrite GoIntFacts.int64_id; [done|].
    unfold GoInt.inInt64, GoInt.maxInt64 in *. unfold GoInt.minInt64. lia. }
  assert (effectiveConcurrency numCPU (2 * numCPU) = 2 * numCPU) as Heff.
  { unfold effectiveConcurrency. rewrite Hlimit.
    destruct (Z.gtb_spec (2 * numCPU) (numCPU * 12)); [lia|done]. }
  split; [done|]. split; [exact Heff|]. split.
  - unfold startLog. rewrite Heff, Hlimit.
    destruct (Z.gtb_spec (2 * numCPU) (numCPU * 12)); [lia|done].
  - apply start_returns. rewrite Heff. lia.
Qed.

Section AnalyzeClaims.
Context `{GoRuntime}.

(** C9. For a file probed with success, the bit rate returned is the bit
    rate of the selected audio stream (the first stream of type "audio") when
    the bit rate of the format parses to 0 and the stream's parses to a
    positive value; in every other case it is the bit rate of the format. *)
Theorem analyze_bit_rate w path info :
  Info (analyzeFileWithFFProbe w path) = Some info ->
  exists probeData audioStream,
    probeRun w = Parsed probeData /\
    head (List.filter isAudio (Streams probeData)) = Some audioStream /\
    let formatRate := fst (GoStrconv.ParseInt (FFProbeFormat.BitRate (Format probeData))) in
    let streamRate := fst (GoStrconv.ParseInt (FFProbeStream.BitRate audioStream)) in
    (formatRate = 0 /\ streamRate > 0 -> AudioInfo.BitRate info = streamRate) /\
    (~ (formatRate = 0 /\ streamRate > 0) -> AudioInfo.BitRate info = formatRate).
Proof.
  intros Hinfo.
  destruct (analyze_success_inv _ _ _ Hinfo)
    as (size & data & a & hv & _ & Hrun & Hsel & Hrate & _).
  exists data, a. split; [done|]. split.
  { rewrite <- selectStreams_first, Hsel. done. }
  simpl. rewrite Hrate. unfold chooseBitRate. split.
  - intros [-> Hpos]. simpl.
    destruct (Z.gtb_spec (fst (GoStrconv.ParseInt (FFProbeStream.BitRate a))) 0); [done|lia].
  - intros Hnot.
    destruct (Z.eqb_spec (fst (GoStrconv.ParseInt (FFProbeFormat.BitRate (Format data)))) 0)
      as [Hz|Hz]; [|done].
    destruct (Z.gtb_spec (fst (GoStrconv.ParseInt (FFProbeStream.BitRate a))) 0)
      as [Hp|Hp]; [|done].
    exfalso. apply Hnot. split; [done|lia].
Qed.

(** C10. For a file probed with success, every key of the metadata map is a
    lower-cased string (the lower-cased name of a tag of the probe output, or
    one of the three default keys), and the keys "title", "artist" and
    "album" are always there: when no tag of the probe output has that name,
    "title" is the base name of the file without its extension, "artist" is
    "Unknown Artist" and "album" is "Unknown Album". *)
Theorem analyze_metadata_defaults w path info :
  Info (analyzeFileWithFFProbe w path) = Some info ->
  exists probeData,
    probeRun w = Parsed probeData /\
    let tags := FFProbeFormat.Tags (Format probeData) in
    let metadata := AudioInfo.Metadata info in
    (forall k, is_Some (metadata !! k) ->
       exists k0, k = ToLower k0 /\
         (is_Some (tags !! k0) \/ k0 = "title" \/ k0 = "artist" \/ k0 = "album")) /\
    is_Some (metadata !! "title") /\
    is_Some (metadata !! "artist") /\
    is_Some (metadata !! "album") /\
    ((forall k0, is_Some (tags !! k0) -> ToLower k0 <> "title") ->
       metadata !! "title" =
         Some (GoStrings.TrimSuffix (GoFilepath.Base path)
                 (GoFilepath.Ext (GoFilepath.Base path)))) /\
    ((forall k0, is_Some (tags !! k0) -> ToLower k0 <> "artist") ->
       metadata !! "artist" = Some "Unknown Artist") /\
    ((forall k0, is_Some (tags !! k0) -> ToLower k0 <> "album") ->
       metadata !! "album" = Some "Unknown Album").
Proof.
  intros Hinfo.
  destruct (analyze_success_inv _ _ _ Hinfo)
    as (size & data & a & hv & _ & Hrun & _ & _ & Hmeta).
  exists data. split; [done|]. simpl. rewrite Hmeta.
  set (tags := FFProbeFormat.Tags (Format data)).
  assert (forall key, (forall k0, is_Some (tags !! k0) -> ToLower k0 <> key) ->
                      lowerTags tags !! key = None) as Habsent.
  { intros key Hno. apply eq_None_not_Some. intros Hsome.
    apply lowerTags_lookup in Hsome as (k0 & Hk0 & Hlow). by apply (Hno k0). }
  repeat split.
  - intros k Hk.
    destruct (decide (k = "album")) as [->|Hal]; [exists "album"; auto|].
    destruct (decide (k = "artist")) as [->|Har]; [exists "artist"; auto|].
    destruct (decide (k = "title")) as [->|Hti]; [exists "title"; auto|].
    rewrite !setDefault_lookup in Hk. repeat case_decide; try congruence.
    apply lowerTags_lookup in Hk as (k0 & Hk0 & Hlow). exists k0. split; [done|auto].
  - rewrite !setDefault_lookup. repeat case_decide; try done; eauto.
  - rewrite !setDefault_lookup. repeat case_decide; try done; eauto.
  - rewrite !setDefault_lookup. repeat case_decide; try done; eauto.
  - intros Hno. rewrite !setDefault_lookup. repeat case_decide; try done.
    rewrite (Habsent _ Hno). done.
  - intros Hno. rewrite !setDefault_lookup. repeat case_decide; try done.
    rewrite (Habsent _ Hno). done.
  - intros Hno. rewrite !setDefault_lookup. repeat case_decide; try done.
    rewrite (Habsent _ Hno). done.
Qed.

End AnalyzeClaims.

(** ** The claims on the batch of ten files *)

Module ExampleFacts.
Import Sample Example.

Lemma example_run : run files schedule initial = Some final.
Proof. by vm_compute. Qed.

Lemma example_returned : main final = MReturned returned.
Proof. by vm_compute. Qed.

(** The files 2 and 7 failed, the others succeeded. *)
Lemma example_failures :
  map isFailure returned =
  [false; false; true; false; false; false; false; true; false; false].
Proof. by vm_compute. Qed.

(** At no moment of the run were more than three calls in flight, and three
    were at some moment. *)
Lemma example_peak :
  max_list (map (fun s => tally inFlight (workers s)) (states schedule initial)) = 3%nat.
Proof. by vm_compute. Qed.

Lemma example_counter :
  counterValues (trace final) = [1; 2; 3; 4; 5; 6; 7; 8; 9; 10] /\
  ticks (trace final) = [0; 3; 7; 10].
Proof. by vm_compute. Qed.

(** The report begins with the counts and the sums of the eight successes. *)
Lemma example_report_head :
  exists rest,
    GoStrings.stripPrefix
      ("=== 音声ファイル分析結果 ===" +:+ nl +:+ "成功: 8, 失敗: 2" +:+ nl +:+
       "総継続時間: 48.0秒" +:+ nl +:+ "総サイズ: 42.97 KB" +:+ nl)
      (fst (outputText returned)) = Some rest.
Proof. eexists. vm_compute. reflexivity. Qed.

Lemma broken_run : run brokenFiles brokenSchedule brokenInitial = Some brokenFinal.
Proof. by vm_compute. Qed.

Lemma broken_returned : main brokenFinal = MReturned [failure brokenError].
Proof. by vm_compute. Qed.

(** C1 on the batch of ten files. *)
Lemma processFiles_order_preserved_example :
  length returned = length files /\
  (forall i path, files !! i = Some path ->
     returned !! i = Some (analyzeFileWithFFProbe (world i) path)).
Proof.
  destruct (proj2 (processFiles_order_preserved files false numCPU 3)
              schedule final returned example_run example_returned)
    as (Hlen & _ & Hobs & _).
  split; [exact Hlen|]. apply Hobs.
  unfold schedule, acquire, finish. repeat (apply Forall_app; split);
    repeat constructor.
Defined.

(** C2 on the batch of ten files: each slot was written once. *)
Lemma processFiles_slots_written_once_example :
  length (results final) = length files /\
  forall i, (i < length files)%nat ->
    exists r, writesTo i (trace final) = [r] /\ returned !! i = Some r /\
              r <> zeroResult.
Proof.
  destruct (proj2 (processFiles_slots_written_once files false numCPU 3)
              schedule final example_run) as (Hlen & _ & Hwritten).
  split; [exact Hlen|exact (Hwritten returned example_returned)].
Defined.

(** C3 on the batch of ten files: two failures are counted and logged. *)
Lemma processFiles_failures_isolated_example :
  snd (countResults returned) = 2 /\
  In (EvLog (LogFailed 2)) (trace final).
Proof.
  destruct (proj2 (processFiles_failures_isolated files false numCPU 3)
              schedule final returned example_run example_returned)
    as (_ & _ & Hcount & _ & _ & Hlog).
  assert (snd (countResults returned) = 2) as Htwo by (by vm_compute).
  rewrite Htwo in Hlog. split; [done|]. apply Hlog. lia.
Defined.

(** C4 as stated fails on a completed run: the only file of the batch cannot
    be read, and the JSON report is "null", which holds neither the
    description of the failure nor any count. *)
Lemma outputJSON_omits_failure :
  run brokenFiles brokenSchedule brokenInitial = Some brokenFinal /\
  main brokenFinal = MReturned [failure brokenError] /\
  (forall jsonElement create,
     outputResults jsonElement create [failure brokenError] "json" EmptyString
       = ("null" +:+ nl, Finished)) /\
  GoStrings.Contains ("null" +:+ nl) brokenError = false /\
  GoStrings.Contains ("null" +:+ nl) "1" = false.
Proof.
  split; [exact broken_run|]. split; [exact broken_returned|].
  split; [done|]. split; by vm_compute.
Qed.

(** C4 as amended, on the batch of ten files written as text. *)
Lemma outputResults_failures_example :
  exists body,
    outputResults (fun _ => inl EmptyString) (fun _ => None) returned "text" EmptyString
      = (statsLines returned +:+ body, Finished) /\
    (forall r err, In r returned -> Error r = Some err ->
       exists pre post, body = pre +:+ nl +:+ "❌ エラー: " +:+ err +:+ nl +:+ post).
Proof.
  assert (Forall validOutcome returned) as Hvalid.
  { apply (returned_validOutcome files false numCPU 3 final).
    - exact (run_reachable files false numCPU 3 schedule initial final
               (reachable_start files false numCPU 3) example_run).
    - exact example_returned. }
  destruct (proj1 (outputResults_failures (fun _ => inl EmptyString) (fun _ => None)
                     returned "text" EmptyString Hvalid (or_introl eq_refl))
              ltac:(done)) as (body & Hout & _ & Herr).
  exists body. split; [exact Hout|exact Herr].
Defined.

(** C5 on a machine with four CPUs: a concurrency of 100 becomes 48. *)
Lemma processFiles_concurrency_clamped_example :
  effectiveConcurrency numCPU 100 = 48 /\
  In (EvLog (LogClampWarning 100 48)) (trace (start files false numCPU 100)).
Proof.
  destruct (processFiles_concurrency_clamped files false numCPU 100
              ltac:(by vm_compute) ltac:(by vm_compute)) as [Habove _].
  destruct (Habove ltac:(by vm_compute)) as (Heff & Hwarn & _).
  split; [exact Heff|exact Hwarn].
Defined.

(** C6 on the batch of ten files. *)
Lemma processFiles_progress_counter_example :
  processed final = 10 /\
  counterValues (trace final) = map Z.of_nat (seq 1 (Z.to_nat (processed final))) /\
  StronglySorted Z.le (ticks (trace final)).
Proof.
  destruct (processFiles_progress_counter files false numCPU 3 ltac:(by vm_compute))
    as [_ Hall].
  destruct (Hall schedule final example_run) as (_ & Hvalues & _ & Hsorted & _ & Hend).
  destruct (Hend returned example_returned) as (Hn & _).
  split; [exact Hn|]. split; [exact Hvalues|exact Hsorted].
Defined.

(** C7 on the batch of ten files, at the end of the run. *)
Lemma processFiles_concurrency_bound_example :
  capacity final = 3 /\
  Z.of_nat (tally inFlight (workers final)) <= Z.of_nat (tally holdsPermit (workers final)) /\
  Z.of_nat (tally holdsPermit (workers final)) = semaphore final /\
  semaphore final <= 3.
Proof.
  destruct (processFiles_concurrency_bound files false numCPU 3 schedule final
              ltac:(by vm_compute) example_run) as (Hc & Hf & Hp & Hs & _).
  split; [exact Hc|]. split; [exact Hf|]. split; [exact Hp|exact Hs].
Defined.

(** C8 on the batch of ten files. *)
Lemma outputText_statistics_example :
  successCount (summarize returned) = 8 /\
  Z.of_nat (length returned) - successCount (summarize returned) = 2 /\
  totalSize (summarize returned) = 44000.
Proof.
  pose proof (outputText_statistics returned) as Hstats. cbv zeta in Hstats.
  destruct Hstats as (Hsc & _ & Hfc & _ & _ & Hsize & _).
  split; [rewrite Hsc; vm_compute; reflexivity|].
  split; [rewrite Hfc; vm_compute; reflexivity|rewrite Hsize; vm_compute; reflexivity].
Defined.

(** C9 on file 1: the format gives no bit rate, the audio stream gives 128000. *)
Lemma analyze_bit_rate_example :
  Info track1 = Some track1Info /\ AudioInfo.BitRate track1Info = 128000.
Proof.
  assert (Info track1 = Some track1Info) as Hinfo by (by vm_compute).
  split; [exact Hinfo|].
  destruct (analyze_bit_rate (world 1) "/music/track1.mp3" track1Info Hinfo)
    as (probeData & audioStream & Hrun & Hhead & Hstream & _).
  change (Parsed (Example.probeData 1) = Parsed probeData) in Hrun.
  injection Hrun as <-.
  change (Some audio = Some audioStream) in Hhead. injection Hhead as <-.
  cbv zeta in Hstream.
  etransitivity; [apply Hstream; vm_compute; split; reflexivity|].
  vm_compute. reflexivity.
Defined.

(** C10 on file 1: the tag "ARTIST" is kept under "artist", the title and the
    album are the defaults. *)
Lemma analyze_metadata_defaults_example :
  Info track1 = Some track1Info /\
  AudioInfo.Metadata track1Info !! "title" = Some "track1" /\
  AudioInfo.Metadata track1Info !! "album" = Some "Unknown Album".
Proof.
  assert (Info track1 = Some track1Info) as Hinfo by (by vm_compute).
  split; [exact Hinfo|].
  destruct (analyze_metadata_defaults (world 1) "/music/track1.mp3" track1Info Hinfo)
    as (probeData & Hrun & _ & _ & _ & _ & Htitle & _ & Halbum).
  change (Parsed (Example.probeData 1) = Parsed probeData) in Hrun.
  injection Hrun as <-.
  assert (forall key, key <> "artist" ->
            forall k0, is_Some (FFProbeFormat.Tags (Format (Example.probeData 1)) !! k0) ->
                       ToLower k0 <> key) as Hno.
  { intros key Hkey k0 [v Hv] <-. simpl in Hv.
    apply lookup_insert_Some in Hv as [[<- _]|[_ Hv]]; [by apply Hkey|done]. }
  split.
  - etransitivity; [apply Htitle; by apply Hno|]. vm_compute. reflexivity.
  - apply Halbum. by apply Hno.
Defined.

End ExampleFacts.

(** ** The music library *)

Module LibraryFacts.
Import Sample Example Library.

(** Without [-r] the tracks of [/music] are found, with [-r] the two audio
    files of [/music/live] as well, before them. *)
Lemma library_collected :
  collectAudioFiles stat ["/music"] false = inr files /\
  collectAudioFiles stat ["/music"] true
    = inr ("/music/live/Encore.FLAC" :: "/music/live/b.ogg" :: files).
Proof. split; by vm_compute. Qed.

Lemma library_start : mainStart flags true stat = Process files 3 false "text" EmptyString.
Proof. by vm_compute. Qed.

(** Every file found under [/music] with [-r] has an audio extension: that of
    [Encore.FLAC] is [.flac] once lower-cased. *)
Lemma collectAudioFiles_audio_only_example :
  In (ToLower (GoFilepath.Ext "/music/live/Encore.FLAC")) audioExtensionNames.
Proof.
  apply (collectAudioFiles_audio_only stat ["/music"] true
           ("/music/live/Encore.FLAC" :: "/music/live/b.ogg" :: files)).
  - exact (proj2 library_collected).
  - left. reflexivity.
Defined.

(** The argument [/nowhere] ends the collection, though [/song.wav] before
    it and [/music] after it can be read. *)
Lemma collectAudioFiles_missing_example :
  collectAudioFiles stat (["/song.wav"] ++ "/nowhere" :: ["/music"]) false
    = inl ("パスが存在しません: " +:+ "/nowhere").
Proof.
  apply (collectAudioFiles_missing stat ["/song.wav"] "/nowhere" ["/music"] false
           ["/song.wav"]); by vm_compute.
Defined.

(** Three files as arguments: the one that is no audio file is dropped. *)
Lemma collectAudioFiles_files_example :
  collectAudioFiles stat ["/song.wav"; "/readme.md"; "/music/live/b.ogg"] true
    = inr (List.filter hasAudioExtension ["/song.wav"; "/readme.md"; "/music/live/b.ogg"]).
Proof.
  apply (collectAudioFiles_files stat ["/song.wav"; "/readme.md"; "/music/live/b.ogg"] true).
  repeat constructor.
Defined.


(** The final line of the progress display of the batch of ten files. *)
Lemma processFiles_progress_display_example :
  finals (trace final) = [10].
Proof.
  destruct (processFiles_progress_display files false numCPU 3 schedule final
              ExampleFacts.example_run) as (_ & Hfinal & _).
  exact (Hfinal eq_refl returned ExampleFacts.example_returned).
Defined.


(** The end of the run of the batch of ten files. *)
Lemma processFiles_returns_joined_example :
  returned = results final /\ semaphore final = 0 /\ wg final = 0 /\ progressWg final = 0.
Proof.
  destruct (processFiles_returns_joined files false numCPU 3 schedule final returned
              ExampleFacts.example_run ExampleFacts.example_returned)
    as (Hout & _ & _ & Hsem & Hwg & Hpw & _).
  repeat split; assumption.
Defined.

(** File 4 of the batch was probed once. *)
Lemma processFiles_probes_once_example :
  (length (probesOf 4 (trace final)) <= 1)%nat.
Proof.
  destruct (processFiles_probes_once files false numCPU 3 schedule final
              ExampleFacts.example_run) as [Honce _].
  exact (Honce 4%nat).
Defined.

Lemma stuck_run :
  run files (replicate 10 LMain) (start files false numCPU 0) = Some stuck.
Proof. by vm_compute. Qed.

(** The batch of ten files with a concurrency of zero: the ten workers are
    started, and there it ends. *)
Lemma processFiles_zero_concurrency_example :
  halted stuck = false /\ processed stuck = 0 /\
  results stuck = replicate (length files) zeroResult.
Proof.
  destruct (processFiles_zero_concurrency files false numCPU 0 (replicate 10 LMain) stuck
              ltac:(by vm_compute) ltac:(discriminate) stuck_run)
    as (_ & Hhalted & _ & Hprocessed & Hresults & _).
  repeat split; assumption.
Defined.


(** No file and a concurrency of zero: [processFiles] returns. *)
Lemma processFiles_empty_input_example :
  exists sched s,
    run [] sched (start [] false numCPU 0) = Some s /\ main s = MReturned [].
Proof.
  exact (proj1 (processFiles_empty_input false numCPU 0 ltac:(by vm_compute))).
Defined.

(** The record of file 1: its codec, and the cover that makes it a file with
    video. *)
Lemma analyze_fields_example :
  Info track1 = Some track1Info /\
  AudioInfo.FilePath track1Info = "/music/track1.mp3" /\
  AudioInfo.ProcessingTimeMs track1Info = 40.
Proof.
  assert (Info track1 = Some track1Info) as Hinfo by (by vm_compute).
  split; [exact Hinfo|].
  destruct (analyze_fields (world 1) "/music/track1.mp3" track1Info Hinfo)
    as (fileSize & probeData & audioStream & _ & _ & _ & Hpath & _ & _ & _ & _ & _ & _
        & _ & _ & _ & Htime).
  split; [exact Hpath|exact Htime].
Defined.

(** The numbers of the record of file 1 are [int64] values. *)
Lemma analyze_numbers_example :
  Info track1 = Some track1Info /\
  GoInt.inInt64 (AudioInfo.BitRate track1Info) /\
  GoInt.inInt64 (AudioInfo.SampleRate track1Info).
Proof.
  assert (Info track1 = Some track1Info) as Hinfo by (by vm_compute).
  split; [exact Hinfo|].
  destruct (analyze_numbers (world 1) "/music/track1.mp3" track1Info Hinfo)
    as (Hbit & Hrate & _).
  split; [exact Hbit|exact Hrate].
Defined.

(** The tag [ARTIST] of file 1 is kept under [artist]. *)
Lemma analyze_tags_kept_example :
  Info track1 = Some track1Info /\
  AudioInfo.Metadata track1Info !! ToLower "ARTIST" = Some "Someone".
Proof.
  assert (Info track1 = Some track1Info) as Hinfo by (by vm_compute).
  split; [exact Hinfo|].
  destruct (analyze_tags_kept (world 1) "/music/track1.mp3" track1Info Hinfo)
    as (probeData & Hrun & _ & Hkept).
  change (Parsed (Example.probeData 1) = Parsed probeData) in Hrun.
  injection Hrun as <-.
  apply Hkept.
  - reflexivity.
  - intros k1 [v Hv] _. simpl in Hv.
    apply lookup_insert_Some in Hv as [[<- _]|[_ Hv]]; done.
Defined.

(** The report of [holed] panics at the second result, after the statistics
    and the lines of file 1. *)
Lemma outputText_status_example :
  outputText holed =
    (statsLines holed +:+ fst (resultLines [track1]), Crashed).
Proof.
  apply (proj2 (outputText_status holed) [track1] zeroResult
           [failure "ffprobe実行エラー: exit status 1"]);
    by vm_compute.
Defined.

(** An encoder that refuses every record: the JSON report of file 1 fails
    and is empty. *)
Lemma outputJSON_elements_example :
  outputJSON (fun _ => inl "json: unsupported value: NaN") [track1]
    = (EmptyString, Failed "json: unsupported value: NaN").
Proof.
  apply (proj2 (outputJSON_elements (fun _ => inl "json: unsupported value: NaN") [track1])
           [] track1Info [] []).
  - by vm_compute.
  - constructor.
  - reflexivity.
Defined.

(** The lines of [tags]: the comment, which is empty, has none. *)
Lemma metadataLines_entries_example :
  exists entries,
    entries ≡ₚ map_to_list (filter (fun kv : string * string => kv.2 <> "") tags) /\
    metadataLines tags =
      "   メタデータ:" +:+ nl +:+
      concat (map (fun kv : string * string =>
                     "     " +:+ kv.1 +:+ ": " +:+ kv.2 +:+ nl) entries).
Proof.
  apply (proj2 (metadataLines_entries tags)).
  intros Hempty. apply (f_equal (fun m : gmap string string => m !! "title")) in Hempty.
  by vm_compute in Hempty.
Defined.

(** One hour, two minutes and five seconds. *)
Lemma formatDuration_units_example :
  formatDuration (GoFloat.ofInt 3725) = "1時間2分5秒".
Proof.
  destruct (formatDuration_units (GoFloat.ofInt 3725)) as (_ & _ & Hhours).
  destruct (Hhours ltac:(by vm_compute)) as [-> _]. by vm_compute.
Defined.


(** [-json -r -q /music]: twelve files are processed, and the format is JSON
    though [-format] says text. *)
Lemma main_processes_audio_files_example :
  mainStart jsonFlags true stat
    = Process ("/music/live/Encore.FLAC" :: "/music/live/b.ogg" :: files)
        8 true "json" EmptyString /\
  (1 <= length ("/music/live/Encore.FLAC" :: "/music/live/b.ogg" :: files))%nat.
Proof.
  assert (mainStart jsonFlags true stat
          = Process ("/music/live/Encore.FLAC" :: "/music/live/b.ogg" :: files)
              8 true "json" EmptyString) as Hstart by (by vm_compute).
  split; [exact Hstart|].
  destruct (main_processes_audio_files jsonFlags true stat _ _ _ _ _ Hstart)
    as (_ & _ & Hlen & _).
  exact Hlen.
Defined.

(** [-j 3 /music] with the run of [Example]: two of the ten files fail, and
    the exit status is 0. *)
Lemma main_exit_status_example :
  length returned = length files /\
  exitCode (snd (outputResults (fun _ => inl EmptyString) (fun _ => None)
                   returned "text" EmptyString)) = 0.
Proof.
  destruct (main_exit_status (fun _ => inl EmptyString) flags true stat numCPU
              (fun _ => None) files 3 false "text" EmptyString schedule final returned
              library_start ExampleFacts.example_run ExampleFacts.example_returned)
    as (Hlen & _ & Hzero).
  split; [exact Hlen|].
  apply Hzero; [by left|]. left. split; [reflexivity|discriminate].
Defined.

(** Four CPUs: the default concurrency is 8, below the limit of 48. *)
Lemma main_default_concurrency_example :
  Flags.concurrency (defaultFlags 4 []) = 2 * 4 /\
  effectiveConcurrency 4 (Flags.concurrency (defaultFlags 4 [])) = 2 * 4.
Proof.
  destruct (main_default_concurrency 4 [] files false world
              ltac:(by vm_compute) ltac:(by vm_compute)) as (Hj & Heff & _).
  split; [exact Hj|exact Heff].
Defined.

End LibraryFacts.
